(** * Session registry and replayable event log over a shared Redis store

    A shallow embedding of
      - [RedisEventStore]   (redisEventStore.ts / dist/redisEventStore.js),
      - [SessionManager]    (src/sessionManager.ts, the stateless variant),
      - [SessionManager]    (dist/sessionManager.js, the variant that records
                             the owning node),
    over a functional model of the Redis commands they issue, followed by the
    properties of the event log and of the registry.

    Conventions.
      - Every [await]ed Redis command runs to completion before the next one:
        a method is one sequential pass over the store.
      - [Date.now()] and [Math.random()] are inputs of the method that reads
        them, one argument per reading.
      - [console.log] / [console.error] output is not part of the state. *)

From Stdlib Require Import Ascii String.
From stdpp Require Import gmap strings list pretty sorting.

Local Open Scope Z_scope.

(** ** JavaScript primitives used by the two classes *)

Module JS.

(** ['_'], the separator of event identifiers. *)
Definition underscore : ascii := "_"%char.

(** [s.split(sep)] for a one-character separator: never the empty list. *)
Fixpoint split (sep : ascii) (s : string) : list string :=
  match s with
  | EmptyString => [EmptyString]
  | String c r =>
      if decide (c = sep) then EmptyString :: split sep r
      else match split sep r with
           | p :: ps => String c p :: ps
           | [] => [String c EmptyString]
           end
  end.

(** [s.includes(c)] for a character [c]; used in statements only. *)
Fixpoint includes (c : ascii) (s : string) : bool :=
  match s with
  | EmptyString => false
  | String a r => bool_decide (a = c) || includes c r
  end.

(** Truthiness of a string value: only the empty string is falsy. *)
Definition truthy (s : string) : bool := bool_decide (s ≠ EmptyString).

(** Truthiness of a property that may be [undefined]. *)
Definition truthy_prop (o : option string) : bool :=
  match o with Some s => truthy s | None => false end.

(** White space skipped by [parseInt] (the ASCII part of StrWhiteSpaceChar). *)
Definition is_ws (c : ascii) : bool :=
  let n := nat_of_ascii c in
  bool_decide (n = 32 ∨ n = 9 ∨ n = 10 ∨ n = 11 ∨ n = 12 ∨ n = 13)%nat.

Fixpoint skip_ws (s : string) : string :=
  match s with
  | String c r => if is_ws c then skip_ws r else s
  | EmptyString => s
  end.

(** Value of a character as a digit of the given radix (10 or 16). *)
Definition digit_val (radix : Z) (c : ascii) : option Z :=
  let n := Z.of_nat (nat_of_ascii c) in
  let v := if bool_decide (48 ≤ n ≤ 57) then Some (n - 48)
           else if bool_decide (97 ≤ n ≤ 102) then Some (n - 87)
           else if bool_decide (65 ≤ n ≤ 70) then Some (n - 55)
           else None in
  match v with
  | Some d => if bool_decide (d < radix) then Some d else None
  | None => None
  end.

(** Value of the longest prefix of digits, most significant first. *)
Fixpoint scan (radix : Z) (s : string) (acc : Z) : Z :=
  match s with
  | String c r =>
      match digit_val radix c with
      | Some d => scan radix r (acc * radix + d)
      | None => acc
      end
  | EmptyString => acc
  end.

Definition starts_with_digit (radix : Z) (s : string) : bool :=
  match s with
  | String c _ => bool_decide (is_Some (digit_val radix c))
  | EmptyString => false
  end.

(** [parseInt(s)] without a radix argument; [None] is [NaN].
    Leading white space, an optional sign, an optional [0x]/[0X] prefix,
    then the longest prefix of digits; anything after it is ignored. *)
Definition parseInt (s : string) : option Z :=
  let s1 := skip_ws s in
  let '(neg, s2) :=
    match s1 with
    | String "-" r => (true, r)
    | String "+" r => (false, r)
    | _ => (false, s1)
    end in
  let '(radix, s3) :=
    match s2 with
    | String "0" (String "x" r) => (16, r)
    | String "0" (String "X" r) => (16, r)
    | _ => (10, s2)
    end in
  if starts_with_digit radix s3
  then Some (if neg : bool then - scan radix s3 0 else scan radix s3 0)
  else None.

(** [parseInt(undefined)] is [NaN]. *)
Definition parseInt_prop (o : option string) : option Z :=
  match o with Some s => parseInt s | None => None end.

(** [n.toString()] for an integral number, [None] being [NaN]. *)
Definition toString (n : option Z) : string :=
  match n with Some z => pretty z | None => "NaN" end.

End JS.

(** ** The Redis commands the classes issue

    Hashes and sorted sets live in one key space; the three key shapes
    ([session:<id>], [event:<id>], [stream:<id>]) keep them apart, so the two
    kinds of value are kept in two maps indexed by the full key.  A sorted set
    is the list of its (score, member) pairs in Redis order: ascending score,
    members of equal score in lexicographic order. *)

Module Redis.

Abbreviation zset := (list (Z * string)).

Record t := mk {
  hashes : gmap string (gmap string string);
  zsets : gmap string zset;
  ttls : gmap string Z
}.

Definition empty : t := mk ∅ ∅ ∅.

(** Inclusive range bounds of ZRANGEBYSCORE / ZREMRANGEBYSCORE. *)
Inductive bound := NegInf | Score (z : Z) | PosInf.

Definition above (lo : bound) (z : Z) : bool :=
  match lo with NegInf => true | Score l => bool_decide (l ≤ z) | PosInf => false end.
Definition below (hi : bound) (z : Z) : bool :=
  match hi with NegInf => false | Score h => bool_decide (z ≤ h) | PosInf => true end.
Definition in_range (lo hi : bound) (e : Z * string) : bool :=
  above lo e.1 && below hi e.1.

(** EXISTS key: 1 or 0. *)
Definition exists_ (key : string) (r : t) : Z :=
  if bool_decide (is_Some (hashes r !! key) ∨ is_Some (zsets r !! key)) then 1 else 0.

(** HGETALL key: the empty object when the key is missing. *)
Definition hGetAll (key : string) (r : t) : gmap string string :=
  default ∅ (hashes r !! key).

(** HSET key field value [field value ...]: the given fields are written
    over the hash, its other fields stay. *)
Definition hSet (key : string) (fields : gmap string string) (r : t) : t :=
  mk (<[key := fields ∪ hGetAll key r]> (hashes r)) (zsets r) (ttls r).

(** HSET key field value. *)
Definition hSetField (key field value : string) (r : t) : t :=
  hSet key {[field := value]} r.

(** EXPIRE key seconds: only an existing key gets a time to live. *)
Definition expire (key : string) (seconds : Z) (r : t) : t :=
  if bool_decide (exists_ key r = 1)
  then mk (hashes r) (zsets r) (<[key := seconds]> (ttls r))
  else r.

(** DEL key. *)
Definition del (key : string) (r : t) : t :=
  mk (delete key (hashes r)) (delete key (zsets r)) (delete key (ttls r)).

(** Redis order on (score, member) pairs. *)
Definition entry_le (a b : Z * string) : bool :=
  bool_decide (a.1 < b.1) || (bool_decide (a.1 = b.1) && String.leb a.2 b.2).

Fixpoint zinsert (e : Z * string) (l : zset) : zset :=
  match l with
  | [] => [e]
  | x :: l' => if entry_le e x then e :: x :: l' else x :: zinsert e l'
  end.

Definition zremove (member : string) (l : zset) : zset :=
  filter (λ e, e.2 ≠ member) l.

(** ZADD key score member: a member already present moves to its new score. *)
Definition zAdd (key : string) (score : Z) (member : string) (r : t) : t :=
  let old := default [] (zsets r !! key) in
  mk (hashes r) (<[key := zinsert (score, member) (zremove member old)]> (zsets r)) (ttls r).

(** ZRANGEBYSCORE key min max: the members, in set order. *)
Definition zRangeByScore (key : string) (lo hi : bound) (r : t) : list string :=
  (filter (λ e, in_range lo hi e = true) (default [] (zsets r !! key))).*2.

(** ZREMRANGEBYSCORE key min max: a set left empty is removed with its key. *)
Definition zRemRangeByScore (key : string) (lo hi : bound) (r : t) : t :=
  match zsets r !! key with
  | None => r
  | Some l =>
      match filter (λ e, in_range lo hi e ≠ true) l with
      | [] => mk (hashes r) (delete key (zsets r)) (delete key (ttls r))
      | l' => mk (hashes r) (<[key := l']> (zsets r)) (ttls r)
      end
  end.

End Redis.

(** ** [JSON.stringify] / [JSON.parse]

    The built-in codec is taken as an interface: [JSON_parse] answers [None]
    where [JSON.parse] throws a [SyntaxError].  A value that decodes is taken
    to be of the TypeScript type it is cast to. *)

Class JSON (A : Type) := {
  JSON_stringify : A → string;
  JSON_parse : string → option A
}.

(** What the proofs use of the codec: a serialised value reads back as
    itself, and the empty text is not JSON. *)
Class JSONLaws (A : Type) `{JSON A} : Prop := {
  JSON_parse_stringify : ∀ a : A, JSON_parse (JSON_stringify a) = Some a;
  JSON_parse_empty : JSON_parse (A := A) "" = None
}.

(** ** RedisEventStore *)

Module RedisEventStore.
Section EventStore.

(** [JSONRPCMessage], opaque to the store. *)
Context {Message : Type} `{!JSON Message}.

Definition event_key (eventId : string) : string := "event:" +:+ eventId.
Definition stream_key (streamId : string) : string := "stream:" +:+ streamId.

(** [`${streamId}_${Date.now()}_${Math.random().toString(36).substring(2, 10)}`];
    [now] is the clock reading, [rnd] the random suffix. *)
Definition generateEventId (streamId : string) (now : Z) (rnd : string) : string :=
  streamId +:+ "_" +:+ JS.toString (Some now) +:+ "_" +:+ rnd.

(** [parts.length > 0 ? parts[0] : ''] with [parts = eventId.split('_')]. *)
Definition getStreamIdFromEventId (eventId : string) : string :=
  match JS.split JS.underscore eventId with
  | p :: _ => p
  | [] => ""
  end.

(** [storeEvent]: [now_id] is the clock reading inside [generateEventId],
    [now] the one taken for [timestamp]. *)
Definition storeEvent (streamId : string) (message : Message)
    (now_id : Z) (rnd : string) (now : Z) (r : Redis.t) : string * Redis.t :=
  let eventId := generateEventId streamId now_id rnd in
  let timestamp := now in
  let r := Redis.hSet (event_key eventId)
             (<["streamId" := streamId]>
               (<["message" := JSON_stringify message]>
                 {["timestamp" := JS.toString (Some timestamp)]})) r in
  let r := Redis.zAdd (stream_key streamId) timestamp eventId r in
  let r := Redis.expire (event_key eventId) (24 * 60 * 60) r in
  let r := Redis.expire (stream_key streamId) (24 * 60 * 60) r in
  (eventId, r).

(** How a call of [replayEventsAfter] ends. *)
Inductive outcome := Returned (streamId : string) | Threw.

(** The delivery loop: the calls [send(eventId, message)] it makes, in
    order.  A rejected [send] is caught with the parse errors and logged, so
    the calls that follow do not depend on it. *)
Fixpoint replay_loop (eventIds : list string) (r : Redis.t) : list (string * Message) :=
  match eventIds with
  | [] => []
  | eventId :: rest =>
      let eventData := Redis.hGetAll (event_key eventId) r in
      match eventData !! "message" with
      | Some text =>
          if JS.truthy text then
            match JSON_parse text with
            | Some message => (eventId, message) :: replay_loop rest r
            | None => replay_loop rest r
            end
          else replay_loop rest r
      | None => replay_loop rest r
      end
  end.

(** [replayEventsAfter(lastEventId, { send })]: how it ends, and the calls
    of [send] it made.  A stored timestamp that is not a number makes the
    lower bound [NaN], which the range query rejects. *)
Definition replayEventsAfter (lastEventId : string) (r : Redis.t)
    : outcome * list (string * Message) :=
  if negb (JS.truthy lastEventId) then (Returned "", [])
  else
    let streamId := getStreamIdFromEventId lastEventId in
    if negb (JS.truthy streamId) then (Returned "", [])
    else
      let lastEventData := Redis.hGetAll (event_key lastEventId) r in
      if negb (JS.truthy_prop (lastEventData !! "timestamp")) then (Returned "", [])
      else
        match JS.parseInt_prop (lastEventData !! "timestamp") with
        | None => (Threw, [])
        | Some lastTimestamp =>
            let eventIds :=
              Redis.zRangeByScore (stream_key streamId)
                (Redis.Score (lastTimestamp + 1)) Redis.PosInf r in
            (Returned streamId, replay_loop eventIds r)
        end.

(** [cleanupOldEvents(streamId, olderThanMs)], [now] being [Date.now()]. *)
Definition cleanupOldEvents (streamId : string) (olderThanMs : Z) (now : Z)
    (r : Redis.t) : Redis.t :=
  let cutoffTime := now - olderThanMs in
  let oldEventIds :=
    Redis.zRangeByScore (stream_key streamId) Redis.NegInf (Redis.Score cutoffTime) r in
  let r := foldl (λ r eventId, Redis.del (event_key eventId) r) r oldEventIds in
  Redis.zRemRangeByScore (stream_key streamId) Redis.NegInf (Redis.Score cutoffTime) r.

(** A run of [storeEvent] calls into one stream: the identifiers returned
    and the store left behind. *)
Record append := mkAppend {
  a_message : Message;
  a_now_id : Z;
  a_rnd : string;
  a_now : Z
}.

Fixpoint storeEvents (streamId : string) (apps : list append) (r : Redis.t)
    : list string * Redis.t :=
  match apps with
  | [] => ([], r)
  | a :: rest =>
      let '(eventId, r1) :=
        storeEvent streamId (a_message a) (a_now_id a) (a_rnd a) (a_now a) r in
      let '(ids, r2) := storeEvents streamId rest r1 in
      (eventId :: ids, r2)
  end.

End EventStore.
End RedisEventStore.

(** ** Transport objects of the SDK

    A transport is an object on the heap of the node that created it; the
    registry holds references to it.  The [onclose] handler installed by
    [registerSession] is a closure over the session identifier alone: the
    field records that identifier, and each class runs its own handler body
    (see [fire_onclose] in either module). *)

Module Sdk.

(** ['streamable' | 'sse']. *)
Inductive TransportType := streamable | sse.

Definition TransportType_str (ty : TransportType) : string :=
  match ty with streamable => "streamable" | sse => "sse" end.

Inductive TransportClass := StreamableHTTPServerTransport | SSEServerTransport.

Record Transport := mkTransport {
  t_class : TransportClass;
  t_sessionId : option string;
  t_endpoint : option string;
  t_res : option nat;
  t_onclose : option string
}.

Definition set_onclose (sid : string) (tr : Transport) : Transport :=
  mkTransport (t_class tr) (t_sessionId tr) (t_endpoint tr) (t_res tr) (Some sid).

(** [new SSEServerTransport(endpoint, res)]; [uuid] is the identifier the
    constructor draws for the new transport. *)
Definition new_SSEServerTransport (endpoint : string) (res : nat) (uuid : string) : Transport :=
  mkTransport SSEServerTransport (Some uuid) (Some endpoint) (Some res) None.

(** [x instanceof SSEServerTransport] for a reference that may be [undefined]. *)
Definition instanceof_SSE (heap : gmap nat Transport) (ref : option nat) : bool :=
  match ref ≫= (heap !!.) with
  | Some tr => match t_class tr with SSEServerTransport => true | _ => false end
  | None => false
  end.

(** Writes a property that may be [undefined]: an undefined value is not
    written. *)
Definition set_prop (field : string) (value : option string)
    (obj : gmap string string) : gmap string string :=
  match value with Some v => <[field := v]> obj | None => obj end.

End Sdk.

(** ** SessionManager, stateless variant (src/sessionManager.ts) *)

Module SessionManager.
Import Sdk.

Record SSEState := mkSSEState {
  isConnected : bool;
  lastEventId : option string
}.

(** [SessionMetadata] as [deserializeMetadata] builds it from the string
    fields of a hash: a missing field reads [undefined] ([None]), a number
    that does not parse is [NaN] ([None]). *)
Record SessionMetadata := mkMetadata {
  sessionId : option string;
  transportType : option string;
  createdAt : option Z;
  lastActive : option Z;
  sseState : option SSEState
}.

(** The fields of the class, and the transport objects of the process. *)
Record t := mkManager {
  redis : Redis.t;
  nodeId : string;
  localTransports : gmap string nat;
  heap : gmap nat Transport
}.

Definition session_key (sessionId : string) : string := "session:" +:+ sessionId.

Section Manager.
Context `{!JSON SSEState}.

Definition serializeMetadata (metadata : SessionMetadata) : gmap string string :=
  let serialized :=
    set_prop "sessionId" (sessionId metadata)
      (set_prop "transportType" (transportType metadata)
        (<["createdAt" := JS.toString (createdAt metadata)]>
          {["lastActive" := JS.toString (lastActive metadata)]})) in
  match sseState metadata with
  | Some st => <["sseState" := JSON_stringify st]> serialized
  | None => serialized
  end.

Definition deserializeMetadata (data : gmap string string) : SessionMetadata :=
  {| sessionId := data !! "sessionId";
     transportType := data !! "transportType";
     createdAt := JS.parseInt_prop (data !! "createdAt");
     lastActive := JS.parseInt_prop (data !! "lastActive");
     sseState :=
       match data !! "sseState" with
       | Some blob => if JS.truthy blob then JSON_parse blob else None
       | None => None
       end |}.

(** [registerSession]; [now1] and [now2] are the two clock readings. *)
Definition registerSession (sid : string) (transport : nat) (ty : TransportType)
    (now1 now2 : Z) (m : t) : t :=
  let metadata :=
    {| sessionId := Some sid;
       transportType := Some (TransportType_str ty);
       createdAt := Some now1;
       lastActive := Some now2;
       sseState := match ty with
                   | sse => Some {| isConnected := true; lastEventId := None |}
                   | streamable => None
                   end |} in
  let r := Redis.hSet (session_key sid) (serializeMetadata metadata) (redis m) in
  let r := Redis.expire (session_key sid) (30 * 60) r in
  mkManager r (nodeId m)
    (<[sid := transport]> (localTransports m))
    (alter (set_onclose sid) transport (heap m)).

Definition getSession (sid : string) (r : Redis.t) : option SessionMetadata :=
  let data := Redis.hGetAll (session_key sid) r in
  if negb (JS.truthy_prop (data !! "sessionId")) then None
  else Some (deserializeMetadata data).

Definition sessionExists (sid : string) (r : Redis.t) : bool :=
  bool_decide (Redis.exists_ (session_key sid) r = 1).

Definition getLocalTransport (sid : string) (m : t) : option nat :=
  localTransports m !! sid.

Definition updateSessionActivity (sid : string) (now : Z) (m : t) : t :=
  if bool_decide (Redis.exists_ (session_key sid) (redis m) ≠ 0) then
    let r := Redis.hSetField (session_key sid) "lastActive" (JS.toString (Some now)) (redis m) in
    let r := Redis.expire (session_key sid) (30 * 60) r in
    mkManager r (nodeId m) (localTransports m) (heap m)
  else m.

(** [markSessionDisconnected] on the store; [now] is read inside the branch. *)
Definition markSessionDisconnected (sid : string) (now : Z) (r : Redis.t) : Redis.t :=
  match getSession sid r with
  | Some metadata =>
      match sseState metadata with
      | Some st =>
          if bool_decide (transportType metadata = Some "sse") then
            let metadata :=
              {| sessionId := sessionId metadata;
                 transportType := transportType metadata;
                 createdAt := createdAt metadata;
                 lastActive := Some now;
                 sseState := Some {| isConnected := false;
                                     lastEventId := lastEventId st |} |} in
            Redis.hSet (session_key sid) (serializeMetadata metadata) r
          else r
      | None => r
      end
  | None => r
  end.

Definition isSSEConnected (sid : string) (r : Redis.t) : bool :=
  match getSession sid r with
  | Some metadata =>
      bool_decide (transportType metadata = Some "sse") &&
      match sseState metadata with
      | Some st => isConnected st
      | None => false
      end
  | None => false
  end.

(** How a call of [getOrCreateSSETransport] ends: the promise resolves with
    a transport or [null], or it rejects with the [TypeError] thrown in the
    method. *)
Inductive completion := Resolved (transport : option nat) | Rejected.

(** [getOrCreateSSETransport(sessionId, res)]: [res] is [None] when no
    response object is passed, [uuid] is the identifier the new transport
    is born with.

    With a response object the method makes
    [new SSEServerTransport('/messages', res)] and then runs
    [(transport as any).sessionId = sessionId].  The SDK declares
    [sessionId] on [SSEServerTransport] as an accessor with a getter and no
    setter, and the method is strict-mode code, so the assignment throws a
    [TypeError]: the statements after it ([localTransports.set], the
    update of the record, the [return]) are never reached, and the
    transport just made is referenced by nothing. *)
Definition getOrCreateSSETransport (sid : string) (res : option nat) (uuid : string)
    (m : t) : t * completion :=
  match getSession sid (redis m) with
  | None => (m, Resolved None)
  | Some metadata =>
      if negb (bool_decide (transportType metadata = Some "sse")) then (m, Resolved None)
      else
        let localTransport := localTransports m !! sid in
        if instanceof_SSE (heap m) localTransport then (m, Resolved localTransport)
        else
          match res with
          | Some res => (m, Rejected)
          | None => (m, Resolved None)
          end
  end.

Definition removeSession (sid : string) (m : t) : t :=
  mkManager (Redis.del (session_key sid) (redis m)) (nodeId m)
    (delete sid (localTransports m)) (heap m).

(** The handler [registerSession] installs:
    [await this.markSessionDisconnected(sessionId);
     this.localTransports.delete(sessionId)]. *)
Definition onclose_handler (sid : string) (now : Z) (m : t) : t :=
  mkManager (markSessionDisconnected sid now (redis m)) (nodeId m)
    (delete sid (localTransports m)) (heap m).

(** The connection behind [transport] closes: its [onclose], if set, runs. *)
Definition fire_onclose (transport : nat) (now : Z) (m : t) : t :=
  match heap m !! transport ≫= t_onclose with
  | Some sid => onclose_handler sid now m
  | None => m
  end.

(** Another node attached to the same store, holding no transport yet. *)
Definition other_node (id : string) (m : t) : t :=
  mkManager (redis m) id ∅ ∅.

End Manager.
End SessionManager.

(** ** SessionManager, variant recording the owner node (dist/sessionManager.js) *)

Module DistSessionManager.
Import Sdk.

Record SessionMetadata := mkMetadata {
  sessionId : option string;
  transportType : option string;
  ownerNodeId : option string;
  createdAt : option Z;
  lastActive : option Z
}.

Record t := mkManager {
  redis : Redis.t;
  nodeId : string;
  localTransports : gmap string nat;
  heap : gmap nat Transport
}.

Definition session_key (sessionId : string) : string := "session:" +:+ sessionId.

(** [registerSession]: the metadata object goes to HSET as it is, the
    client writing its two numbers in decimal. *)
Definition registerSession (sid : string) (transport : nat) (ty : TransportType)
    (now1 now2 : Z) (m : t) : t :=
  let metadata : gmap string string :=
    <["sessionId" := sid]>
      (<["transportType" := TransportType_str ty]>
        (<["nodeId" := nodeId m]>
          (<["createdAt" := JS.toString (Some now1)]>
            {["lastActive" := JS.toString (Some now2)]}))) in
  let r := Redis.hSet (session_key sid) metadata (redis m) in
  let r := Redis.expire (session_key sid) (30 * 60) r in
  mkManager r (nodeId m)
    (<[sid := transport]> (localTransports m))
    (alter (set_onclose sid) transport (heap m)).

Definition getSession (sid : string) (r : Redis.t) : option SessionMetadata :=
  let data := Redis.hGetAll (session_key sid) r in
  if negb (JS.truthy_prop (data !! "sessionId")) then None
  else Some {| sessionId := data !! "sessionId";
               transportType := data !! "transportType";
               ownerNodeId := data !! "nodeId";
               createdAt := JS.parseInt_prop (data !! "createdAt");
               lastActive := JS.parseInt_prop (data !! "lastActive") |}.

Definition isSessionLocal (sid : string) (m : t) : bool :=
  match getSession sid (redis m) with
  | Some metadata =>
      bool_decide (ownerNodeId metadata = Some (nodeId m)) &&
      bool_decide (is_Some (localTransports m !! sid))
  | None => false
  end.

Definition getLocalTransport (sid : string) (m : t) : option nat :=
  localTransports m !! sid.

Definition unregisterSession (sid : string) (m : t) : t :=
  mkManager (Redis.del (session_key sid) (redis m)) (nodeId m)
    (delete sid (localTransports m)) (heap m).

(** The handler [registerSession] installs:
    [await this.unregisterSession(sessionId)]. *)
Definition onclose_handler (sid : string) (m : t) : t := unregisterSession sid m.

Definition fire_onclose (transport : nat) (m : t) : t :=
  match heap m !! transport ≫= t_onclose with
  | Some sid => onclose_handler sid m
  | None => m
  end.

End DistSessionManager.

(** ** A concrete codec

    An instance of the [JSON] interface on which the statements below are run:
    integer payloads are written in decimal, and the connection sub-state is
    written as the object text [JSON.stringify] gives for it. *)

Module Codec.
Import SessionManager.

Definition dquote : ascii := ascii_of_nat 34.
Definition backslash : ascii := ascii_of_nat 92.

Fixpoint strip_prefix (p s : string) : option string :=
  match p, s with
  | EmptyString, _ => Some s
  | String a p', String b s' => if decide (a = b) then strip_prefix p' s' else None
  | String _ _, EmptyString => None
  end.

(** String contents between the quotes: a quote or a backslash is written
    after a backslash. *)
Fixpoint escape (s : string) : string :=
  match s with
  | EmptyString => EmptyString
  | String c r =>
      if bool_decide (c = dquote ∨ c = backslash)
      then String backslash (String c (escape r))
      else String c (escape r)
  end.

(** Reads string contents up to the closing quote; answers the contents and
    what follows the quote. *)
Fixpoint unescape (s : string) : option (string * string) :=
  match s with
  | EmptyString => None
  | String c r =>
      if decide (c = dquote) then Some (EmptyString, r)
      else if decide (c = backslash) then
        match r with
        | String c' r' =>
            match unescape r' with
            | Some (body, rest) => Some (String c' body, rest)
            | None => None
            end
        | EmptyString => None
        end
      else
        match unescape r with
        | Some (body, rest) => Some (String c body, rest)
        | None => None
        end
  end.

Definition quoted (s : string) : string :=
  String dquote (s +:+ String dquote EmptyString).

Definition sse_open : string := "{" +:+ quoted "isConnected" +:+ ":".
Definition sse_id : string := "," +:+ quoted "lastEventId" +:+ ":" +:+ String dquote EmptyString.

Definition bool_text (b : bool) : string := if b then "true" else "false".

Definition stringify_sse (st : SSEState) : string :=
  sse_open +:+ (bool_text (isConnected st) +:+
    match lastEventId st with
    | None => "}"
    | Some id => sse_id +:+ (escape id +:+ String dquote "}")
    end).

Definition parse_bool (s : string) : option (bool * string) :=
  match strip_prefix "true" s with
  | Some r => Some (true, r)
  | None => match strip_prefix "false" s with
            | Some r => Some (false, r)
            | None => None
            end
  end.

Definition parse_sse (s : string) : option SSEState :=
  match strip_prefix sse_open s with
  | None => None
  | Some r1 =>
      match parse_bool r1 with
      | None => None
      | Some (b, r2) =>
          if decide (r2 = "}") then Some (mkSSEState b None)
          else
            match strip_prefix sse_id r2 with
            | None => None
            | Some r3 =>
                match unescape r3 with
                | Some (id, r4) =>
                    if decide (r4 = "}") then Some (mkSSEState b (Some id)) else None
                | None => None
                end
            end
      end
  end.

#[export] Instance json_sse : JSON SSEState :=
  {| JSON_stringify := stringify_sse; JSON_parse := parse_sse |}.

(** Integer payloads, in canonical decimal form only. *)
Definition parse_int (s : string) : option Z :=
  match JS.parseInt s with
  | Some z => if decide (JS.toString (Some z) = s) then Some z else None
  | None => None
  end.

#[export] Instance json_int : JSON Z :=
  {| JSON_stringify := λ z, JS.toString (Some z); JSON_parse := parse_int |}.

End Codec.

(** ** The sweeps of the stateless SessionManager (src/sessionManager.ts)

    [getLocalSessions] lists the keys of the local cache.  The source
    enumerates a [Map] in insertion order; here the keys come in the order of
    the map model, and the sweeps are also given over an explicit list of
    keys, so that statements about them can be made for every order. *)

Module Sweeps.
Import Sdk SessionManager.

Definition getLocalSessions (m : t) : list string :=
  (map_to_list (localTransports m)).*1.

Section Sweeps.
Context `{!JSON SSEState}.

(** One turn of the loop of [cleanupExpiredSessions]. *)
Definition cleanup_step (m : t) (sid : string) : t :=
  match getSession sid (redis m) with
  | None => mkManager (redis m) (nodeId m) (delete sid (localTransports m)) (heap m)
  | Some _ => m
  end.

Definition cleanup_loop (localSessions : list string) (m : t) : t :=
  foldl cleanup_step m localSessions.

Definition cleanupExpiredSessions (m : t) : t :=
  cleanup_loop (getLocalSessions m) m.

(** One turn of the loop of [shutdown].  [clock sid] gives the two clock
    readings of the turn: the one of [markSessionDisconnected] called by the
    loop, and the one of the [onclose] handler that [transport.close()]
    runs. *)
Definition shutdown_step (clock : string → Z * Z) (m : t) (sid : string) : t :=
  match localTransports m !! sid with
  | Some transport =>
      let r :=
        if instanceof_SSE (heap m) (Some transport)
        then markSessionDisconnected sid (clock sid).1 (redis m)
        else redis m in
      fire_onclose transport (clock sid).2
        (mkManager r (nodeId m) (localTransports m) (heap m))
  | None => m
  end.

Definition shutdown_loop (clock : string → Z * Z) (localSessions : list string)
    (m : t) : t :=
  foldl (shutdown_step clock) m localSessions.

Definition shutdown (clock : string → Z * Z) (m : t) : t :=
  let m' := shutdown_loop clock (getLocalSessions m) m in
  mkManager (redis m') (nodeId m') ∅ (heap m').

End Sweeps.
End Sweeps.

(** ** [updateSessionActivity] of the SessionManager recording the owner node
    (dist/sessionManager.js) *)

Module DistManager.
Import Sdk DistSessionManager.

Definition updateSessionActivity (sid : string) (now : Z) (m : t) : t :=
  if bool_decide (Redis.exists_ (session_key sid) (redis m) ≠ 0) then
    let r := Redis.hSetField (session_key sid) "lastActive" (JS.toString (Some now)) (redis m) in
    let r := Redis.expire (session_key sid) (30 * 60) r in
    mkManager r (nodeId m) (localTransports m) (heap m)
  else m.

(** Another node attached to the same store, holding no transport yet. *)
Definition other_node (id : string) (m : t) : t :=
  mkManager (redis m) id ∅ ∅.

End DistManager.

(** ** Request dispatch of the stateless server (multiNodeServer.ts)

    A handler is given by the manager it leaves and by what it does with the
    request: an error answer, or the transport it hands the request to.  What
    the transport then does is the SDK's. *)

Module Server.
Import Sdk SessionManager.

Inductive Response :=
(** [res.status(status).json({ jsonrpc: '2.0', error: { code, message }, id: null })] *)
| Json (status : Z) (code : Z) (message : string)
(** [transport.handleRequest(req, res, req.body)] on a transport of the local cache *)
| HandleRequest (transport : nat)
(** the same on a new [StreamableHTTPServerTransport] whose
    [sessionIdGenerator] returns the session identifier of the request *)
| HandleRequestRestored (sessionId : string)
(** the same on a new [StreamableHTTPServerTransport] that draws a random
    identifier and registers itself as ['streamable'] once initialised *)
| HandleRequestNew
(** [transport.handlePostMessage(req, res, req.body)] *)
| HandlePostMessage (transport : nat)
(** [server.connect(transport)] on the SSE transport of the response *)
| Connect (transport : nat)
(** the handler, which has no [try], ends in the exception thrown by a call
    it awaits; the answer is then Express's own *)
| Throws.

(** [x instanceof StreamableHTTPServerTransport] for a reference that may be
    [undefined]. *)
Definition instanceof_Streamable (heap : gmap nat Transport) (ref : option nat) : bool :=
  match ref ≫= (heap !!.) with
  | Some tr => match t_class tr with StreamableHTTPServerTransport => true | _ => false end
  | None => false
  end.

(** A header or query value that is present and not the empty string. *)
Definition given (value : option string) : option string :=
  match value with
  | Some s => if JS.truthy s then Some s else None
  | None => None
  end.

Section Handlers.
Context `{!JSON SSEState}.

(** [app.all('/mcp', ...)]: [sessionId] is the [mcp-session-id] header,
    [isInitialize] is [isInitializeRequest(req.body)]. *)
Definition all_mcp (sessionId : option string) (method : string) (isInitialize : bool)
    (now : Z) (m : t) : t * Response :=
  match given sessionId with
  | Some sid =>
      let m := updateSessionActivity sid now m in
      if sessionExists sid (redis m) then
        let existingTransport := getLocalTransport sid m in
        match existingTransport with
        | Some transport =>
            if instanceof_Streamable (heap m) existingTransport
            then (m, HandleRequest transport)
            else
              match getSession sid (redis m) with
              | Some metadata =>
                  if bool_decide (transportType metadata = Some "streamable")
                  then (m, HandleRequestRestored sid)
                  else (m, Json 400 (-32000)
                             "Session exists but uses a different transport protocol")
              | None => (m, Json 400 (-32000)
                              "Session exists but uses a different transport protocol")
              end
        | None =>
            match getSession sid (redis m) with
            | Some metadata =>
                if bool_decide (transportType metadata = Some "streamable")
                then (m, HandleRequestRestored sid)
                else (m, Json 400 (-32000)
                           "Session exists but uses a different transport protocol")
            | None => (m, Json 400 (-32000)
                            "Session exists but uses a different transport protocol")
            end
        end
      else (m, Json 404 (-32000) "Session not found")
  | None =>
      if bool_decide (method = "POST") && isInitialize
      then (m, HandleRequestNew)
      else (m, Json 400 (-32000)
                 "Bad Request: No valid session ID provided or invalid initialization request")
  end.

(** [app.get('/sse', ...)]: [sessionId] is the query parameter, [res] the
    response object, [uuid] the identifier a new transport is born with,
    [now1] and [now2] the clock readings of [registerSession]. *)
Definition get_sse (sessionId : option string) (res : nat) (uuid : string)
    (now1 now2 : Z) (m : t) : t * Response :=
  match given sessionId with
  | Some sid =>
      if sessionExists sid (redis m) then
        match getOrCreateSSETransport sid (Some res) uuid m with
        | (m, Resolved (Some transport)) => (m, Connect transport)
        | (m, Resolved None) => (m, Json 500 (-32603) "Failed to restore SSE connection")
        | (m, Rejected) => (m, Throws)
        end
      else (m, Json 404 (-32000) "Session not found")
  | None =>
      let transport := fresh (dom (heap m)) in
      let object := new_SSEServerTransport "/messages" res uuid in
      let m := mkManager (redis m) (nodeId m) (localTransports m)
                 (<[transport := object]> (heap m)) in
      (registerSession uuid transport sse now1 now2 m, Connect transport)
  end.

(** [app.post("/messages", ...)]. *)
Definition post_messages (sessionId : option string) (now : Z) (m : t) : t * Response :=
  match given sessionId with
  | None => (m, Json 400 (-32000) "Missing sessionId parameter")
  | Some sid =>
      let m := updateSessionActivity sid now m in
      if sessionExists sid (redis m) then
        match getLocalTransport sid m with
        | Some transport =>
            if instanceof_SSE (heap m) (Some transport)
            then (m, HandlePostMessage transport)
            else (m, Json 410 (-32000)
                       "SSE connection lost. Client should reconnect to /sse endpoint.")
        | None => (m, Json 410 (-32000)
                        "SSE connection lost. Client should reconnect to /sse endpoint.")
        end
      else (m, Json 404 (-32000) "Session not found")
  end.

End Handlers.
End Server.

(** ** Request dispatch and forwarding of the server recording the owner node
    (dist/multiNodeServer.js) *)

Module DistServer.
Import Sdk DistSessionManager.

(** A header value: a string, or the array Node gives for a repeated header. *)
Inductive header_value := HString (s : string) | HArray (l : list string).

(** A request: [req_headers] lists [Object.entries(req.headers)],
    [req_body] is [None] when [req.body] is [undefined]. *)
Record Request (Body : Type) := mkRequest {
  req_method : string;
  req_url : string;
  req_path : string;
  req_headers : list (string * header_value);
  req_body : option Body
}.
Arguments mkRequest {Body}.
Arguments req_method {Body}.
Arguments req_url {Body}.
Arguments req_path {Body}.
Arguments req_headers {Body}.
Arguments req_body {Body}.

(** The call of [fetch] that [proxyRequest] makes. *)
Record Fetch := mkFetch {
  f_url : string;
  f_method : string;
  f_headers : list (string * string);
  f_body : option string
}.

Inductive Response :=
| Json (status : Z) (code : Z) (message : string)
| HandleRequest (transport : nat)
| HandleRequestNew
| HandlePostMessage (transport : nat)
(** [proxyRequest(req, res, targetNodeId, path)] *)
| Proxy (targetNodeId : option string) (path : string).

(** [c.toLowerCase()] on ASCII. *)
Definition lower_char (c : ascii) : ascii :=
  let n := nat_of_ascii c in
  if bool_decide (65 ≤ n ≤ 90)%nat then ascii_of_nat (n + 32) else c.

Fixpoint toLowerCase (s : string) : string :=
  match s with
  | EmptyString => EmptyString
  | String c r => String (lower_char c) (toLowerCase r)
  end.

Definition question : ascii := "?"%char.

(** [`${targetUrl}${path}${req.url.includes('?') ? '?' + req.url.split('?')[1] : ''}`] *)
Definition proxy_url (targetUrl path url : string) : string :=
  targetUrl +:+ path +:+
  (if JS.includes question url
   then "?" +:+ default "undefined" (JS.split question url !! 1%nat)
   else "").

(** The headers forwarded: all but [host], and only the string-valued ones. *)
Definition proxy_headers (headers : list (string * header_value)) : list (string * string) :=
  omap (λ kv, match kv.2 with
              | HString value =>
                  if bool_decide (toLowerCase kv.1 ≠ "host") then Some (kv.1, value) else None
              | HArray _ => None
              end) headers.

Section Proxy.
Context {Body : Type} `{!JSON Body}.

(** [proxyRequest] up to its call of [fetch]: the error answer when
    [NODE_REGISTRY] has no address for the node, the call it makes
    otherwise.  [targetUrl] is what [NODE_REGISTRY[targetNodeId]] reads,
    [None] for [undefined]; an [undefined] node identifier prints as
    [undefined].  [f_headers] lists the assignments [headers[key] = value]
    in order. *)
Definition proxyRequest (targetUrl : option string) (req : Request Body)
    (targetNodeId : option string) (path : string) : Response + Fetch :=
  match Server.given targetUrl with
  | None => inl (Json 500 (-32603)
                   ("No URL configured for node " +:+ default "undefined" targetNodeId))
  | Some targetUrl =>
      inr {| f_url := proxy_url targetUrl path (req_url req);
             f_method := req_method req;
             f_headers := proxy_headers (req_headers req);
             f_body :=
               if bool_decide (req_method req ≠ "GET") && bool_decide (req_method req ≠ "HEAD")
               then JSON_stringify <$> req_body req
               else None |}
  end.

End Proxy.

(** [app.all('/mcp', ...)]; [url] is [req.url]. *)
Definition all_mcp (sessionId : option string) (method url : string) (isInitialize : bool)
    (now : Z) (m : t) : t * Response :=
  match Server.given sessionId with
  | Some sid =>
      let m := DistManager.updateSessionActivity sid now m in
      if isSessionLocal sid m then
        match getLocalTransport sid m with
        | Some transport =>
            if Server.instanceof_Streamable (heap m) (Some transport)
            then (m, HandleRequest transport)
            else (m, Json 400 (-32000)
                       "Bad Request: Session exists but uses a different transport protocol")
        | None => (m, Json 400 (-32000)
                        "Bad Request: Session exists but uses a different transport protocol")
        end
      else
        match getSession sid (redis m) with
        | Some sessionMetadata => (m, Proxy (ownerNodeId sessionMetadata) url)
        | None => (m, Json 404 (-32000) "Session not found")
        end
  | None =>
      if bool_decide (method = "POST") && isInitialize
      then (m, HandleRequestNew)
      else (m, Json 400 (-32000)
                 "Bad Request: No valid session ID provided or invalid initialization request")
  end.

(** [app.post("/messages", ...)]; [path] is [req.path]. *)
Definition post_messages (sessionId : option string) (path : string) (now : Z) (m : t)
    : t * Response :=
  match Server.given sessionId with
  | None => (m, Json 400 (-32000) "Missing sessionId parameter")
  | Some sid =>
      let m := DistManager.updateSessionActivity sid now m in
      if isSessionLocal sid m then
        match getLocalTransport sid m with
        | Some transport =>
            if instanceof_SSE (heap m) (Some transport)
            then (m, HandlePostMessage transport)
            else (m, Json 400 (-32000)
                       "Session exists but uses a different transport protocol")
        | None => (m, Json 400 (-32000)
                        "Session exists but uses a different transport protocol")
        end
      else
        match getSession sid (redis m) with
        | Some sessionMetadata => (m, Proxy (ownerNodeId sessionMetadata) path)
        | None => (m, Json 404 (-32000) "Session not found")
        end
  end.

End DistServer.

(** ** Predicates used in the statements *)

Section Predicates.
Context {Message : Type} `{!JSON Message}.
Import RedisEventStore.

(** A record the loop cannot deliver: no hash under its key (never stored,
    pruned, or expired), or a payload that does not parse. *)
Definition undeliverable (eventId : string) (r : Redis.t) : Prop :=
  Redis.hashes r !! event_key eventId = None
  ∨ ∃ text, Redis.hGetAll (event_key eventId) r !! "message" = Some text
            ∧ JSON_parse (A := Message) text = None.

(** A record the loop delivers, with the message it sends for it: a payload
    that is not empty and parses to the message. *)
Definition deliverable (eventId : string) (message : Message) (r : Redis.t) : Prop :=
  ∃ text, Redis.hGetAll (event_key eventId) r !! "message" = Some text
          ∧ JS.truthy text = true
          ∧ JSON_parse text = Some message.

(** An identifier of the index together with what the store holds for it:
    the message to deliver, or nothing that can be delivered. *)
Definition found (r : Redis.t) (entry : string * option Message) : Prop :=
  match entry.2 with
  | Some message => deliverable entry.1 message r
  | None => undeliverable entry.1 r
  end.

(** The identifier [storeEvent] gives the event of an append. *)
Definition eventId_of (streamId : string) (a : append (Message := Message)) : string :=
  generateEventId streamId (a_now_id a) (a_rnd a).

(** The ordering index of a stream, empty when its key is missing. *)
Definition index_of (streamId : string) (r : Redis.t) : Redis.zset :=
  default [] (Redis.zsets r !! stream_key streamId).

(** The index entry and the delivery of an append. *)
Definition entry_of (streamId : string) (a : append (Message := Message)) : Z * string :=
  (a_now a, eventId_of streamId a).

Definition delivery_of (streamId : string) (a : append (Message := Message))
    : string * Message :=
  (eventId_of streamId a, a_message a).

End Predicates.

(** The store states the system produces: from the empty store, by the
    methods of the stateless registry on any node, by the event log, and by the
    store dropping a key whose time to live has run out. *)

Section Reachability.
Context {Message : Type} `{!JSON Message} `{!JSON SessionManager.SSEState}.
Import Sdk SessionManager.

Inductive step : Redis.t → Redis.t → Prop :=
| step_registerSession m sid transport ty now1 now2 :
    step (redis m) (redis (registerSession sid transport ty now1 now2 m))
| step_updateSessionActivity m sid now :
    step (redis m) (redis (updateSessionActivity sid now m))
| step_markSessionDisconnected r sid now :
    step r (markSessionDisconnected sid now r)
| step_getOrCreateSSETransport m sid res uuid :
    step (redis m) (redis (getOrCreateSSETransport sid res uuid m).1)
| step_removeSession m sid :
    step (redis m) (redis (removeSession sid m))
| step_fire_onclose m transport now :
    step (redis m) (redis (fire_onclose transport now m))
| step_storeEvent r streamId (message : Message) now_id rnd now :
    step r (RedisEventStore.storeEvent streamId message now_id rnd now r).2
| step_cleanupOldEvents r streamId olderThanMs now :
    step r (RedisEventStore.cleanupOldEvents streamId olderThanMs now r)
| step_expired r key :
    step r (Redis.del key r).

Definition reachable (r : Redis.t) : Prop := rtc step Redis.empty r.

(** A sorted set holds each member once. *)
Definition members_distinct (r : Redis.t) : Prop :=
  ∀ key l, Redis.zsets r !! key = Some l → NoDup l.*2.

(** Every record of the streaming kind carries a sub-state that decodes. *)
Definition sse_records_decode (r : Redis.t) : Prop :=
  ∀ sid data,
    Redis.hashes r !! session_key sid = Some data →
    data !! "transportType" = Some "sse" →
    ∃ blob st, data !! "sseState" = Some blob
               ∧ JS.truthy blob = true
               ∧ JSON_parse (A := SSEState) blob = Some st.

End Reachability.

(** The two things the close of a connection is said to do to the record of
    its session. *)

Section CloseOutcomes.
Context `{!JSON SessionManager.SSEState}.
Import SessionManager.

Definition marked_disconnected (sid : string) (r : Redis.t) : Prop :=
  ∃ md st, getSession sid r = Some md ∧ sseState md = Some st ∧ isConnected st = false.

Definition record_deleted (sid : string) (r : Redis.t) : Prop :=
  sessionExists sid r = false.

End CloseOutcomes.

(** Every index lists its entries by ascending score. *)

Definition by_score (a b : Z * string) : Prop := a.1 ≤ b.1.

Definition indexes_sorted (r : Redis.t) : Prop :=
  ∀ key l, Redis.zsets r !! key = Some l → StronglySorted by_score l.

(** A session that an operation of the registry leaves alone: its record,
    its presence in the store, and its local handle are as before. *)

Section Untouched.
Context `{!JSON SessionManager.SSEState}.
Import SessionManager.

Definition untouched (sid : string) (m m' : t) : Prop :=
  getSession sid (redis m') = getSession sid (redis m)
  ∧ sessionExists sid (redis m') = sessionExists sid (redis m)
  ∧ getLocalTransport sid m' = getLocalTransport sid m.

End Untouched.

Section StreamingRecord.
Context {Message : Type} `{!JSON Message} `{!JSON SessionManager.SSEState}.
Import SessionManager.

(** A store the system has produced in which [sid] has a record of the
    streaming kind. *)
Definition streaming_record (sid : string) (r : Redis.t) : Prop :=
  reachable (Message := Message) r
  ∧ ∃ md, getSession sid r = Some md ∧ transportType md = Some "sse".

End StreamingRecord.

(** ** Concrete runs

    The stores and managers on which the statements are run, with the codec
    of [Codec]: integer payloads, a stream [s1], a session [abc]. *)

Module Run.
Import Sdk Codec.

Definition a1 : RedisEventStore.append := RedisEventStore.mkAppend 1 100 "aa" 100.
Definition a2 : RedisEventStore.append := RedisEventStore.mkAppend 2 150 "bb" 150.
Definition a3 : RedisEventStore.append := RedisEventStore.mkAppend 3 200 "cc" 200.

(** Three appends, one clock tick apart or more. *)
Definition log1 : Redis.t :=
  (RedisEventStore.storeEvent "s1" 1 100 "aa" 100 Redis.empty).2.
Definition log2 : Redis.t :=
  (RedisEventStore.storeEvent "s1" 2 150 "bb" 150 log1).2.
Definition log3 : Redis.t :=
  (RedisEventStore.storeEvent "s1" 3 200 "cc" 200 log2).2.

(** The record of the second event is gone (its own time to live ran out),
    its index entry is still there. *)
Definition log3_evicted : Redis.t :=
  Redis.del (RedisEventStore.event_key "s1_150_bb") log3.

(** Two appends within one millisecond. *)
Definition b1 : RedisEventStore.append := RedisEventStore.mkAppend 1 100 "aa" 100.
Definition b2 : RedisEventStore.append := RedisEventStore.mkAppend 2 100 "bb" 100.

(** A node holding one transport object, not registered yet. *)
Definition node1 (cls : TransportClass) : SessionManager.t :=
  SessionManager.mkManager Redis.empty "node-1" ∅
    {[ 0%nat := mkTransport cls (Some "abc") None None None ]}.

Definition dist_node1 (cls : TransportClass) : DistSessionManager.t :=
  DistSessionManager.mkManager Redis.empty "node-1" ∅
    {[ 0%nat := mkTransport cls (Some "abc") None None None ]}.

(** Session [abc] of kind [sse] registered on node 1; node 2 shares the
    store and holds nothing. *)
Definition registered : SessionManager.t :=
  SessionManager.registerSession "abc" 0 sse 1000 1000 (node1 SSEServerTransport).

Definition node2 : SessionManager.t := SessionManager.other_node "node-2" registered.

Definition metadata_abc : SessionManager.SessionMetadata :=
  {| SessionManager.sessionId := Some "abc";
     SessionManager.transportType := Some "sse";
     SessionManager.createdAt := Some 1000;
     SessionManager.lastActive := Some 1000;
     SessionManager.sseState :=
       Some {| SessionManager.isConnected := true;
               SessionManager.lastEventId := None |} |}.

(** A record whose sub-state text is cut short. *)
Definition damaged : Redis.t :=
  Redis.hSet (SessionManager.session_key "abc")
    (<["sessionId" := "abc"]>
      (<["transportType" := "sse"]>
        (<["createdAt" := "1000"]>
          (<["lastActive" := "1000"]>
            {["sseState" := "{oops"]}))))
    Redis.empty.

End Run.

(** ** Further concrete runs: a closed connection, a shutdown, a forwarded
    request *)

Module Scenario.
Import Sdk Codec Run.

(** The connection of session [abc] on node 1 has closed. *)
Definition closed : SessionManager.t := SessionManager.fire_onclose 0 2000 registered.

(** Node 2 after the close: the record is there, not connected. *)
Definition node2_after_close : SessionManager.t :=
  SessionManager.other_node "node-2" closed.

Definition metadata_closed : SessionManager.SessionMetadata :=
  {| SessionManager.sessionId := Some "abc";
     SessionManager.transportType := Some "sse";
     SessionManager.createdAt := Some 1000;
     SessionManager.lastActive := Some 2000;
     SessionManager.sseState :=
       Some {| SessionManager.isConnected := false;
               SessionManager.lastEventId := None |} |}.

(** Every clock reading during the shutdown is 3000. *)
Definition clock (sid : string) : Z * Z := (3000, 3000).

(** Session [abc] registered on node 1 of the server recording the owner;
    node 2 shares the store and holds nothing. *)
Definition dist_registered : DistSessionManager.t :=
  DistSessionManager.registerSession "abc" 0 sse 1000 1000 (dist_node1 SSEServerTransport).

Definition dist_node2 : DistSessionManager.t :=
  DistManager.other_node "node-2" dist_registered.

Definition dist_metadata_abc : DistSessionManager.SessionMetadata :=
  {| DistSessionManager.sessionId := Some "abc";
     DistSessionManager.transportType := Some "sse";
     DistSessionManager.ownerNodeId := Some "node-1";
     DistSessionManager.createdAt := Some 1000;
     DistSessionManager.lastActive := Some 1000 |}.

(** A message posted for session [abc]. *)
Definition request_messages : DistServer.Request Z :=
  DistServer.mkRequest "POST" "/messages?sessionId=abc" "/messages"
    [("host", DistServer.HString "node-2:3000");
     ("content-type", DistServer.HString "application/json");
     ("x-forwarded-for", DistServer.HArray ["10.0.0.1"; "10.0.0.2"])]
    (Some 7).

Definition forwarded : DistServer.Fetch :=
  DistServer.mkFetch "http://mcp-server-1:3000/messages?sessionId=abc" "POST"
    [("content-type", "application/json")] (Some "7").

End Scenario.

Example split_ex1 : JS.split JS.underscore "s1_100_abc" = ["s1"; "100"; "abc"].
Proof. reflexivity. Qed.
Example split_ex2 : JS.split JS.underscore "" = [""].
Proof. reflexivity. Qed.
Example parseInt_ex1 : JS.parseInt "  -12ab" = Some (-12).
Proof. reflexivity. Qed.
Example parseInt_ex2 : JS.parseInt "0x1f" = Some 31.
Proof. reflexivity. Qed.
Example parseInt_ex3 : JS.parseInt "abc" = None.
Proof. reflexivity. Qed.
Example parseInt_ex4 : JS.parseInt (JS.toString (Some 1730000000000)) = Some 1730000000000.
Proof. vm_compute. reflexivity. Qed.

Lemma digit_val_pretty_N_char (d : N) :
  (d < 10)%N → JS.digit_val 10 (pretty_N_char d) = Some (Z.of_N d).
Proof.
  intros Hd.
  assert (d = 0 ∨ d = 1 ∨ d = 2 ∨ d = 3 ∨ d = 4 ∨ d = 5 ∨ d = 6 ∨ d = 7 ∨ d = 8 ∨ d = 9)%N
    as Hc by lia.
  destruct Hc as [->|[->|[->|[->|[->|[->|[->|[->|[->| ->]]]]]]]]]; reflexivity.
Qed.

Lemma scan_pretty_N_go (x : N) : ∀ (s : string) (acc : Z),
  ∃ k : Z, 0 ≤ k ∧ JS.scan 10 (pretty_N_go x s) acc = JS.scan 10 s (acc * 10 ^ k + Z.of_N x).
Proof.
  induction (N.lt_wf_0 x) as [x _ IH]; intros s acc.
  destruct (decide (x = 0%N)) as [->|Hx].
  { exists 0. rewrite pretty_N_go_0. split; [lia|]. f_equal. lia. }
  rewrite pretty_N_go_step by lia.
  destruct (IH (x `div` 10)%N) with (s := String (pretty_N_char (x `mod` 10)) s) (acc := acc)
    as (k & Hk & ->).
  { apply N.div_lt; lia. }
  exists (k + 1). split; [lia|].
  cbn [JS.scan]. rewrite digit_val_pretty_N_char by (apply N.mod_lt; lia). f_equal.
  rewrite Z.pow_add_r by lia.
  rewrite (N.div_mod x 10) at 3 by lia.
  rewrite N2Z.inj_add, N2Z.inj_mul. change (Z.of_N 10) with 10. lia.
Qed.

(** The decimal rendering of a positive number starts with a digit from 1 to 9. *)
Definition nonzero_digit (c : ascii) : bool :=
  bool_decide (49 ≤ nat_of_ascii c ≤ 57)%nat.

Lemma pretty_N_go_head (x : N) : ∀ s : string,
  (0 < x)%N → ∃ c r, pretty_N_go x s = String c r ∧ nonzero_digit c = true.
Proof.
  induction (N.lt_wf_0 x) as [x _ IH]; intros s Hx.
  rewrite pretty_N_go_step by lia.
  destruct (decide (x `div` 10 = 0)%N) as [Hq|Hq].
  - rewrite Hq, pretty_N_go_0. eexists _, _. split; [reflexivity|].
    assert (x < 10)%N as Hlt by (apply (N.div_small_iff x 10); [lia|exact Hq]).
    rewrite N.mod_small by lia.
    assert (x = 1 ∨ x = 2 ∨ x = 3 ∨ x = 4 ∨ x = 5 ∨ x = 6 ∨ x = 7 ∨ x = 8 ∨ x = 9)%N
      as Hc by lia.
    destruct Hc as [->|[->|[->|[->|[->|[->|[->|[->| ->]]]]]]]]; reflexivity.
  - apply IH; [apply N.div_lt; lia | by apply N.neq_0_lt_0].
Qed.

Lemma parseInt_nonzero_digit (c : ascii) (r : string) :
  nonzero_digit c = true →
  JS.parseInt (String c r) = Some (JS.scan 10 (String c r) 0).
Proof.
  intros Hc. apply bool_decide_eq_true in Hc.
  rewrite <- (ascii_nat_embedding c).
  remember (nat_of_ascii c) as n eqn:Hn. clear Hn.
  assert (n = 49 ∨ n = 50 ∨ n = 51 ∨ n = 52 ∨ n = 53 ∨ n = 54 ∨ n = 55 ∨ n = 56 ∨ n = 57)%nat
    as Hcase by lia.
  destruct Hcase as [->|[->|[->|[->|[->|[->|[->|[->| ->]]]]]]]]; reflexivity.
Qed.

Lemma parseInt_pretty_N (x : N) : JS.parseInt (pretty x) = Some (Z.of_N x).
Proof.
  unfold pretty, pretty_N. case_decide as Hx; [subst; reflexivity|].
  destruct (pretty_N_go_head x "" ltac:(lia)) as (c & r & Heq & Hc).
  destruct (scan_pretty_N_go x "" 0) as (k & _ & Hscan).
  rewrite Heq in *. rewrite parseInt_nonzero_digit, Hscan by done.
  cbn [JS.scan]. f_equal; lia.
Qed.

(** [parseInt(n.toString()) === n] for every integer [n]. *)
Lemma parseInt_toString (z : Z) : JS.parseInt (JS.toString (Some z)) = Some z.
Proof.
  unfold JS.toString, pretty, pretty_Z. destruct z as [|p|p].
  - reflexivity.
  - unfold pretty, pretty_positive. rewrite parseInt_pretty_N. f_equal.
  - unfold pretty at 1, pretty_positive.
    pose proof (parseInt_pretty_N (Npos p)) as HN. unfold pretty, pretty_N in *.
    case_decide as Hx; [done|].
    destruct (pretty_N_go_head (Npos p) "" ltac:(lia)) as (c & r & Heq & Hc).
    rewrite Heq in *. rewrite parseInt_nonzero_digit in HN by done.
    assert (HN' : JS.scan 10 (String c r) 0 = Z.pos p) by (injection HN as HN; exact HN).
    change ("-" +:+ String c r) with (String "-" (String c r)).
    assert (Hgo : JS.parseInt (String "-" (String c r)) = Some (- JS.scan 10 (String c r) 0)).
    { clear HN HN' Heq. apply bool_decide_eq_true in Hc.
      rewrite <- (ascii_nat_embedding c).
      remember (nat_of_ascii c) as n eqn:Hn. clear Hn.
      assert (n = 49 ∨ n = 50 ∨ n = 51 ∨ n = 52 ∨ n = 53 ∨ n = 54 ∨ n = 55 ∨ n = 56 ∨ n = 57)%nat
        as Hcase by lia.
      destruct Hcase as [->|[->|[->|[->|[->|[->|[->|[->| ->]]]]]]]]; reflexivity. }
    rewrite Hgo, HN'. reflexivity.
Qed.

(** ** Facts about the Redis commands *)

Section RedisFacts.
Implicit Types (r : Redis.t) (key : string).

Lemma hGetAll_hSet key key' fields r :
  Redis.hGetAll key' (Redis.hSet key fields r) =
  if decide (key = key') then fields ∪ Redis.hGetAll key r else Redis.hGetAll key' r.
Proof.
  unfold Redis.hGetAll at 1. cbn. case_decide as Hk.
  - subst. by rewrite lookup_insert_eq.
  - by rewrite lookup_insert_ne.
Qed.

Lemma hGetAll_hSet_eq key fields r :
  Redis.hGetAll key (Redis.hSet key fields r) = fields ∪ Redis.hGetAll key r.
Proof. rewrite hGetAll_hSet. by case_decide. Qed.

Lemma hGetAll_hSet_ne key key' fields r :
  key ≠ key' → Redis.hGetAll key' (Redis.hSet key fields r) = Redis.hGetAll key' r.
Proof. intros. rewrite hGetAll_hSet. by case_decide. Qed.

Lemma hashes_expire key seconds r : Redis.hashes (Redis.expire key seconds r) = Redis.hashes r.
Proof. unfold Redis.expire. by case_bool_decide. Qed.

Lemma zsets_expire key seconds r : Redis.zsets (Redis.expire key seconds r) = Redis.zsets r.
Proof. unfold Redis.expire. by case_bool_decide. Qed.

Lemma hGetAll_expire key key' seconds r :
  Redis.hGetAll key' (Redis.expire key seconds r) = Redis.hGetAll key' r.
Proof. unfold Redis.hGetAll. by rewrite hashes_expire. Qed.

Lemma exists_expire key key' seconds r :
  Redis.exists_ key' (Redis.expire key seconds r) = Redis.exists_ key' r.
Proof. unfold Redis.exists_. by rewrite hashes_expire, zsets_expire. Qed.

Lemma hGetAll_zAdd key key' score member r :
  Redis.hGetAll key' (Redis.zAdd key score member r) = Redis.hGetAll key' r.
Proof. reflexivity. Qed.

Lemma hGetAll_missing key r : Redis.hashes r !! key = None → Redis.hGetAll key r = ∅.
Proof. unfold Redis.hGetAll. by intros ->. Qed.

Lemma exists_hSet key fields r : Redis.exists_ key (Redis.hSet key fields r) = 1.
Proof.
  unfold Redis.exists_. cbn. rewrite lookup_insert_eq.
  rewrite bool_decide_eq_true_2; [done|]. left. by eexists.
Qed.

Lemma exists_del key r : Redis.exists_ key (Redis.del key r) = 0.
Proof.
  unfold Redis.exists_. cbn. rewrite !lookup_delete_eq.
  rewrite bool_decide_eq_false_2; [done|]. intros [[? [=]]|[? [=]]].
Qed.

Lemma del_del key r : Redis.del key (Redis.del key r) = Redis.del key r.
Proof. unfold Redis.del. cbn. f_equal; apply delete_delete_eq. Qed.

Lemma hashes_del key key' r :
  Redis.hashes (Redis.del key r) !! key' =
  if decide (key = key') then None else Redis.hashes r !! key'.
Proof. cbn. case_decide; [subst; apply lookup_delete_eq | by apply lookup_delete_ne]. Qed.

End RedisFacts.

Lemma toString_truthy (z : Z) : JS.truthy (JS.toString (Some z)) = true.
Proof.
  apply bool_decide_eq_true. intros Heq.
  pose proof (parseInt_toString z) as Hp. rewrite Heq in Hp. discriminate.
Qed.

Lemma parseInt_toString_prop (n : option Z) :
  JS.parseInt (JS.toString n) = n.
Proof. destruct n; [apply parseInt_toString | reflexivity]. Qed.

Lemma JSON_stringify_truthy `{JSONLaws A} (a : A) : JS.truthy (JSON_stringify a) = true.
Proof.
  apply bool_decide_eq_true. intros Heq.
  pose proof (JSON_parse_stringify a) as Hp. rewrite Heq, JSON_parse_empty in Hp. discriminate.
Qed.

(** ** The concrete codec obeys the laws *)

Lemma strip_prefix_app (p s : string) : Codec.strip_prefix p (p +:+ s) = Some s.
Proof.
  induction p as [|c p IH]; [done|].
  change (String c p +:+ s) with (String c (p +:+ s)).
  cbn [Codec.strip_prefix]. by rewrite decide_True.
Qed.

Lemma unescape_escape (s rest : string) :
  Codec.unescape (Codec.escape s +:+ String Codec.dquote rest) = Some (s, rest).
Proof.
  induction s as [|c s IH]; [reflexivity|].
  cbn [Codec.escape]. case_bool_decide as Hc.
  - change (Codec.unescape (String Codec.backslash
      (String c (Codec.escape s +:+ String Codec.dquote rest))) = Some (String c s, rest)).
    cbn [Codec.unescape]. rewrite IH.
    destruct Hc as [-> | ->]; reflexivity.
  - change (Codec.unescape (String c (Codec.escape s +:+ String Codec.dquote rest))
            = Some (String c s, rest)).
    cbn [Codec.unescape]. rewrite !decide_False by tauto. by rewrite IH.
Qed.

Lemma parse_bool_text (b : bool) (tail : string) :
  Codec.parse_bool (Codec.bool_text b +:+ tail) = Some (b, tail).
Proof.
  unfold Codec.parse_bool. destruct b; cbn [Codec.bool_text].
  - by rewrite strip_prefix_app.
  - change (Codec.strip_prefix "true" ("false" +:+ tail)) with (@None string).
    by rewrite strip_prefix_app.
Qed.

#[export] Instance json_sse_laws : @JSONLaws SessionManager.SSEState Codec.json_sse.
Proof.
  split; [|reflexivity].
  intros [b [id|]]; cbn [JSON_parse JSON_stringify Codec.json_sse];
    unfold Codec.stringify_sse, Codec.parse_sse;
    cbn [SessionManager.isConnected SessionManager.lastEventId];
    rewrite strip_prefix_app, parse_bool_text.
  - rewrite decide_False by (intros Heq; discriminate Heq).
    rewrite strip_prefix_app, unescape_escape. by rewrite decide_True.
  - by rewrite decide_True.
Qed.

#[export] Instance json_int_laws : @JSONLaws Z Codec.json_int.
Proof.
  split; [|reflexivity].
  intros z. cbn [JSON_parse JSON_stringify Codec.json_int]. unfold Codec.parse_int.
  rewrite parseInt_toString. by rewrite decide_True.
Qed.

(** ** Event identifiers *)

Lemma split_before_sep (sep : ascii) (s rest : string) :
  JS.includes sep s = false →
  JS.split sep (s +:+ String sep rest) = s :: JS.split sep rest.
Proof.
  induction s as [|c s IH]; intros Hs.
  - change (EmptyString +:+ String sep rest) with (String sep rest).
    cbn [JS.split]. by rewrite decide_True.
  - cbn [JS.includes] in Hs. apply orb_false_iff in Hs as [Hc Hs].
    apply bool_decide_eq_false in Hc.
    change (String c s +:+ String sep rest) with (String c (s +:+ String sep rest)).
    cbn [JS.split]. rewrite decide_False by done. by rewrite IH.
Qed.

Lemma split_nonempty (sep : ascii) (s : string) : JS.split sep s ≠ [].
Proof. destruct s as [|c s]; cbn [JS.split]; [done|]. case_decide; [done|]. by case_match. Qed.

(** The first part of an identifier only depends on what precedes the first
    separator. *)
Lemma split_head_app (sep : ascii) (s rest : string) :
  head (JS.split sep (s +:+ String sep rest)) = head (JS.split sep s).
Proof.
  induction s as [|c s IH].
  - change (EmptyString +:+ String sep rest) with (String sep rest).
    cbn [JS.split]. by rewrite decide_True.
  - change (String c s +:+ String sep rest) with (String c (s +:+ String sep rest)).
    cbn [JS.split]. case_decide; [done|].
    pose proof (split_nonempty sep s) as Hne1.
    pose proof (split_nonempty sep (s +:+ String sep rest)) as Hne2.
    destruct (JS.split sep s), (JS.split sep (s +:+ String sep rest)); try done.
    cbn in *. congruence.
Qed.

Lemma generateEventId_shape (streamId : string) (now : Z) (rnd : string) :
  RedisEventStore.generateEventId streamId now rnd =
  streamId +:+ String JS.underscore (JS.toString (Some now) +:+ "_" +:+ rnd).
Proof. reflexivity. Qed.

(** A stream identifier without the separator is read back from the event
    identifiers made for it. *)
Lemma getStreamId_generateEventId (streamId : string) (now : Z) (rnd : string) :
  JS.includes JS.underscore streamId = false →
  RedisEventStore.getStreamIdFromEventId (RedisEventStore.generateEventId streamId now rnd)
  = streamId.
Proof.
  intros Hs. unfold RedisEventStore.getStreamIdFromEventId.
  rewrite generateEventId_shape. by rewrite split_before_sep.
Qed.

Lemma generateEventId_truthy (streamId : string) (now : Z) (rnd : string) :
  JS.truthy (RedisEventStore.generateEventId streamId now rnd) = true.
Proof.
  apply bool_decide_eq_true. rewrite generateEventId_shape.
  destruct streamId; discriminate.
Qed.

(** C3, at a stream identifier that contains the separator: the identifier
    built by [generateEventId] for stream [a_b] is read back by
    [getStreamIdFromEventId] as stream [a], and the one built for the stream
    [_GET_stream] is read back as the empty string. *)
Theorem getStreamId_loses_separator :
  RedisEventStore.getStreamIdFromEventId
    (RedisEventStore.generateEventId "a_b" 1700000000000 "k3x9q2ab") = "a"
  ∧ RedisEventStore.getStreamIdFromEventId
      (RedisEventStore.generateEventId "_GET_stream" 1700000000000 "k3x9q2ab") = "".
Proof. split; vm_compute; reflexivity. Qed.

(** ** Replay: the soft failures and the delivery loop *)

Section Replay.
Context {Message : Type} `{!JSON Message}.
Import RedisEventStore.

Lemma replay_loop_app (ids1 ids2 : list string) (r : Redis.t) :
  replay_loop (Message := Message) (ids1 ++ ids2) r
  = replay_loop ids1 r ++ replay_loop ids2 r.
Proof.
  induction ids1 as [|e ids1 IH]; [done|].
  cbn [app replay_loop]. rewrite IH.
  repeat case_match; reflexivity.
Qed.

Lemma replay_loop_undeliverable (eventId : string) (r : Redis.t) :
  undeliverable eventId r → replay_loop (Message := Message) [eventId] r = [].
Proof.
  intros [Hnone | (text & Htext & Hparse)]; cbn [replay_loop].
  - by rewrite hGetAll_missing, lookup_empty.
  - rewrite Htext, Hparse. by case_match.
Qed.

Lemma replayEventsAfter_missing_record (lastEventId : string) (r : Redis.t) :
  Redis.hashes r !! event_key lastEventId = None →
  replayEventsAfter (Message := Message) lastEventId r = (Returned "", []).
Proof.
  intros Hnone. unfold replayEventsAfter.
  destruct (JS.truthy lastEventId); [|done]. cbn [negb].
  destruct (JS.truthy (getStreamIdFromEventId lastEventId)); [|done]. cbn [negb].
  by rewrite hGetAll_missing, lookup_empty.
Qed.

(** C5: an empty [lastEventId], one from which no stream identifier can be
    read, and one that has no record in the store all make
    [replayEventsAfter] return the empty string, with no call of [send] and
    no exception. *)
Theorem replayEventsAfter_fails_soft (lastEventId : string) (r : Redis.t) :
  lastEventId = ""
  ∨ getStreamIdFromEventId lastEventId = ""
  ∨ Redis.hashes r !! event_key lastEventId = None →
  replayEventsAfter (Message := Message) lastEventId r = (Returned "", []).
Proof.
  intros Hcase. unfold replayEventsAfter.
  destruct (JS.truthy lastEventId) eqn:Hid; [|done]. cbn [negb].
  destruct (JS.truthy (getStreamIdFromEventId lastEventId)) eqn:Hsid; [|done]. cbn [negb].
  destruct Hcase as [-> | [Hs | Hnone]].
  - done.
  - rewrite Hs in Hsid. done.
  - pose proof (replayEventsAfter_missing_record lastEventId r Hnone) as Hsoft.
    unfold replayEventsAfter in Hsoft. by rewrite Hid, Hsid in Hsoft.
Qed.

Lemma replay_loop_found (entries : list (string * option Message)) (r : Redis.t) :
  Forall (found r) entries →
  replay_loop (Message := Message) entries.*1 r
  = omap (λ entry, pair entry.1 <$> entry.2) entries.
Proof.
  induction 1 as [|[eventId [message|]] entries Hfound _ IH]; [done| |].
  - destruct Hfound as (text & Htext & Htruthy & Hparse). cbn in Htext, Hparse.
    cbn [fmap list_fmap fst replay_loop omap list_omap snd option_fmap option_map].
    by rewrite Htext, Htruthy, Hparse, IH.
  - change ((eventId, None) :: entries).*1 with ([eventId] ++ entries.*1).
    rewrite replay_loop_app, replay_loop_undeliverable by exact Hfound.
    cbn [app omap list_omap snd fmap option_fmap option_map]. exact IH.
Qed.

(** C10: the delivery loop goes through the identifiers the index gives,
    in order.  For an identifier whose record is missing, or whose payload
    does not parse, it makes no call of [send] and raises no exception; for
    every other identifier, before or after such a one, it sends the
    identifier with its decoded payload.  [replayEventsAfter] returns the
    stream identifier, having made exactly these calls. *)
Theorem replayEventsAfter_skips_undeliverable
    (lastEventId : string) (r : Redis.t) (lastTimestamp : Z)
    (entries : list (string * option Message)) :
  JS.truthy lastEventId = true →
  JS.truthy (getStreamIdFromEventId lastEventId) = true →
  JS.truthy_prop (Redis.hGetAll (event_key lastEventId) r !! "timestamp") = true →
  JS.parseInt_prop (Redis.hGetAll (event_key lastEventId) r !! "timestamp")
    = Some lastTimestamp →
  Redis.zRangeByScore (stream_key (getStreamIdFromEventId lastEventId))
    (Redis.Score (lastTimestamp + 1)) Redis.PosInf r = entries.*1 →
  Forall (found r) entries →
  replayEventsAfter (Message := Message) lastEventId r
  = (Returned (getStreamIdFromEventId lastEventId),
     omap (λ entry, pair entry.1 <$> entry.2) entries).
Proof.
  intros Hid Hsid Hts Hparse Hrange Hfound.
  unfold replayEventsAfter. rewrite Hid, Hsid, Hts. cbn [negb].
  rewrite Hparse, Hrange. by rewrite replay_loop_found.
Qed.

End Replay.

(** ** The session registry *)

Section Registry.
Context `{!JSON SessionManager.SSEState}.
Import Sdk SessionManager.

Lemma session_key_inj (sid sid' : string) : session_key sid = session_key sid' → sid = sid'.
Proof. unfold session_key. apply (inj (String.append "session:")). Qed.

Lemma session_key_not_event (sid eventId : string) :
  RedisEventStore.event_key eventId ≠ session_key sid.
Proof. discriminate. Qed.

Lemma set_prop_lookup (field field' : string) (value : option string)
    (obj : gmap string string) :
  set_prop field value obj !! field' =
  if decide (field = field') then
    match value with Some v => Some v | None => obj !! field' end
  else obj !! field'.
Proof.
  unfold set_prop. destruct value; case_decide; subst;
    rewrite ?lookup_insert_eq, ?lookup_insert_ne by done; done.
Qed.

Lemma serializeMetadata_sessionId md :
  serializeMetadata md !! "sessionId" = sessionId md.
Proof.
  unfold serializeMetadata. destruct md as [[s|] [ty|] c l [st|]]; cbn; by simplify_map_eq.
Qed.

Lemma serializeMetadata_transportType md :
  serializeMetadata md !! "transportType" = transportType md.
Proof.
  unfold serializeMetadata. destruct md as [[s|] [ty|] c l [st|]]; cbn; by simplify_map_eq.
Qed.

Lemma serializeMetadata_createdAt md :
  serializeMetadata md !! "createdAt" = Some (JS.toString (createdAt md)).
Proof.
  unfold serializeMetadata. destruct md as [[s|] [ty|] c l [st|]]; cbn; by simplify_map_eq.
Qed.

Lemma serializeMetadata_lastActive md :
  serializeMetadata md !! "lastActive" = Some (JS.toString (lastActive md)).
Proof.
  unfold serializeMetadata. destruct md as [[s|] [ty|] c l [st|]]; cbn; by simplify_map_eq.
Qed.

Lemma serializeMetadata_sseState md :
  serializeMetadata md !! "sseState" = JSON_stringify <$> sseState md.
Proof.
  unfold serializeMetadata. destruct md as [[s|] [ty|] c l [st|]]; cbn; by simplify_map_eq.
Qed.

Lemma sessionExists_hSet sid fields r :
  sessionExists sid (Redis.hSet (session_key sid) fields r) = true.
Proof. unfold sessionExists. by rewrite exists_hSet. Qed.

(** C9: [removeSession] twice leaves the manager as [removeSession] once
    does, and after one call as after two the record is gone from the store
    and the handle from the local cache. *)
Theorem removeSession_idempotent (sid : string) (m : t) :
  removeSession sid (removeSession sid m) = removeSession sid m
  ∧ sessionExists sid (redis (removeSession sid m)) = false
  ∧ sessionExists sid (redis (removeSession sid (removeSession sid m))) = false
  ∧ getLocalTransport sid (removeSession sid m) = None
  ∧ getLocalTransport sid (removeSession sid (removeSession sid m)) = None.
Proof.
  assert (Hidem : removeSession sid (removeSession sid m) = removeSession sid m).
  { unfold removeSession. cbn. by rewrite del_del, delete_delete_eq. }
  rewrite Hidem. split; [done|].
  assert (Hgone : sessionExists sid (redis (removeSession sid m)) = false).
  { unfold sessionExists, removeSession. cbn [redis]. by rewrite exists_del. }
  assert (Hlocal : getLocalTransport sid (removeSession sid m) = None).
  { unfold getLocalTransport, removeSession. cbn [localTransports]. apply lookup_delete_eq. }
  done.
Qed.

(** C8: a record whose [sseState] field does not decode is read by
    [getSession] as the metadata of its other fields, with the sub-state
    absent; [deserializeMetadata] itself gives that value for every hash
    with such a field. *)
Theorem malformed_sseState_reads_absent (sid : string) (r : Redis.t) (blob : string) :
  JS.truthy_prop (Redis.hGetAll (session_key sid) r !! "sessionId") = true →
  Redis.hGetAll (session_key sid) r !! "sseState" = Some blob →
  JSON_parse (A := SSEState) blob = None →
  getSession sid r = Some (deserializeMetadata (Redis.hGetAll (session_key sid) r))
  ∧ deserializeMetadata (Redis.hGetAll (session_key sid) r)
    = {| sessionId := Redis.hGetAll (session_key sid) r !! "sessionId";
         transportType := Redis.hGetAll (session_key sid) r !! "transportType";
         createdAt := JS.parseInt_prop (Redis.hGetAll (session_key sid) r !! "createdAt");
         lastActive := JS.parseInt_prop (Redis.hGetAll (session_key sid) r !! "lastActive");
         sseState := None |}.
Proof.
  intros Hsid Hblob Hparse. split.
  - unfold getSession. by rewrite Hsid.
  - unfold deserializeMetadata. rewrite Hblob, Hparse. by case_match.
Qed.

Lemma getOrCreateSSETransport_manager (sid : string) (res : option nat) (uuid : string)
    (m : t) :
  (getOrCreateSSETransport sid res uuid m).1 = m.
Proof. unfold getOrCreateSSETransport. by repeat case_match. Qed.

(** C2: on a node with no local handle for [sid], when the record of [sid]
    exists and is of the streaming kind, [getOrCreateSSETransport] with a
    response object returns no handle: it ends in the [TypeError] of the
    assignment to [sessionId], before anything is cached or written, so the
    manager is left as it was and [getLocalTransport] still returns [null]
    for [sid]. *)
Theorem getOrCreateSSETransport_restore_throws
    (sid : string) (res : nat) (uuid : string) (m : t) (md : SessionMetadata) :
  getSession sid (redis m) = Some md →
  transportType md = Some "sse" →
  getLocalTransport sid m = None →
  getOrCreateSSETransport sid (Some res) uuid m = (m, Rejected)
  ∧ (∀ transport, (getOrCreateSSETransport sid (Some res) uuid m).2
                  ≠ Resolved (Some transport))
  ∧ getLocalTransport sid (getOrCreateSSETransport sid (Some res) uuid m).1 = None.
Proof.
  intros Hmd Hty Hlocal.
  assert (Hcall : getOrCreateSSETransport sid (Some res) uuid m = (m, Rejected)).
  { unfold getLocalTransport in Hlocal.
    unfold getOrCreateSSETransport. rewrite Hmd, Hty, Hlocal.
    by rewrite bool_decide_eq_true_2 by done. }
  rewrite Hcall. cbn [fst snd]. split; [done|]. split; [|done].
  intros transport. discriminate.
Qed.

End Registry.

(** ** Records of the streaming kind keep a sub-state that decodes *)

Section RecordsDecode.
Context {Message : Type} `{!JSON Message}.
Context `{!JSON SessionManager.SSEState} `{!JSONLaws SessionManager.SSEState}.
Import Sdk SessionManager.

Lemma deserialize_over_serialize (md : SessionMetadata) (old : gmap string string) :
  is_Some (sessionId md) → is_Some (transportType md) →
  deserializeMetadata (serializeMetadata md ∪ old)
  = {| sessionId := sessionId md;
       transportType := transportType md;
       createdAt := createdAt md;
       lastActive := lastActive md;
       sseState := match sseState md with
                   | Some st => Some st
                   | None => sseState (deserializeMetadata old)
                   end |}.
Proof.
  intros [s Hs] [ty Hty]. unfold deserializeMetadata.
  rewrite (lookup_union_Some_l _ old "sessionId" s)
    by (by rewrite serializeMetadata_sessionId).
  rewrite (lookup_union_Some_l _ old "transportType" ty)
    by (by rewrite serializeMetadata_transportType).
  rewrite (lookup_union_Some_l _ old "createdAt" _ (serializeMetadata_createdAt md)).
  rewrite (lookup_union_Some_l _ old "lastActive" _ (serializeMetadata_lastActive md)).
  cbn [JS.parseInt_prop]. rewrite !parseInt_toString_prop, Hs, Hty.
  f_equal. destruct (sseState md) as [st|] eqn:Hst.
  - rewrite (lookup_union_Some_l _ old "sseState" (JSON_stringify st))
      by (by rewrite serializeMetadata_sseState, Hst).
    by rewrite JSON_stringify_truthy, JSON_parse_stringify.
  - rewrite lookup_union_r by (by rewrite serializeMetadata_sseState, Hst).
    done.
Qed.

Lemma getSession_Some (sid : string) (r : Redis.t) (md : SessionMetadata) :
  getSession sid r = Some md →
  ∃ data s, Redis.hashes r !! session_key sid = Some data
            ∧ data !! "sessionId" = Some s ∧ JS.truthy s = true
            ∧ md = deserializeMetadata data.
Proof.
  unfold getSession, Redis.hGetAll. intros Hget.
  destruct (Redis.hashes r !! session_key sid) as [data|] eqn:Hdata; cbn in Hget.
  - destruct (data !! "sessionId") as [s|] eqn:Hs; cbn in Hget; [|done].
    destruct (JS.truthy s) eqn:Ht; cbn in Hget; [|done].
    exists data, s. by simplify_eq.
  - by rewrite lookup_empty in Hget.
Qed.

Lemma decode_shrinks (r r' : Redis.t) :
  (∀ sid, Redis.hashes r' !! session_key sid = Redis.hashes r !! session_key sid
          ∨ Redis.hashes r' !! session_key sid = None) →
  sse_records_decode r → sse_records_decode r'.
Proof.
  intros Hsub Hinv sid data Hdata Hty.
  destruct (Hsub sid) as [Heq | Hnone]; [|congruence].
  rewrite Heq in Hdata. by eapply Hinv.
Qed.

Lemma decode_hashes (r r' : Redis.t) :
  Redis.hashes r' = Redis.hashes r → sse_records_decode r → sse_records_decode r'.
Proof. intros Heq. apply decode_shrinks. intros sid. left. by rewrite Heq. Qed.

Lemma decode_hSet (r : Redis.t) (sid : string) (fields : gmap string string) :
  sse_records_decode r →
  ((fields ∪ Redis.hGetAll (session_key sid) r) !! "transportType" = Some "sse" →
   ∃ blob st, (fields ∪ Redis.hGetAll (session_key sid) r) !! "sseState" = Some blob
              ∧ JS.truthy blob = true ∧ JSON_parse (A := SSEState) blob = Some st) →
  sse_records_decode (Redis.hSet (session_key sid) fields r).
Proof.
  intros Hinv Hnew sid' data Hdata Hty. cbn in Hdata.
  destruct (decide (sid = sid')) as [<-|Hne].
  - rewrite lookup_insert_eq in Hdata. simplify_eq. by apply Hnew.
  - rewrite lookup_insert_ne in Hdata by (intros Heq; by apply session_key_inj in Heq).
    by eapply Hinv.
Qed.

Lemma decode_hSet_serialize (r : Redis.t) (sid : string) (md : SessionMetadata) :
  sse_records_decode r →
  is_Some (transportType md) →
  (transportType md = Some "sse" →
   is_Some (sseState md)
   ∨ Redis.hGetAll (session_key sid) r !! "transportType" = Some "sse") →
  sse_records_decode (Redis.hSet (session_key sid) (serializeMetadata md) r).
Proof.
  intros Hinv [ty Hty] Hsse. apply decode_hSet; [done|].
  rewrite (lookup_union_Some_l _ _ "transportType" ty)
    by (by rewrite serializeMetadata_transportType).
  intros [= ->]. destruct (Hsse Hty) as [[st Hst] | Hold].
  - exists (JSON_stringify st), st.
    rewrite (lookup_union_Some_l _ _ "sseState" (JSON_stringify st))
      by (by rewrite serializeMetadata_sseState, Hst).
    by rewrite JSON_stringify_truthy, JSON_parse_stringify.
  - destruct (sseState md) as [st|] eqn:Hst.
    + exists (JSON_stringify st), st.
      rewrite (lookup_union_Some_l _ _ "sseState" (JSON_stringify st))
        by (by rewrite serializeMetadata_sseState, Hst).
      by rewrite JSON_stringify_truthy, JSON_parse_stringify.
    + rewrite lookup_union_r by (by rewrite serializeMetadata_sseState, Hst).
      unfold Redis.hGetAll in *.
      destruct (Redis.hashes r !! session_key sid) as [data|] eqn:Hdata; cbn in *.
      * by eapply Hinv.
      * by rewrite lookup_empty in Hold.
Qed.

Lemma decode_markSessionDisconnected (sid : string) (now : Z) (r : Redis.t) :
  sse_records_decode r → sse_records_decode (markSessionDisconnected sid now r).
Proof.
  intros Hinv. unfold markSessionDisconnected.
  destruct (getSession sid r) as [md|]; [|done].
  destruct (sseState md) as [st|]; [|done].
  case_bool_decide as Hty; [|done].
  apply decode_hSet_serialize; cbn; eauto.
Qed.

Lemma hashes_foldl_del (ids : list string) (r : Redis.t) (key : string) :
  Redis.hashes (foldl (λ r eventId, Redis.del (RedisEventStore.event_key eventId) r) r ids)
    !! key
  = if bool_decide (key ∈ RedisEventStore.event_key <$> ids) then None
    else Redis.hashes r !! key.
Proof.
  revert r. induction ids as [|e ids IH]; intros r; [done|].
  cbn [foldl]. rewrite IH, hashes_del, fmap_cons.
  destruct (decide (RedisEventStore.event_key e = key)) as [<-|Hne].
  - rewrite (bool_decide_eq_true_2 (_ ∈ _ :: _)) by apply list_elem_of_here.
    by case_bool_decide.
  - apply (f_equal (λ b : bool, if b then None else Redis.hashes r !! key)).
    apply bool_decide_ext. rewrite elem_of_cons.
    split; [by right | intros [Heq | Hin]; [congruence | done]].
Qed.

Lemma hashes_zRemRangeByScore (key : string) (lo hi : Redis.bound) (r : Redis.t) :
  Redis.hashes (Redis.zRemRangeByScore key lo hi r) = Redis.hashes r.
Proof. unfold Redis.zRemRangeByScore. by repeat case_match. Qed.

Lemma step_decode (r r' : Redis.t) :
  step (Message := Message) r r' → sse_records_decode r → sse_records_decode r'.
Proof.
  intros Hstep Hinv. destruct Hstep as
    [m sid tr ty now1 now2 | m sid now | r sid now | m sid res uuid | m sid
    | m tr now | r streamId message now_id rnd now | r streamId olderThanMs now | r key].
  - cbn [registerSession redis]. eapply decode_hashes; [apply hashes_expire|].
    apply decode_hSet_serialize; cbn; [done|eauto|].
    destruct ty; [discriminate | eauto].
  - unfold updateSessionActivity. case_bool_decide; [|done]. cbn [redis].
    eapply decode_hashes; [apply hashes_expire|].
    apply decode_hSet; [done|].
    rewrite !lookup_union_r by (by apply lookup_singleton_ne).
    unfold Redis.hGetAll.
    destruct (Redis.hashes (redis m) !! session_key sid) as [data|] eqn:Hdata; cbn.
    + by eapply Hinv.
    + by rewrite lookup_empty.
  - by apply decode_markSessionDisconnected.
  - by rewrite getOrCreateSSETransport_manager.
  - cbn [removeSession redis]. eapply decode_shrinks; [|done].
    intros sid'. rewrite hashes_del. case_decide; eauto.
  - unfold fire_onclose. destruct (heap m !! tr ≫= t_onclose) as [sid|]; [|done].
    cbn [onclose_handler redis]. by apply decode_markSessionDisconnected.
  - cbn [RedisEventStore.storeEvent snd].
    eapply decode_shrinks; [|done]. intros sid. left.
    rewrite !hashes_expire. cbn.
    rewrite lookup_insert_ne; [done|]. apply session_key_not_event.
  - unfold RedisEventStore.cleanupOldEvents.
    eapply decode_shrinks; [|done]. intros sid.
    rewrite hashes_zRemRangeByScore, hashes_foldl_del. case_bool_decide; eauto.
  - eapply decode_shrinks; [|done].
    intros sid'. rewrite hashes_del. case_decide; eauto.
Qed.

Lemma reachable_decode (r : Redis.t) :
  reachable (Message := Message) r → sse_records_decode r.
Proof.
  unfold reachable. revert r. apply rtc_ind_r.
  - intros sid data Hdata. cbn in Hdata. by rewrite lookup_empty in Hdata.
  - intros r r' _ Hstep Hinv. by eapply step_decode.
Qed.

(** What [markSessionDisconnected] does to a record of the streaming kind
    that has its sub-state. *)
Lemma markSessionDisconnected_on_sse
    (sid : string) (now : Z) (r : Redis.t) (md : SessionMetadata) (st : SSEState) :
  getSession sid r = Some md →
  transportType md = Some "sse" →
  sseState md = Some st →
  markSessionDisconnected sid now r
  = Redis.hSet (session_key sid)
      (serializeMetadata
         {| sessionId := sessionId md;
            transportType := transportType md;
            createdAt := createdAt md;
            lastActive := Some now;
            sseState := Some {| isConnected := false; lastEventId := lastEventId st |} |}) r
  ∧ getSession sid (markSessionDisconnected sid now r)
    = Some {| sessionId := sessionId md;
              transportType := Some "sse";
              createdAt := createdAt md;
              lastActive := Some now;
              sseState := Some {| isConnected := false;
                                  lastEventId := lastEventId st |} |}
  ∧ sessionExists sid (markSessionDisconnected sid now r) = true
  ∧ isSSEConnected sid (markSessionDisconnected sid now r) = false.
Proof.
  intros Hmd Hty Hst.
  destruct (getSession_Some sid r md Hmd) as (data & s & Hdata & Hs & Hts & Heq).
  assert (Hsid : sessionId md = Some s) by (by subst md).
  assert (Hmark : markSessionDisconnected sid now r
    = Redis.hSet (session_key sid)
        (serializeMetadata
           {| sessionId := sessionId md;
              transportType := transportType md;
              createdAt := createdAt md;
              lastActive := Some now;
              sseState := Some {| isConnected := false;
                                  lastEventId := lastEventId st |} |}) r).
  { unfold markSessionDisconnected. rewrite Hmd, Hst.
    by rewrite bool_decide_eq_true_2 by done. }
  rewrite Hmark. split; [done|].
  assert (Hget : getSession sid (Redis.hSet (session_key sid)
        (serializeMetadata
           {| sessionId := sessionId md;
              transportType := transportType md;
              createdAt := createdAt md;
              lastActive := Some now;
              sseState := Some {| isConnected := false;
                                  lastEventId := lastEventId st |} |}) r)
      = Some {| sessionId := sessionId md;
                transportType := Some "sse";
                createdAt := createdAt md;
                lastActive := Some now;
                sseState := Some {| isConnected := false;
                                    lastEventId := lastEventId st |} |}).
  { unfold getSession at 1. rewrite hGetAll_hSet_eq.
    rewrite (lookup_union_Some_l _ _ "sessionId" s)
      by (by rewrite serializeMetadata_sessionId).
    cbn [JS.truthy_prop]. rewrite Hts. cbn [negb].
    rewrite deserialize_over_serialize by (cbn; rewrite ?Hsid, ?Hty; eauto).
    cbn. by rewrite Hty. }
  split; [done|]. split; [apply sessionExists_hSet|].
  unfold isSSEConnected. rewrite Hget. cbn. by rewrite andb_false_r.
Qed.

(** C7: for a record of the streaming kind that exists and whose sub-state
    is there and decodes, [markSessionDisconnected] writes the sub-state
    back with the connected flag false and [lastActive] set to the clock
    reading, the other fields as they were; the record is still there:
    [sessionExists] answers true, and [isSSEConnected] answers false.  For a
    record of the streaming kind whose sub-state is absent or does not
    decode, the method changes nothing.  In a store the system has
    produced, every record of the streaming kind has a sub-state that
    decodes. *)
Theorem markSessionDisconnected_keeps_record
    (sid : string) (now : Z) (r : Redis.t) (md : SessionMetadata) :
  getSession sid r = Some md →
  transportType md = Some "sse" →
  (∀ st, sseState md = Some st →
     getSession sid (markSessionDisconnected sid now r)
     = Some {| sessionId := sessionId md;
               transportType := Some "sse";
               createdAt := createdAt md;
               lastActive := Some now;
               sseState := Some {| isConnected := false;
                                   lastEventId := lastEventId st |} |}
     ∧ sessionExists sid (markSessionDisconnected sid now r) = true
     ∧ isSSEConnected sid (markSessionDisconnected sid now r) = false)
  ∧ (sseState md = None → markSessionDisconnected sid now r = r)
  ∧ (reachable (Message := Message) r → is_Some (sseState md)).
Proof.
  intros Hmd Hty. split; [|split].
  - intros st Hst.
    by destruct (markSessionDisconnected_on_sse sid now r md st Hmd Hty Hst)
      as (_ & ? & ? & ?).
  - intros Hst. unfold markSessionDisconnected. by rewrite Hmd, Hst.
  - intros Hreach.
    pose proof (reachable_decode r Hreach) as Hinv.
    destruct (getSession_Some sid r md Hmd) as (data & s & Hdata & Hs & Hts & Heq).
    assert (Hty' : data !! "transportType" = Some "sse") by (by subst md).
    destruct (Hinv sid data Hdata Hty') as (blob & st & Hblob & Htb & Hparse).
    exists st. subst md. unfold deserializeMetadata. cbn. by rewrite Hblob, Htb.
Qed.

End RecordsDecode.

(** ** What the close of a connection does to the record *)

Section Close.
Context `{!JSON SessionManager.SSEState} `{!JSONLaws SessionManager.SSEState}.
Import Sdk.

Lemma getSession_registerSession (sid : string) (tr : nat) (ty : TransportType)
    (now1 now2 : Z) (m : SessionManager.t) :
  JS.truthy sid = true →
  ∃ md, SessionManager.getSession sid
          (SessionManager.redis (SessionManager.registerSession sid tr ty now1 now2 m))
        = Some md
    ∧ SessionManager.sessionId md = Some sid
    ∧ SessionManager.transportType md = Some (TransportType_str ty)
    ∧ SessionManager.createdAt md = Some now1
    ∧ SessionManager.lastActive md = Some now2
    ∧ (ty = sse → SessionManager.sseState md
                  = Some {| SessionManager.isConnected := true;
                            SessionManager.lastEventId := None |}).
Proof.
  intros Hsid. eexists. split.
  - cbn [SessionManager.registerSession SessionManager.redis].
    unfold SessionManager.getSession.
    rewrite hGetAll_expire, hGetAll_hSet_eq.
    rewrite (lookup_union_Some_l _ _ "sessionId" sid)
      by (by rewrite serializeMetadata_sessionId).
    cbn [JS.truthy_prop]. rewrite Hsid. cbn [negb].
    rewrite deserialize_over_serialize by (cbn; eauto). reflexivity.
  - cbn. repeat split; try done. by intros ->.
Qed.

Lemma fire_onclose_registerSession (sid : string) (tr : nat) (ty : TransportType)
    (now1 now2 now : Z) (m : SessionManager.t) (object : Transport) :
  SessionManager.heap m !! tr = Some object →
  SessionManager.fire_onclose tr now (SessionManager.registerSession sid tr ty now1 now2 m)
  = SessionManager.onclose_handler sid now
      (SessionManager.registerSession sid tr ty now1 now2 m).
Proof.
  intros Hobj. unfold SessionManager.fire_onclose.
  cbn [SessionManager.registerSession SessionManager.heap].
  by rewrite lookup_alter_eq, Hobj.
Qed.

(** C6, as the code has it.  After [registerSession], when the [onclose]
    handler of the registered transport runs:
    in the stateless variant a session of kind [sse] has its record kept and
    its sub-state marked not connected, and a session of kind [streamable]
    has its record left exactly as registration wrote it; in the variant
    that records the owner node the record is deleted for both kinds.  In
    every case the local handle is dropped. *)
Theorem onclose_after_registerSession
    (sid : string) (now1 now2 now : Z)
    (m : SessionManager.t) (tr : nat) (object : Transport)
    (d : DistSessionManager.t) (tr' : nat) (object' : Transport) :
  JS.truthy sid = true →
  SessionManager.heap m !! tr = Some object →
  DistSessionManager.heap d !! tr' = Some object' →
  (let m2 := SessionManager.fire_onclose tr now
               (SessionManager.registerSession sid tr sse now1 now2 m) in
   SessionManager.getSession sid (SessionManager.redis m2)
   = Some {| SessionManager.sessionId := Some sid;
             SessionManager.transportType := Some "sse";
             SessionManager.createdAt := Some now1;
             SessionManager.lastActive := Some now;
             SessionManager.sseState :=
               Some {| SessionManager.isConnected := false;
                       SessionManager.lastEventId := None |} |}
   ∧ marked_disconnected sid (SessionManager.redis m2)
   ∧ SessionManager.sessionExists sid (SessionManager.redis m2) = true
   ∧ SessionManager.getLocalTransport sid m2 = None)
  ∧ (let m1 := SessionManager.registerSession sid tr streamable now1 now2 m in
     let m2 := SessionManager.fire_onclose tr now m1 in
     SessionManager.redis m2 = SessionManager.redis m1
     ∧ SessionManager.sessionExists sid (SessionManager.redis m2) = true
     ∧ SessionManager.getLocalTransport sid m2 = None)
  ∧ (∀ ty,
     let d2 := DistSessionManager.fire_onclose tr'
                 (DistSessionManager.registerSession sid tr' ty now1 now2 d) in
     Redis.exists_ (DistSessionManager.session_key sid) (DistSessionManager.redis d2) = 0
     ∧ DistSessionManager.getSession sid (DistSessionManager.redis d2) = None
     ∧ DistSessionManager.getLocalTransport sid d2 = None).
Proof.
  intros Hsid Hobj Hobj'. split; [|split].
  - cbn zeta. rewrite (fire_onclose_registerSession _ _ _ _ _ _ _ _ Hobj).
    destruct (getSession_registerSession sid tr sse now1 now2 m Hsid)
      as (md & Hmd & Hid & Hty & Hc & Hl & Hst).
    specialize (Hst eq_refl).
    destruct (markSessionDisconnected_on_sse sid now _ md _ Hmd Hty Hst)
      as (_ & Hget & Hex & _).
    unfold SessionManager.onclose_handler.
    cbn [SessionManager.redis SessionManager.localTransports SessionManager.getLocalTransport].
    rewrite Hget, Hid, Hc. cbn [SessionManager.lastEventId].
    split; [done|]. split.
    { eexists _, _. rewrite Hget, Hid, Hc. cbn. done. }
    split; [done|]. apply lookup_delete_eq.
  - cbn zeta. rewrite (fire_onclose_registerSession _ _ _ _ _ _ _ _ Hobj).
    destruct (getSession_registerSession sid tr streamable now1 now2 m Hsid)
      as (md & Hmd & Hid & Hty & Hc & Hl & _).
    unfold SessionManager.onclose_handler.
    cbn [SessionManager.redis SessionManager.localTransports SessionManager.getLocalTransport].
    assert (Hsame : SessionManager.markSessionDisconnected sid now
              (SessionManager.redis (SessionManager.registerSession sid tr streamable now1 now2 m))
            = SessionManager.redis (SessionManager.registerSession sid tr streamable now1 now2 m)).
    { unfold SessionManager.markSessionDisconnected. rewrite Hmd, Hty.
      destruct (SessionManager.sseState md); [|done].
      by rewrite bool_decide_eq_false_2 by discriminate. }
    rewrite Hsame. split; [done|]. split; [|apply lookup_delete_eq].
    cbn [SessionManager.registerSession SessionManager.redis].
    unfold SessionManager.sessionExists. by rewrite exists_expire, exists_hSet.
  - intros ty. cbn zeta. unfold DistSessionManager.fire_onclose.
    cbn [DistSessionManager.registerSession DistSessionManager.heap].
    rewrite lookup_alter_eq, Hobj'. cbn [fmap option_fmap option_map mbind option_bind t_onclose set_onclose].
    unfold DistSessionManager.onclose_handler, DistSessionManager.unregisterSession.
    cbn [DistSessionManager.redis DistSessionManager.localTransports
         DistSessionManager.getLocalTransport].
    split; [apply exists_del|]. split; [|apply lookup_delete_eq].
    unfold DistSessionManager.getSession, Redis.hGetAll.
    rewrite hashes_del, decide_True by done. cbn. by rewrite lookup_empty.
Qed.

End Close.

(** ** The event log: what a run of appends leaves in the store *)

Section EventLog.
Context {Message : Type} `{!JSON Message}.
Import RedisEventStore.

Implicit Types (a : append (Message := Message)) (r : Redis.t).

Lemma filter_all {A} (P : A → Prop) `{!∀ x, Decision (P x)} (l : list A) :
  Forall P l → filter P l = l.
Proof.
  induction 1 as [|x l Hx _ IH]; [done|]. by rewrite filter_cons_True, IH.
Qed.

Lemma filter_none {A} (P : A → Prop) `{!∀ x, Decision (P x)} (l : list A) :
  Forall (λ x, ¬ P x) l → filter P l = [].
Proof.
  induction 1 as [|x l Hx _ IH]; [done|]. by rewrite filter_cons_False, IH.
Qed.

Lemma zinsert_last (t : Z) (e : string) (l : Redis.zset) :
  Forall (λ x, x.1 < t) l → Redis.zinsert (t, e) l = l ++ [(t, e)].
Proof.
  induction 1 as [|x l Hx _ IH]; [done|].
  cbn [Redis.zinsert app]. unfold Redis.entry_le. cbn [fst snd].
  rewrite !bool_decide_eq_false_2 by lia. cbn. by rewrite IH.
Qed.

Lemma zremove_absent (member : string) (l : Redis.zset) :
  member ∉ l.*2 → Redis.zremove member l = l.
Proof.
  intros Hnot. apply filter_all, Forall_forall. intros x Hx Heq.
  apply Hnot. rewrite <- Heq. by apply list_elem_of_fmap_2.
Qed.

Lemma elem_of_zinsert (x e : Z * string) (l : Redis.zset) :
  x ∈ Redis.zinsert e l ↔ x = e ∨ x ∈ l.
Proof.
  induction l as [|y l IH]; cbn [Redis.zinsert].
  - rewrite list_elem_of_singleton, elem_of_nil. tauto.
  - case_match; rewrite !elem_of_cons; [done|]. rewrite IH. tauto.
Qed.

Lemma zinsert_members (e : Z * string) (l : Redis.zset) :
  (Redis.zinsert e l).*2 ≡ₚ e.2 :: l.*2.
Proof.
  induction l as [|y l IH]; cbn [Redis.zinsert]; [done|].
  case_match; [done|]. rewrite !fmap_cons, IH. apply Permutation_swap.
Qed.

Lemma index_of_storeEvent (sid : string) (message : Message) (now_id : Z) (rnd : string)
    (now : Z) r :
  index_of sid (storeEvent sid message now_id rnd now r).2
  = Redis.zinsert (now, generateEventId sid now_id rnd)
      (Redis.zremove (generateEventId sid now_id rnd) (index_of sid r)).
Proof.
  unfold index_of. cbn [storeEvent snd]. rewrite !zsets_expire. cbn.
  by rewrite lookup_insert_eq.
Qed.

Lemma hGetAll_storeEvent (key sid : string) (message : Message) (now_id : Z) (rnd : string)
    (now : Z) r :
  Redis.hGetAll key (storeEvent sid message now_id rnd now r).2
  = if decide (event_key (generateEventId sid now_id rnd) = key)
    then <["streamId" := sid]>
           (<["message" := JSON_stringify message]>
             {["timestamp" := JS.toString (Some now)]}) ∪ Redis.hGetAll key r
    else Redis.hGetAll key r.
Proof.
  cbn [storeEvent snd]. rewrite !hGetAll_expire. rewrite hGetAll_zAdd, hGetAll_hSet.
  destruct (decide _) as [<-|]; done.
Qed.

Lemma event_key_inj (e e' : string) : event_key e = event_key e' → e = e'.
Proof. unfold event_key. apply (inj (String.append "event:")). Qed.

Lemma storeEvents_ids (sid : string) (apps : list append) r :
  (storeEvents sid apps r).1 = eventId_of sid <$> apps.
Proof.
  revert r. induction apps as [|a apps IH]; intros r; [done|].
  cbn [storeEvents]. destruct (storeEvent _ _ _ _ _ _) as [e r1] eqn:Hstore.
  specialize (IH r1). destruct (storeEvents sid apps r1) as [ids r2].
  cbn in *. rewrite IH. f_equal. unfold storeEvent in Hstore. by simplify_eq.
Qed.

Lemma storeEvents_cons (sid : string) (a : append) (apps : list append) r :
  (storeEvents sid (a :: apps) r).2
  = (storeEvents sid apps
       (storeEvent sid (a_message a) (a_now_id a) (a_rnd a) (a_now a) r).2).2.
Proof.
  cbn [storeEvents]. destruct (storeEvent _ _ _ _ _ _) as [e r1]. cbn [snd].
  by destruct (storeEvents sid apps r1) as [ids r2].
Qed.

(** Records of events that are not appended stay as they are. *)
Lemma hGetAll_storeEvents_other (key sid : string) (apps : list append) r :
  key ∉ event_key <$> (eventId_of sid <$> apps) →
  Redis.hGetAll key (storeEvents sid apps r).2 = Redis.hGetAll key r.
Proof.
  revert r. induction apps as [|a apps IH]; intros r Hnot; [done|].
  rewrite !fmap_cons in Hnot. apply not_elem_of_cons in Hnot as [Hne Hnot].
  rewrite storeEvents_cons, IH by done.
  rewrite hGetAll_storeEvent. by rewrite decide_False.
Qed.

(** With distinct identifiers, each appended event has its record. *)
Lemma hGetAll_storeEvents (sid : string) (apps : list append) r a :
  NoDup (eventId_of sid <$> apps) → a ∈ apps →
  Redis.hGetAll (event_key (eventId_of sid a)) (storeEvents sid apps r).2 !! "message"
    = Some (JSON_stringify (a_message a))
  ∧ Redis.hGetAll (event_key (eventId_of sid a)) (storeEvents sid apps r).2 !! "timestamp"
    = Some (JS.toString (Some (a_now a))).
Proof.
  revert r. induction apps as [|a0 apps IH]; intros r Hdup Hin; [by apply elem_of_nil in Hin|].
  rewrite fmap_cons in Hdup. apply NoDup_cons in Hdup as [Hfresh Hdup].
  rewrite storeEvents_cons.
  destruct (decide (eventId_of sid a = eventId_of sid a0)) as [Heq|Hne].
  - assert (a = a0) as ->.
    { apply elem_of_cons in Hin as [->|Hin]; [done|].
      exfalso. apply Hfresh. rewrite <- Heq. by apply list_elem_of_fmap_2. }
    rewrite hGetAll_storeEvents_other.
    2:{ intros Hin'. apply list_elem_of_fmap in Hin' as (e & He & Hin').
        apply event_key_inj in He as <-. done. }
    rewrite hGetAll_storeEvent. unfold eventId_of. rewrite decide_True by done.
    split.
    + erewrite lookup_union_Some_l; [done|]. by simplify_map_eq.
    + erewrite lookup_union_Some_l; [done|]. by simplify_map_eq.
  - apply IH; [done|]. apply elem_of_cons in Hin as [->|Hin]; done.
Qed.

(** With increasing timestamps and distinct identifiers, the appends go to
    the end of the index, in order. *)
Lemma index_of_storeEvents_sorted (sid : string) (apps : list append) r :
  Forall (λ a, Forall (λ x, x.1 < a_now a) (index_of sid r)) apps →
  Forall (λ a, eventId_of sid a ∉ (index_of sid r).*2) apps →
  StronglySorted Z.lt (a_now <$> apps) →
  NoDup (eventId_of sid <$> apps) →
  index_of sid (storeEvents sid apps r).2 = index_of sid r ++ (entry_of sid <$> apps).
Proof.
  revert r. induction apps as [|a apps IH]; intros r Hlt Hnew Hsorted Hdup.
  { cbn. by rewrite app_nil_r. }
  apply Forall_cons in Hlt as [Hlt_a Hlt].
  apply Forall_cons in Hnew as [Hnew_a Hnew].
  rewrite fmap_cons in Hsorted. rewrite fmap_cons in Hdup.
  apply StronglySorted_inv in Hsorted as [Hsorted Hlater].
  apply NoDup_cons in Hdup as [Hfresh Hdup].
  assert (Hindex : index_of sid
             (storeEvent sid (a_message a) (a_now_id a) (a_rnd a) (a_now a) r).2
           = index_of sid r ++ [entry_of sid a]).
  { rewrite index_of_storeEvent. fold (eventId_of sid a).
    by rewrite zremove_absent, zinsert_last. }
  rewrite storeEvents_cons, IH; [| | |done|done].
  - rewrite Hindex, fmap_cons. by rewrite <- app_assoc.
  - rewrite Hindex. apply Forall_forall. intros a' Ha'.
    apply Forall_app. split.
    + by eapply Forall_forall in Hlt.
    + apply Forall_singleton. cbn.
      eapply Forall_forall in Hlater; [exact Hlater|]. by apply list_elem_of_fmap_2.
  - rewrite Hindex. apply Forall_forall. intros a' Ha'.
    rewrite fmap_app, elem_of_app. intros [Hold | Hhead].
    + by eapply Forall_forall in Hnew.
    + cbn in Hhead. apply list_elem_of_singleton in Hhead.
      apply Hfresh. rewrite <- Hhead. by apply list_elem_of_fmap_2.
Qed.

Lemma zRangeByScore_index (sid : string) (lo hi : Redis.bound) r :
  Redis.zRangeByScore (stream_key sid) lo hi r
  = (filter (λ e, Redis.in_range lo hi e = true) (index_of sid r)).*2.
Proof. reflexivity. Qed.

(** The lower bound [t + 1] with no upper bound selects the scores strictly
    above [t]. *)
Lemma in_range_after (t : Z) (e : Z * string) :
  Redis.in_range (Redis.Score (t + 1)) Redis.PosInf e = true ↔ t < e.1.
Proof.
  unfold Redis.in_range. cbn. rewrite andb_true_r, bool_decide_eq_true. lia.
Qed.

(** The upper bound [t] with no lower bound selects the scores up to [t],
    [t] included. *)
Lemma in_range_upto (t : Z) (e : Z * string) :
  Redis.in_range Redis.NegInf (Redis.Score t) e = true ↔ e.1 ≤ t.
Proof. unfold Redis.in_range. cbn. by rewrite bool_decide_eq_true. Qed.

Lemma zRangeByScore_after (sid : string) (t : Z) r :
  Redis.zRangeByScore (stream_key sid) (Redis.Score (t + 1)) Redis.PosInf r
  = (filter (λ e, t < e.1) (index_of sid r)).*2.
Proof.
  rewrite zRangeByScore_index. f_equal. apply list_filter_iff.
  intros e. apply in_range_after.
Qed.

Context `{!JSONLaws Message}.

Lemma replay_loop_stored (sid : string) (l : list append) r :
  Forall (λ a, Redis.hGetAll (event_key (eventId_of sid a)) r !! "message"
               = Some (JSON_stringify (a_message a))) l →
  replay_loop (eventId_of sid <$> l) r = delivery_of sid <$> l.
Proof.
  induction 1 as [|a l Ha _ IH]; [done|].
  rewrite !fmap_cons. cbn [replay_loop].
  by rewrite Ha, JSON_stringify_truthy, JSON_parse_stringify, IH.
Qed.

Lemma sorted_around {A} (f : A → Z) (l : list A) (k : nat) (x : A) :
  StronglySorted Z.lt (f <$> l) → l !! k = Some x →
  Forall (λ y, f y < f x) (take k l) ∧ Forall (λ y, f x < f y) (drop (S k) l).
Proof.
  intros Hsorted Hk. rewrite <- (take_drop_middle l k x Hk) in Hsorted.
  rewrite fmap_app, fmap_cons in Hsorted.
  apply StronglySorted_app in Hsorted as (Hcross & _ & Hright).
  apply StronglySorted_inv in Hright as [_ Hlater]. split.
  - apply Forall_forall. intros y Hy. apply Hcross.
    + by apply list_elem_of_fmap_2.
    + apply list_elem_of_here.
  - apply Forall_forall. intros y Hy.
    eapply Forall_forall in Hlater; [exact Hlater|]. by apply list_elem_of_fmap_2.
Qed.

(** C1, as the code has it.  For a stream whose identifier is not empty and
    has no ['_'], and a run of appends into it whose timestamps increase
    strictly and whose identifiers are distinct, starting with no index for
    the stream: [replayEventsAfter] with the identifier returned for the
    append at position [k] returns the stream identifier and calls [send]
    on exactly the appends after position [k], in order, each with its
    identifier and its message; the identifiers it walks are the members of
    the index whose score is strictly greater than the stored timestamp. *)
Theorem replayEventsAfter_delivers_suffix
    (sid : string) (apps : list append) (r0 : Redis.t) (k : nat) (a_k : append) :
  JS.truthy sid = true →
  JS.includes JS.underscore sid = false →
  Redis.zsets r0 !! stream_key sid = None →
  StronglySorted Z.lt (a_now <$> apps) →
  NoDup (eventId_of sid <$> apps) →
  apps !! k = Some a_k →
  (storeEvents sid apps r0).1 !! k = Some (eventId_of sid a_k)
  ∧ replayEventsAfter (eventId_of sid a_k) (storeEvents sid apps r0).2
    = (Returned sid, delivery_of sid <$> drop (S k) apps)
  ∧ Redis.zRangeByScore (stream_key sid) (Redis.Score (a_now a_k + 1)) Redis.PosInf
      (storeEvents sid apps r0).2
    = (filter (λ e, a_now a_k < e.1) (index_of sid (storeEvents sid apps r0).2)).*2.
Proof.
  intros Hsid Hsep Hnew Hsorted Hdup Hk.
  split; [by rewrite storeEvents_ids, list_lookup_fmap, Hk|].
  split; [|apply zRangeByScore_after].
  assert (Hin : a_k ∈ apps) by (by eapply list_elem_of_lookup_2).
  destruct (hGetAll_storeEvents sid apps r0 a_k Hdup Hin) as [_ Hts].
  assert (Hempty : index_of sid r0 = []) by (unfold index_of; by rewrite Hnew).
  assert (Hindex : index_of sid (storeEvents sid apps r0).2 = entry_of sid <$> apps).
  { rewrite index_of_storeEvents_sorted, Hempty; [done|..|done|done].
    - apply Forall_forall. intros a _. rewrite Hempty. constructor.
    - apply Forall_forall. intros a _. rewrite Hempty. apply not_elem_of_nil. }
  destruct (sorted_around a_now apps k a_k Hsorted Hk) as [Hbefore Hafter].
  assert (Hid : JS.truthy (eventId_of sid a_k) = true) by apply generateEventId_truthy.
  assert (Hstream : getStreamIdFromEventId (eventId_of sid a_k) = sid)
    by (by apply getStreamId_generateEventId).
  unfold replayEventsAfter. rewrite Hid, Hstream, Hsid, Hts.
  cbn [JS.truthy_prop JS.parseInt_prop]. rewrite toString_truthy, parseInt_toString.
  cbn [negb]. f_equal.
  rewrite zRangeByScore_after, Hindex.
  rewrite <- (take_drop_middle apps k a_k Hk) at 1.
  rewrite fmap_app, fmap_cons, filter_app.
  rewrite filter_cons_False by (unfold entry_of; cbn; lia).
  rewrite (filter_none _ (entry_of sid <$> take k apps)).
  2:{ apply Forall_fmap. eapply Forall_impl; [exact Hbefore|]. intros a Ha.
      unfold compose, entry_of. cbn in *. lia. }
  rewrite (filter_all _ (entry_of sid <$> drop (S k) apps)).
  2:{ apply Forall_fmap. eapply Forall_impl; [exact Hafter|]. intros a Ha.
      unfold compose, entry_of. cbn in *. lia. }
  rewrite app_nil_l, <- list_fmap_compose.
  change (snd ∘ entry_of sid) with (eventId_of (Message := Message) sid).
  apply replay_loop_stored, Forall_forall. intros a Ha.
  apply (hGetAll_storeEvents sid apps r0 a Hdup).
  by apply (subseteq_drop (S k) apps).
Qed.

End EventLog.

(** ** Pruning *)

Section Prune.
Context {Message : Type} `{!JSON Message} `{!JSON SessionManager.SSEState}.
Import RedisEventStore.

Implicit Types (r : Redis.t).

Lemma stream_key_not_event (sid eventId : string) : event_key eventId ≠ stream_key sid.
Proof. discriminate. Qed.

Lemma zsets_foldl_del (ids : list string) r (key : string) :
  Redis.zsets (foldl (λ r eventId, Redis.del (event_key eventId) r) r ids) !! key
  = if bool_decide (key ∈ event_key <$> ids) then None else Redis.zsets r !! key.
Proof.
  revert r. induction ids as [|e ids IH]; intros r; [done|].
  cbn [foldl]. rewrite IH, fmap_cons. cbn [Redis.del Redis.zsets].
  destruct (decide (event_key e = key)) as [<-|Hne].
  - rewrite lookup_delete_eq.
    rewrite (bool_decide_eq_true_2 (_ ∈ _ :: _)) by apply list_elem_of_here.
    by case_bool_decide.
  - rewrite lookup_delete_ne by done.
    apply (f_equal (λ b : bool, if b then None else Redis.zsets r !! key)).
    apply bool_decide_ext. rewrite elem_of_cons.
    split; [by right | intros [Heq | Hin]; [congruence | done]].
Qed.

Lemma members_unique_score (l : Redis.zset) (t t' : Z) (e : string) :
  NoDup l.*2 → (t, e) ∈ l → (t', e) ∈ l → t = t'.
Proof.
  induction l as [|[t0 e0] l IH]; intros Hdup Hin Hin'; [by apply elem_of_nil in Hin|].
  rewrite fmap_cons in Hdup. apply NoDup_cons in Hdup as [Hfresh Hdup].
  apply elem_of_cons in Hin as [Heq | Hin]; apply elem_of_cons in Hin' as [Heq' | Hin'].
  - congruence.
  - exfalso. apply Hfresh. simplify_eq. by apply (list_elem_of_fmap_2 snd _ (t', e0)).
  - exfalso. apply Hfresh. simplify_eq. by apply (list_elem_of_fmap_2 snd _ (t, e0)).
  - by apply IH.
Qed.

Lemma NoDup_filter_members (P : Z * string → Prop) `{!∀ x, Decision (P x)}
    (l : Redis.zset) :
  NoDup l.*2 → NoDup (filter P l).*2.
Proof.
  intros Hdup. eapply sublist_NoDup; [exact Hdup|].
  apply fmap_sublist, sublist_filter.
Qed.

Lemma NoDup_zAdd (score : Z) (member : string) (l : Redis.zset) :
  NoDup l.*2 → NoDup (Redis.zinsert (score, member) (Redis.zremove member l)).*2.
Proof.
  intros Hdup. rewrite zinsert_members. cbn [snd]. apply NoDup_cons. split.
  - intros Hin. apply list_elem_of_fmap in Hin as ([t e] & He & Hin). cbn in He. subst e.
    unfold Redis.zremove in Hin. apply list_elem_of_filter in Hin as [Hne _]. by apply Hne.
  - by apply NoDup_filter_members.
Qed.

Lemma members_distinct_shrinks r r' :
  (∀ key, Redis.zsets r' !! key = Redis.zsets r !! key ∨ Redis.zsets r' !! key = None) →
  members_distinct r → members_distinct r'.
Proof.
  intros Hsub Hinv key l Hl.
  destruct (Hsub key) as [Heq | Hnone]; [|congruence].
  rewrite Heq in Hl. by eapply Hinv.
Qed.

Lemma members_distinct_zsets r r' :
  Redis.zsets r' = Redis.zsets r → members_distinct r → members_distinct r'.
Proof. intros Heq. apply members_distinct_shrinks. intros key. left. by rewrite Heq. Qed.

Lemma zsets_markSessionDisconnected (sid : string) (now : Z) r :
  Redis.zsets (SessionManager.markSessionDisconnected sid now r) = Redis.zsets r.
Proof. unfold SessionManager.markSessionDisconnected. by repeat case_match. Qed.

Lemma members_distinct_zRemRangeByScore (key : string) (lo hi : Redis.bound) r :
  members_distinct r → members_distinct (Redis.zRemRangeByScore key lo hi r).
Proof.
  intros Hinv. unfold Redis.zRemRangeByScore.
  destruct (Redis.zsets r !! key) as [l|] eqn:Hl; [|done].
  destruct (filter _ l) as [|x l'] eqn:Hfilter.
  - eapply members_distinct_shrinks; [|done]. intros key'. cbn.
    destruct (decide (key = key')) as [<-|Hne].
    + right. apply lookup_delete_eq.
    + left. by apply lookup_delete_ne.
  - intros key' l'' Hl''. cbn in Hl''.
    destruct (decide (key = key')) as [<-|Hne].
    + rewrite lookup_insert_eq in Hl''. simplify_eq. rewrite <- Hfilter.
      apply NoDup_filter_members. by eapply Hinv.
    + rewrite lookup_insert_ne in Hl'' by done. by eapply Hinv.
Qed.

Lemma step_members_distinct r r' :
  step (Message := Message) r r' → members_distinct r → members_distinct r'.
Proof.
  intros Hstep Hinv. destruct Hstep as
    [m sid tr ty now1 now2 | m sid now | r sid now | m sid res uuid | m sid
    | m tr now | r streamId message now_id rnd now | r streamId olderThanMs now | r key].
  - cbn [SessionManager.registerSession SessionManager.redis].
    eapply members_distinct_zsets; [|done]. by rewrite zsets_expire.
  - unfold SessionManager.updateSessionActivity. case_bool_decide; [|done].
    cbn [SessionManager.redis].
    eapply members_distinct_zsets; [|done]. by rewrite zsets_expire.
  - eapply members_distinct_zsets; [|done]. apply zsets_markSessionDisconnected.
  - eapply members_distinct_zsets; [|done].
    unfold SessionManager.getOrCreateSSETransport. by repeat case_match.
  - eapply members_distinct_shrinks; [|done]. intros key. cbn.
    destruct (decide (SessionManager.session_key sid = key)) as [<-|Hne].
    + right. apply lookup_delete_eq.
    + left. by apply lookup_delete_ne.
  - eapply members_distinct_zsets; [|done].
    unfold SessionManager.fire_onclose. case_match; [|done].
    cbn. apply zsets_markSessionDisconnected.
  - cbn [storeEvent snd]. intros key l Hl. rewrite !zsets_expire in Hl. cbn in Hl.
    destruct (decide (stream_key streamId = key)) as [<-|Hne].
    + rewrite lookup_insert_eq in Hl. simplify_eq. apply NoDup_zAdd.
      destruct (Redis.zsets r !! stream_key streamId) as [l|] eqn:Hold; cbn.
      * by eapply Hinv.
      * constructor.
    + rewrite lookup_insert_ne in Hl by done. by eapply Hinv.
  - unfold cleanupOldEvents. apply members_distinct_zRemRangeByScore.
    eapply members_distinct_shrinks; [|done]. intros key.
    rewrite zsets_foldl_del. case_bool_decide; eauto.
  - eapply members_distinct_shrinks; [|done]. intros key'. cbn.
    destruct (decide (key = key')) as [<-|Hne].
    + right. apply lookup_delete_eq.
    + left. by apply lookup_delete_ne.
Qed.

Lemma reachable_members_distinct r :
  reachable (Message := Message) r → members_distinct r.
Proof.
  unfold reachable. revert r. apply rtc_ind_r.
  - intros key l Hl. cbn in Hl. by rewrite lookup_empty in Hl.
  - intros r r' _ Hstep Hinv. by eapply step_members_distinct.
Qed.

(** The index after pruning: the entries strictly after the cutoff. *)
Lemma index_of_cleanupOldEvents (sid : string) (olderThanMs now : Z) r :
  index_of sid (cleanupOldEvents sid olderThanMs now r)
  = filter (λ e, now - olderThanMs < e.1) (index_of sid r).
Proof.
  unfold cleanupOldEvents, Redis.zRemRangeByScore, index_of.
  rewrite zsets_foldl_del.
  rewrite bool_decide_eq_false_2.
  2:{ intros Hin. apply list_elem_of_fmap in Hin as (e & He & _). done. }
  assert (Hfilter : ∀ l : Redis.zset,
    filter (λ e, Redis.in_range Redis.NegInf (Redis.Score (now - olderThanMs)) e ≠ true) l
    = filter (λ e, now - olderThanMs < e.1) l).
  { intros l. apply list_filter_iff. intros e. rewrite in_range_upto. lia. }
  destruct (Redis.zsets r !! stream_key sid) as [l|] eqn:Hl; cbn.
  - rewrite Hfilter. destruct (filter _ l) as [|x l'] eqn:Hf; cbn.
    + by rewrite lookup_delete_eq.
    + by rewrite lookup_insert_eq.
  - rewrite zsets_foldl_del.
    rewrite bool_decide_eq_false_2.
    2:{ intros Hin. apply list_elem_of_fmap in Hin as (e & He & _). done. }
    by rewrite Hl.
Qed.

Lemma hashes_cleanupOldEvents (sid : string) (olderThanMs now : Z) r (key : string) :
  Redis.hashes (cleanupOldEvents sid olderThanMs now r) !! key
  = if bool_decide (key ∈ event_key <$>
        (Redis.zRangeByScore (stream_key sid) Redis.NegInf
           (Redis.Score (now - olderThanMs)) r))
    then None else Redis.hashes r !! key.
Proof.
  unfold cleanupOldEvents. by rewrite hashes_zRemRangeByScore, hashes_foldl_del.
Qed.

Lemma elem_of_old_ids (sid : string) (cutoff : Z) r (e : string) :
  e ∈ Redis.zRangeByScore (stream_key sid) Redis.NegInf (Redis.Score cutoff) r
  ↔ ∃ t, (t, e) ∈ index_of sid r ∧ t ≤ cutoff.
Proof.
  rewrite zRangeByScore_index, list_elem_of_fmap. split.
  - intros ([t e'] & -> & Hin). apply list_elem_of_filter in Hin as [Hr Hin].
    apply in_range_upto in Hr. by exists t.
  - intros (t & Hin & Hle). exists (t, e). split; [done|].
    apply list_elem_of_filter. split; [|done]. by apply in_range_upto.
Qed.

(** C4, as the code has it.  In a store the system has produced,
    [cleanupOldEvents] with cutoff [now - olderThanMs] leaves in the index
    of the stream exactly the entries whose score is strictly after the
    cutoff; every event of the index whose score is at or before the cutoff
    loses its record and its index entry, and [replayEventsAfter] with its
    identifier then returns the empty string and sends nothing; every event
    strictly after the cutoff keeps its index entry and its record; no other
    hash is touched. *)
Theorem cleanupOldEvents_prunes_up_to_cutoff (sid : string) (olderThanMs now : Z) r :
  reachable (Message := Message) r →
  index_of sid (cleanupOldEvents sid olderThanMs now r)
  = filter (λ e, now - olderThanMs < e.1) (index_of sid r)
  ∧ (∀ t e, (t, e) ∈ index_of sid r → t ≤ now - olderThanMs →
       Redis.hashes (cleanupOldEvents sid olderThanMs now r) !! event_key e = None
       ∧ (e ∉ (index_of sid (cleanupOldEvents sid olderThanMs now r)).*2)
       ∧ replayEventsAfter (Message := Message) e (cleanupOldEvents sid olderThanMs now r)
         = (Returned "", []))
  ∧ (∀ t e, (t, e) ∈ index_of sid r → now - olderThanMs < t →
       (t, e) ∈ index_of sid (cleanupOldEvents sid olderThanMs now r)
       ∧ Redis.hashes (cleanupOldEvents sid olderThanMs now r) !! event_key e
         = Redis.hashes r !! event_key e)
  ∧ (∀ key,
       (∀ t e, (t, e) ∈ index_of sid r → t ≤ now - olderThanMs → key ≠ event_key e) →
       Redis.hashes (cleanupOldEvents sid olderThanMs now r) !! key
       = Redis.hashes r !! key).
Proof.
  intros Hreach.
  assert (Hdup : NoDup (index_of sid r).*2).
  { pose proof (reachable_members_distinct r Hreach) as Hinv. unfold index_of.
    destruct (Redis.zsets r !! stream_key sid) as [l|] eqn:Hl; cbn.
    - by eapply Hinv.
    - constructor. }
  split; [apply index_of_cleanupOldEvents|]. split; [|split].
  - intros t e Hin Hle.
    assert (Hgone : Redis.hashes (cleanupOldEvents sid olderThanMs now r) !! event_key e
                    = None).
    { rewrite hashes_cleanupOldEvents, bool_decide_eq_true_2; [done|].
      apply list_elem_of_fmap_2, elem_of_old_ids. eauto. }
    split; [done|]. split; [|by apply replayEventsAfter_missing_record].
    rewrite index_of_cleanupOldEvents. intros Hmem.
    apply list_elem_of_fmap in Hmem as ([t' e'] & He & Hmem). cbn in He. subst e'.
    apply list_elem_of_filter in Hmem as [Hlt Hmem]. cbn in Hlt.
    pose proof (members_unique_score _ _ _ _ Hdup Hin Hmem). lia.
  - intros t e Hin Hlt. split.
    + rewrite index_of_cleanupOldEvents. by apply list_elem_of_filter.
    + rewrite hashes_cleanupOldEvents, bool_decide_eq_false_2; [done|].
      intros Hold. apply list_elem_of_fmap in Hold as (e' & He & Hold).
      apply event_key_inj in He as <-.
      apply elem_of_old_ids in Hold as (t' & Hin' & Hle).
      pose proof (members_unique_score _ _ _ _ Hdup Hin Hin'). lia.
  - intros key Hkey.
    rewrite hashes_cleanupOldEvents, bool_decide_eq_false_2; [done|].
    intros Hold. apply list_elem_of_fmap in Hold as (e & -> & Hold).
    apply elem_of_old_ids in Hold as (t & Hin & Hle). by eapply Hkey.
Qed.

End Prune.

(** ** The statements on the concrete runs *)

Section Runs.
Import Sdk Codec Run.

Lemma replayEventsAfter_delivers_suffix_witness :
  (RedisEventStore.storeEvents "s1" [a1; a2; a3] Redis.empty).1 !! 0%nat
    = Some (eventId_of "s1" a1)
  ∧ RedisEventStore.replayEventsAfter (eventId_of "s1" a1)
      (RedisEventStore.storeEvents "s1" [a1; a2; a3] Redis.empty).2
    = (RedisEventStore.Returned "s1", delivery_of "s1" <$> drop 1 [a1; a2; a3])
  ∧ Redis.zRangeByScore (RedisEventStore.stream_key "s1")
      (Redis.Score (RedisEventStore.a_now a1 + 1)) Redis.PosInf
      (RedisEventStore.storeEvents "s1" [a1; a2; a3] Redis.empty).2
    = (filter (λ e, RedisEventStore.a_now a1 < e.1)
         (index_of "s1" (RedisEventStore.storeEvents "s1" [a1; a2; a3] Redis.empty).2)).*2.
Proof.
  apply (replayEventsAfter_delivers_suffix "s1" [a1; a2; a3] Redis.empty 0 a1).
  - reflexivity.
  - reflexivity.
  - reflexivity.
  - repeat constructor.
  - apply (bool_decide_unpack _). vm_compute. exact I.
  - reflexivity.
Defined.

(** C1 as stated fails when two appends fall in one millisecond: replay
    after the first delivers nothing, although the second was appended
    after it. *)
Lemma replay_same_millisecond_counterexample :
  (RedisEventStore.storeEvents "s1" [b1; b2] Redis.empty).1 = ["s1_100_aa"; "s1_100_bb"]
  ∧ RedisEventStore.replayEventsAfter (Message := Z) "s1_100_aa"
      (RedisEventStore.storeEvents "s1" [b1; b2] Redis.empty).2
    = (RedisEventStore.Returned "s1", [])
  ∧ (RedisEventStore.replayEventsAfter (Message := Z) "s1_100_aa"
       (RedisEventStore.storeEvents "s1" [b1; b2] Redis.empty).2).2
    ≠ delivery_of "s1" <$> drop 1 [b1; b2].
Proof.
  split; [vm_compute; reflexivity|]. split; [vm_compute; reflexivity|].
  vm_compute. discriminate.
Qed.

Lemma getOrCreateSSETransport_restore_throws_witness :
  SessionManager.getOrCreateSSETransport "abc" (Some 9%nat) "5f0c" node2
    = (node2, SessionManager.Rejected)
  ∧ (∀ transport,
       (SessionManager.getOrCreateSSETransport "abc" (Some 9%nat) "5f0c" node2).2
       ≠ SessionManager.Resolved (Some transport))
  ∧ SessionManager.getLocalTransport "abc"
      (SessionManager.getOrCreateSSETransport "abc" (Some 9%nat) "5f0c" node2).1
    = None.
Proof.
  apply (getOrCreateSSETransport_restore_throws "abc" 9%nat "5f0c" node2 metadata_abc).
  - vm_compute. reflexivity.
  - reflexivity.
  - reflexivity.
Defined.

Lemma replayEventsAfter_fails_soft_witness :
  RedisEventStore.replayEventsAfter (Message := Z) "s1_999_zz" log3
  = (RedisEventStore.Returned "", []).
Proof.
  apply (replayEventsAfter_fails_soft "s1_999_zz" log3).
  right. right. vm_compute. reflexivity.
Defined.

Lemma replayEventsAfter_skips_undeliverable_witness :
  RedisEventStore.replayEventsAfter (Message := Z) "s1_100_aa" log3_evicted
  = (RedisEventStore.Returned (RedisEventStore.getStreamIdFromEventId "s1_100_aa"),
     omap (λ entry, pair entry.1 <$> entry.2)
       [("s1_150_bb", None); ("s1_200_cc", Some 3)]).
Proof.
  apply (replayEventsAfter_skips_undeliverable "s1_100_aa" log3_evicted 100
           [("s1_150_bb", None); ("s1_200_cc", Some 3)]).
  - reflexivity.
  - reflexivity.
  - vm_compute. reflexivity.
  - vm_compute. reflexivity.
  - vm_compute. reflexivity.
  - constructor; [|constructor; [|constructor]].
    + left. vm_compute. reflexivity.
    + exists "3". vm_compute. repeat split; reflexivity.
Defined.

Lemma malformed_sseState_reads_absent_witness :
  SessionManager.getSession "abc" damaged
  = Some (SessionManager.deserializeMetadata
            (Redis.hGetAll (SessionManager.session_key "abc") damaged))
  ∧ SessionManager.deserializeMetadata
      (Redis.hGetAll (SessionManager.session_key "abc") damaged)
    = {| SessionManager.sessionId :=
           Redis.hGetAll (SessionManager.session_key "abc") damaged !! "sessionId";
         SessionManager.transportType :=
           Redis.hGetAll (SessionManager.session_key "abc") damaged !! "transportType";
         SessionManager.createdAt :=
           JS.parseInt_prop
             (Redis.hGetAll (SessionManager.session_key "abc") damaged !! "createdAt");
         SessionManager.lastActive :=
           JS.parseInt_prop
             (Redis.hGetAll (SessionManager.session_key "abc") damaged !! "lastActive");
         SessionManager.sseState := None |}.
Proof.
  apply (malformed_sseState_reads_absent "abc" damaged "{oops").
  - vm_compute. reflexivity.
  - vm_compute. reflexivity.
  - vm_compute. reflexivity.
Defined.

Lemma markSessionDisconnected_keeps_record_witness :
  SessionManager.getSession "abc"
    (SessionManager.markSessionDisconnected "abc" 2000 (SessionManager.redis registered))
  = Some {| SessionManager.sessionId := SessionManager.sessionId metadata_abc;
            SessionManager.transportType := Some "sse";
            SessionManager.createdAt := SessionManager.createdAt metadata_abc;
            SessionManager.lastActive := Some 2000;
            SessionManager.sseState :=
              Some {| SessionManager.isConnected := false;
                      SessionManager.lastEventId := None |} |}
  ∧ SessionManager.sessionExists "abc"
      (SessionManager.markSessionDisconnected "abc" 2000 (SessionManager.redis registered))
    = true
  ∧ SessionManager.isSSEConnected "abc"
      (SessionManager.markSessionDisconnected "abc" 2000 (SessionManager.redis registered))
    = false.
Proof.
  destruct (markSessionDisconnected_keeps_record (Message := Z)
              "abc" 2000 (SessionManager.redis registered) metadata_abc)
    as (Hmarked & _ & _).
  - vm_compute. reflexivity.
  - reflexivity.
  - apply (Hmarked {| SessionManager.isConnected := true;
                      SessionManager.lastEventId := None |}).
    reflexivity.
Defined.

(** C7 as stated fails on a record of the streaming kind whose sub-state
    does not decode: the record exists, and [markSessionDisconnected]
    leaves the store as it is, so [lastActive] keeps its value and no
    sub-state reports a connected flag set to false. *)
Lemma markSessionDisconnected_damaged_counterexample :
  (∃ md, SessionManager.getSession "abc" damaged = Some md
         ∧ SessionManager.transportType md = Some "sse"
         ∧ SessionManager.lastActive md = Some 1000)
  ∧ SessionManager.sessionExists "abc" damaged = true
  ∧ SessionManager.markSessionDisconnected "abc" 2000 damaged = damaged
  ∧ (∃ md, SessionManager.getSession "abc"
             (SessionManager.markSessionDisconnected "abc" 2000 damaged) = Some md
           ∧ SessionManager.lastActive md = Some 1000)
  ∧ ¬ marked_disconnected "abc" (SessionManager.markSessionDisconnected "abc" 2000 damaged).
Proof.
  split; [eexists; split; [vm_compute; reflexivity | split; reflexivity]|].
  split; [vm_compute; reflexivity|].
  split; [vm_compute; reflexivity|].
  split; [eexists; split; [vm_compute; reflexivity | reflexivity]|].
  intros (md & st & Hget & Hst & _).
  vm_compute in Hget. injection Hget as <-. discriminate Hst.
Qed.

Lemma cleanupOldEvents_prunes_up_to_cutoff_witness :
  index_of "s1" (RedisEventStore.cleanupOldEvents "s1" 120 270 log3)
  = filter (λ e, 270 - 120 < e.1) (index_of "s1" log3)
  ∧ Redis.hashes (RedisEventStore.cleanupOldEvents "s1" 120 270 log3)
      !! RedisEventStore.event_key "s1_100_aa" = None
  ∧ RedisEventStore.replayEventsAfter (Message := Z) "s1_100_aa"
      (RedisEventStore.cleanupOldEvents "s1" 120 270 log3)
    = (RedisEventStore.Returned "", [])
  ∧ Redis.hashes (RedisEventStore.cleanupOldEvents "s1" 120 270 log3)
      !! RedisEventStore.event_key "s1_200_cc"
    = Redis.hashes log3 !! RedisEventStore.event_key "s1_200_cc".
Proof.
  assert (Hreach : reachable (Message := Z) log3).
  { unfold reachable.
    apply (rtc_r _ log2); [apply (rtc_r _ log1); [apply rtc_once|]|].
    - unfold log1. apply step_storeEvent.
    - unfold log2. apply step_storeEvent.
    - unfold log3. apply step_storeEvent. }
  destruct (cleanupOldEvents_prunes_up_to_cutoff (Message := Z) "s1" 120 270 log3 Hreach)
    as (Hindex & Hold & Hnew & _).
  split; [exact Hindex|].
  destruct (Hold 100 "s1_100_aa") as (Hgone & _ & Hreplay).
  { vm_compute. repeat constructor. }
  { lia. }
  destruct (Hnew 200 "s1_200_cc") as (_ & Hkept).
  { vm_compute. repeat constructor. }
  { lia. }
  split; [exact Hgone|]. split; [exact Hreplay | exact Hkept].
Defined.

(** C4 as stated fails at the boundary: an event whose timestamp is the
    cutoff itself, not older, loses its record and its index entry. *)
Lemma prune_at_cutoff_counterexample :
  RedisEventStore.a_now a2 = 270 - 120
  ∧ Redis.hashes log3 !! RedisEventStore.event_key (eventId_of "s1" a2) ≠ None
  ∧ (150, eventId_of "s1" a2) ∈ index_of "s1" log3
  ∧ Redis.hashes (RedisEventStore.cleanupOldEvents "s1" 120 270 log3)
      !! RedisEventStore.event_key (eventId_of "s1" a2) = None
  ∧ index_of "s1" (RedisEventStore.cleanupOldEvents "s1" 120 270 log3)
    = [(200, "s1_200_cc")].
Proof.
  split; [reflexivity|]. split; [vm_compute; discriminate|].
  split; [vm_compute; repeat constructor|].
  split; vm_compute; reflexivity.
Qed.

Lemma onclose_after_registerSession_witness :
  marked_disconnected "abc"
    (SessionManager.redis
       (SessionManager.fire_onclose 0 2000
          (SessionManager.registerSession "abc" 0 sse 1000 1000
             (node1 SSEServerTransport))))
  ∧ SessionManager.redis
      (SessionManager.fire_onclose 0 2000
         (SessionManager.registerSession "abc" 0 streamable 1000 1000
            (node1 SSEServerTransport)))
    = SessionManager.redis
        (SessionManager.registerSession "abc" 0 streamable 1000 1000
           (node1 SSEServerTransport))
  ∧ Redis.exists_ (DistSessionManager.session_key "abc")
      (DistSessionManager.redis
         (DistSessionManager.fire_onclose 0
            (DistSessionManager.registerSession "abc" 0 sse 1000 1000
               (dist_node1 StreamableHTTPServerTransport)))) = 0.
Proof.
  destruct (onclose_after_registerSession "abc" 1000 1000 2000
              (node1 SSEServerTransport) 0
              (mkTransport SSEServerTransport (Some "abc") None None None)
              (dist_node1 StreamableHTTPServerTransport) 0
              (mkTransport StreamableHTTPServerTransport (Some "abc") None None None))
    as ((_ & Hmarked & _) & (Hsame & _) & Hdist).
  - reflexivity.
  - reflexivity.
  - reflexivity.
  - split; [exact Hmarked|]. split; [exact Hsame|].
    destruct (Hdist sse) as (Hgone & _). exact Hgone.
Defined.

(** C6 as stated fails in the stateless variant for a session of kind
    [streamable]: after the close its record is neither marked disconnected
    nor deleted. *)
Lemma onclose_streamable_counterexample :
  ¬ (marked_disconnected "abc"
       (SessionManager.redis
          (SessionManager.fire_onclose 0 2000
             (SessionManager.registerSession "abc" 0 streamable 1000 1000
                (node1 StreamableHTTPServerTransport))))
     ∨ record_deleted "abc"
         (SessionManager.redis
            (SessionManager.fire_onclose 0 2000
               (SessionManager.registerSession "abc" 0 streamable 1000 1000
                  (node1 StreamableHTTPServerTransport))))).
Proof.
  intros [(md & st & Hget & Hst & _) | Hdel].
  - vm_compute in Hget. injection Hget as <-. discriminate Hst.
  - vm_compute in Hdel. discriminate Hdel.
Qed.

End Runs.

(** ** More on the event log *)

Section EventLogMore.
Context {Message : Type} `{!JSON Message}.
Import RedisEventStore.

Implicit Types (r : Redis.t).

Lemma ttls_expire (key : string) (seconds : Z) r :
  Redis.exists_ key r = 1 →
  Redis.ttls (Redis.expire key seconds r) = <[key := seconds]> (Redis.ttls r).
Proof. intros Hex. unfold Redis.expire. by rewrite bool_decide_eq_true_2. Qed.

Lemma exists_zAdd (key : string) (score : Z) (member : string) r :
  Redis.exists_ key (Redis.zAdd key score member r) = 1.
Proof.
  unfold Redis.exists_. cbn. rewrite lookup_insert_eq.
  rewrite bool_decide_eq_true_2; [done|]. right. by eexists.
Qed.

Lemma exists_zAdd_mono (key key' : string) (score : Z) (member : string) r :
  Redis.exists_ key' r = 1 → Redis.exists_ key' (Redis.zAdd key score member r) = 1.
Proof.
  unfold Redis.exists_. cbn. case_bool_decide as Hex; [|done]. intros _.
  rewrite bool_decide_eq_true_2; [done|].
  destruct Hex as [Hh | Hz]; [by left|]. right.
  destruct (decide (key = key')) as [->|Hne].
  - rewrite lookup_insert_eq. by eexists.
  - by rewrite lookup_insert_ne.
Qed.

Lemma ttls_storeEvent (sid : string) (message : Message) (now_id : Z) (rnd : string)
    (now : Z) r :
  Redis.ttls (storeEvent sid message now_id rnd now r).2
  = <[stream_key sid := 24 * 60 * 60]>
      (<[event_key (generateEventId sid now_id rnd) := 24 * 60 * 60]> (Redis.ttls r)).
Proof.
  cbn [storeEvent snd].
  rewrite ttls_expire by (rewrite exists_expire; apply exists_zAdd).
  rewrite ttls_expire by (apply exists_zAdd_mono, exists_hSet).
  reflexivity.
Qed.

Lemma zremove_zinsert (t : Z) (member : string) (l : Redis.zset) :
  Redis.zremove member (Redis.zinsert (t, member) l) = Redis.zremove member l.
Proof.
  unfold Redis.zremove. induction l as [|x l IH]; cbn [Redis.zinsert].
  - by rewrite filter_cons_False by (cbn; tauto).
  - case_match.
    + by rewrite filter_cons_False by (cbn; tauto).
    + rewrite !filter_cons, IH. done.
Qed.

Lemma zremove_zremove (member : string) (l : Redis.zset) :
  Redis.zremove member (Redis.zremove member l) = Redis.zremove member l.
Proof.
  unfold Redis.zremove. rewrite list_filter_filter.
  apply list_filter_iff. intros e. tauto.
Qed.

Lemma length_zinsert (e : Z * string) (l : Redis.zset) :
  length (Redis.zinsert e l) = S (length l).
Proof.
  induction l as [|x l IH]; cbn [Redis.zinsert]; [done|].
  case_match; cbn; [done|]. by rewrite IH.
Qed.

Lemma elem_of_zremove (x : Z * string) (member : string) (l : Redis.zset) :
  x ∈ Redis.zremove member l ↔ x.2 ≠ member ∧ x ∈ l.
Proof.
  unfold Redis.zremove.
  exact (list_elem_of_filter (λ e : Z * string, e.2 ≠ member) l x).
Qed.

Lemma replay_loop_ids (ids : list string) r :
  (replay_loop (Message := Message) ids r).*1 `sublist_of` ids.
Proof.
  induction ids as [|e ids IH]; cbn [replay_loop]; [done|].
  repeat case_match; rewrite ?fmap_cons; cbn [fst];
    by (apply sublist_skip || apply sublist_cons).
Qed.

Lemma replay_loop_decoded (ids : list string) r :
  Forall (λ d, ∃ text, Redis.hGetAll (event_key d.1) r !! "message" = Some text
                       ∧ JSON_parse text = Some d.2)
    (replay_loop (Message := Message) ids r).
Proof.
  induction ids as [|e ids IH]; cbn [replay_loop]; [constructor|].
  destruct (Redis.hGetAll (event_key e) r !! "message") as [text|] eqn:Htext; [|done].
  destruct (JS.truthy text); [|done].
  destruct (JSON_parse text) as [message|] eqn:Hparse; [|done].
  constructor; [|done]. cbn. eauto.
Qed.

Lemma replay_loop_ext (ids : list string) r r' :
  Forall (λ e, Redis.hGetAll (event_key e) r' = Redis.hGetAll (event_key e) r) ids →
  replay_loop (Message := Message) ids r' = replay_loop ids r.
Proof.
  induction 1 as [|e ids He _ IH]; [done|].
  cbn [replay_loop]. by rewrite He, IH.
Qed.

(** X2: when the same identifier is generated twice for a stream (same clock
    reading and random suffix), the second [storeEvent] wins: the record
    holds the second message and timestamp, and the index keeps a single
    entry for the identifier, at the second score, without growing. *)
Theorem storeEvent_same_id_last_write_wins
    (sid : string) (m1 m2 : Message) (now_id : Z) (rnd : string) (now1 now2 : Z) r :
  (storeEvent sid m2 now_id rnd now2 (storeEvent sid m1 now_id rnd now1 r).2).1
    = (storeEvent sid m1 now_id rnd now1 r).1
  ∧ Redis.hGetAll (event_key (generateEventId sid now_id rnd))
      (storeEvent sid m2 now_id rnd now2 (storeEvent sid m1 now_id rnd now1 r).2).2
      !! "message" = Some (JSON_stringify m2)
  ∧ Redis.hGetAll (event_key (generateEventId sid now_id rnd))
      (storeEvent sid m2 now_id rnd now2 (storeEvent sid m1 now_id rnd now1 r).2).2
      !! "timestamp" = Some (JS.toString (Some now2))
  ∧ (∀ t, (t, generateEventId sid now_id rnd)
            ∈ index_of sid
                (storeEvent sid m2 now_id rnd now2 (storeEvent sid m1 now_id rnd now1 r).2).2
          ↔ t = now2)
  ∧ length (index_of sid
              (storeEvent sid m2 now_id rnd now2 (storeEvent sid m1 now_id rnd now1 r).2).2)
    = length (index_of sid (storeEvent sid m1 now_id rnd now1 r).2).
Proof.
  split; [done|]. rewrite !hGetAll_storeEvent, !decide_True by done.
  split; [erewrite lookup_union_Some_l; [done|]; by simplify_map_eq|].
  split; [erewrite lookup_union_Some_l; [done|]; by simplify_map_eq|].
  rewrite !index_of_storeEvent, zremove_zinsert, zremove_zremove. split.
  - intros t. rewrite elem_of_zinsert, elem_of_zremove. cbn [snd]. split.
    + intros [Heq | [Hne _]]; [by injection Heq | done].
    + intros ->. by left.
  - by rewrite !length_zinsert.
Qed.

(** X3: whatever the store holds, when [replayEventsAfter] returns a stream
    identifier, that identifier is the one read from [lastEventId], the
    events it sends are taken in index order from the entries whose score is
    strictly above the timestamp stored for [lastEventId], and every message
    it sends is the decoded payload stored under the identifier it is sent
    with. *)
Theorem replayEventsAfter_sound
    (lastEventId : string) r (sid : string) (sent : list (string * Message)) :
  replayEventsAfter lastEventId r = (Returned sid, sent) →
  sid ≠ "" →
  sid = getStreamIdFromEventId lastEventId
  ∧ ∃ ts, JS.parseInt_prop (Redis.hGetAll (event_key lastEventId) r !! "timestamp") = Some ts
      ∧ sent.*1 `sublist_of` (filter (λ e, ts < e.1) (index_of sid r)).*2
      ∧ Forall (λ d, ∃ text, Redis.hGetAll (event_key d.1) r !! "message" = Some text
                             ∧ JSON_parse text = Some d.2) sent.
Proof.
  unfold replayEventsAfter. intros Hrun Hsid.
  destruct (JS.truthy lastEventId); cbn [negb] in Hrun; [|by simplify_eq].
  destruct (JS.truthy (getStreamIdFromEventId lastEventId)); cbn [negb] in Hrun;
    [|by simplify_eq].
  destruct (JS.truthy_prop _); cbn [negb] in Hrun; [|by simplify_eq].
  destruct (JS.parseInt_prop _) as [ts|] eqn:Hts; [|done].
  injection Hrun as <- <-. split; [done|]. exists ts. split; [done|].
  rewrite zRangeByScore_after. split; [apply replay_loop_ids | apply replay_loop_decoded].
Qed.

Lemma zRemRangeByScore_nonempty (key : string) (lo hi : Redis.bound) r (l : Redis.zset) :
  Redis.zsets (Redis.zRemRangeByScore key lo hi r) !! key = Some l → l ≠ [].
Proof.
  unfold Redis.zRemRangeByScore.
  destruct (Redis.zsets r !! key) as [l0|] eqn:Hl0; [|congruence].
  destruct (filter _ l0) as [|x l'] eqn:Hf; cbn.
  - by rewrite lookup_delete_eq.
  - rewrite lookup_insert_eq. by intros [= <-].
Qed.

(** X5: [cleanupOldEvents] twice with the same cutoff leaves the store as
    [cleanupOldEvents] once does. *)
Theorem cleanupOldEvents_idempotent (sid : string) (olderThanMs now : Z) r :
  cleanupOldEvents sid olderThanMs now (cleanupOldEvents sid olderThanMs now r)
  = cleanupOldEvents sid olderThanMs now r.
Proof.
  pose proof (index_of_cleanupOldEvents sid olderThanMs now r) as Hindex.
  assert (Hne : ∀ l, Redis.zsets (cleanupOldEvents sid olderThanMs now r) !! stream_key sid
                     = Some l → l ≠ [])
    by (intros l; apply zRemRangeByScore_nonempty).
  generalize dependent (cleanupOldEvents sid olderThanMs now r). intros r1 Hindex Hne.
  assert (Hnone : Redis.zRangeByScore (stream_key sid) Redis.NegInf
                    (Redis.Score (now - olderThanMs)) r1 = []).
  { rewrite zRangeByScore_index, Hindex, list_filter_filter, filter_none; [done|].
    apply Forall_forall. intros e _ [Hin Hlt]. apply in_range_upto in Hin. lia. }
  unfold cleanupOldEvents. rewrite Hnone. cbn [foldl].
  unfold Redis.zRemRangeByScore.
  destruct (Redis.zsets r1 !! stream_key sid) as [l|] eqn:Hl; [|done].
  assert (Hl' : l = index_of sid r1) by (unfold index_of; by rewrite Hl).
  assert (Hkeep : filter (λ e, Redis.in_range Redis.NegInf
                                 (Redis.Score (now - olderThanMs)) e ≠ true) l = l).
  { apply filter_all. rewrite Hl', Hindex. apply Forall_forall. intros e He.
    apply list_elem_of_filter in He as [Hlt _]. rewrite in_range_upto. lia. }
  rewrite Hkeep. specialize (Hne l eq_refl).
  destruct l as [|x l]; [done|].
  destruct r1 as [hs zs ts]. cbn in *. by rewrite insert_id.
Qed.

End EventLogMore.

Section EventLogRoundTrip.
Context {Message : Type} `{!JSON Message} `{!JSONLaws Message}.
Context `{!JSON SessionManager.SSEState}.
Import RedisEventStore.

Implicit Types (r : Redis.t).

(** X1: what [storeEvent] writes reads back.  It returns the generated
    identifier; the record under that identifier then holds the stream
    identifier, a payload that decodes to the message, and a timestamp that
    parses to the clock reading; the index of the stream holds the
    identifier at that score; and both keys expire after 24 hours. *)
Theorem storeEvent_round_trip
    (sid : string) (message : Message) (now_id : Z) (rnd : string) (now : Z) r :
  (storeEvent sid message now_id rnd now r).1 = generateEventId sid now_id rnd
  ∧ Redis.hGetAll (event_key (generateEventId sid now_id rnd))
      (storeEvent sid message now_id rnd now r).2 !! "streamId" = Some sid
  ∧ Redis.hGetAll (event_key (generateEventId sid now_id rnd))
      (storeEvent sid message now_id rnd now r).2 !! "message" ≫= JSON_parse
    = Some message
  ∧ JS.parseInt_prop
      (Redis.hGetAll (event_key (generateEventId sid now_id rnd))
         (storeEvent sid message now_id rnd now r).2 !! "timestamp") = Some now
  ∧ (now, generateEventId sid now_id rnd)
      ∈ index_of sid (storeEvent sid message now_id rnd now r).2
  ∧ Redis.ttls (storeEvent sid message now_id rnd now r).2
      !! event_key (generateEventId sid now_id rnd) = Some 86400
  ∧ Redis.ttls (storeEvent sid message now_id rnd now r).2 !! stream_key sid = Some 86400.
Proof.
  split; [done|]. rewrite hGetAll_storeEvent, decide_True by done.
  split; [erewrite lookup_union_Some_l; [done|]; by simplify_map_eq|].
  split.
  { erewrite lookup_union_Some_l; [|by simplify_map_eq]. cbn.
    apply JSON_parse_stringify. }
  split.
  { erewrite lookup_union_Some_l; [|by simplify_map_eq]. cbn.
    apply parseInt_toString. }
  split; [rewrite index_of_storeEvent, elem_of_zinsert; by left|].
  rewrite ttls_storeEvent. split.
  - rewrite lookup_insert_ne by apply not_eq_sym, stream_key_not_event.
    by rewrite lookup_insert_eq.
  - by rewrite lookup_insert_eq.
Qed.

(** X4: pruning does not disturb a resume from an event it keeps.  In a
    store the system has produced, if the record of [lastEventId] is not
    among those pruned and its stored timestamp is at or after the cutoff,
    [replayEventsAfter] on the stream that was pruned gives after
    [cleanupOldEvents] what it gave before. *)
Theorem replayEventsAfter_after_cleanupOldEvents
    (sid : string) (olderThanMs now : Z) r (lastEventId : string) (ts : Z) :
  reachable (Message := Message) r →
  getStreamIdFromEventId lastEventId = sid →
  (∀ t, (t, lastEventId) ∈ index_of sid r → now - olderThanMs < t) →
  JS.parseInt_prop (Redis.hGetAll (event_key lastEventId) r !! "timestamp") = Some ts →
  now - olderThanMs ≤ ts →
  replayEventsAfter (Message := Message) lastEventId (cleanupOldEvents sid olderThanMs now r)
  = replayEventsAfter lastEventId r.
Proof.
  intros Hreach Hsid Hkept Hts Hle.
  assert (Hdup : NoDup (index_of sid r).*2).
  { pose proof (reachable_members_distinct r Hreach) as Hinv. unfold index_of.
    destruct (Redis.zsets r !! stream_key sid) as [l|] eqn:Hl; cbn.
    - by eapply Hinv.
    - constructor. }
  assert (Hsame : ∀ e, (∀ t, (t, e) ∈ index_of sid r → now - olderThanMs < t) →
            Redis.hGetAll (event_key e) (cleanupOldEvents sid olderThanMs now r)
            = Redis.hGetAll (event_key e) r).
  { intros e He. unfold Redis.hGetAll.
    rewrite hashes_cleanupOldEvents, bool_decide_eq_false_2; [done|].
    intros Hold. apply list_elem_of_fmap in Hold as (e' & Heq & Hold).
    apply event_key_inj in Heq as <-.
    apply elem_of_old_ids in Hold as (t & Hin & Hle').
    specialize (He t Hin). lia. }
  unfold replayEventsAfter. rewrite Hsid, (Hsame lastEventId Hkept), Hts.
  destruct (JS.truthy lastEventId); [|done]. cbn [negb].
  destruct (JS.truthy sid); [|done]. cbn [negb].
  destruct (JS.truthy_prop _); [|done]. cbn [negb]. f_equal.
  rewrite !zRangeByScore_after, index_of_cleanupOldEvents, list_filter_filter.
  assert (Hfilter : filter (λ e : Z * string, ts < e.1 ∧ now - olderThanMs < e.1)
                      (index_of sid r)
                    = filter (λ e, ts < e.1) (index_of sid r)).
  { apply list_filter_iff. intros e. lia. }
  rewrite Hfilter. apply replay_loop_ext, Forall_forall. intros e He.
  apply list_elem_of_fmap in He as ([t e'] & -> & He).
  apply list_elem_of_filter in He as [Hlt He]. cbn in *.
  apply Hsame. intros t' Hin'.
  pose proof (members_unique_score _ _ _ _ Hdup He Hin'). lia.
Qed.

End EventLogRoundTrip.

(** ** The event log and the registry keep apart; the index stays sorted *)

Section Frames.
Context {Message : Type} `{!JSON Message}.
Context `{!JSON SessionManager.SSEState}.
Import Sdk RedisEventStore.

Implicit Types (r : Redis.t).

Lemma session_key_not_stream (sid streamId : string) :
  stream_key streamId ≠ SessionManager.session_key sid.
Proof. discriminate. Qed.

Lemma zsets_zRemRangeByScore_ne (key key' : string) (lo hi : Redis.bound) r :
  key ≠ key' →
  Redis.zsets (Redis.zRemRangeByScore key lo hi r) !! key' = Redis.zsets r !! key'.
Proof.
  intros Hne. unfold Redis.zRemRangeByScore.
  destruct (Redis.zsets r !! key); [|done].
  destruct (filter _ _); cbn.
  - by rewrite lookup_delete_ne.
  - by rewrite lookup_insert_ne.
Qed.

Lemma session_key_not_in_event_keys (sid : string) (ids : list string) :
  SessionManager.session_key sid ∉ event_key <$> ids.
Proof. intros Hin. apply list_elem_of_fmap in Hin as (e & He & _). done. Qed.

(** X6: the event log never touches the registry: after [storeEvent] and
    after [cleanupOldEvents], for every session, [getSession] and
    [sessionExists] answer as before. *)
Theorem event_log_leaves_registry
    (sid' streamId : string) (message : Message) (now_id : Z) (rnd : string)
    (now olderThanMs : Z) r :
  SessionManager.getSession sid' (storeEvent streamId message now_id rnd now r).2
    = SessionManager.getSession sid' r
  ∧ SessionManager.sessionExists sid' (storeEvent streamId message now_id rnd now r).2
    = SessionManager.sessionExists sid' r
  ∧ SessionManager.getSession sid' (cleanupOldEvents streamId olderThanMs now r)
    = SessionManager.getSession sid' r
  ∧ SessionManager.sessionExists sid' (cleanupOldEvents streamId olderThanMs now r)
    = SessionManager.sessionExists sid' r.
Proof.
  assert (Hh1 : Redis.hashes (storeEvent streamId message now_id rnd now r).2
                  !! SessionManager.session_key sid'
                = Redis.hashes r !! SessionManager.session_key sid').
  { cbn [storeEvent snd]. rewrite !hashes_expire. cbn.
    rewrite lookup_insert_ne; [done|]. apply session_key_not_event. }
  assert (Hz1 : Redis.zsets (storeEvent streamId message now_id rnd now r).2
                  !! SessionManager.session_key sid'
                = Redis.zsets r !! SessionManager.session_key sid').
  { cbn [storeEvent snd]. rewrite !zsets_expire. cbn.
    rewrite lookup_insert_ne; [done|]. apply session_key_not_stream. }
  assert (Hh2 : Redis.hashes (cleanupOldEvents streamId olderThanMs now r)
                  !! SessionManager.session_key sid'
                = Redis.hashes r !! SessionManager.session_key sid').
  { rewrite hashes_cleanupOldEvents, bool_decide_eq_false_2; [done|].
    apply session_key_not_in_event_keys. }
  assert (Hz2 : Redis.zsets (cleanupOldEvents streamId olderThanMs now r)
                  !! SessionManager.session_key sid'
                = Redis.zsets r !! SessionManager.session_key sid').
  { unfold cleanupOldEvents.
    rewrite zsets_zRemRangeByScore_ne by apply session_key_not_stream.
    rewrite zsets_foldl_del, bool_decide_eq_false_2; [done|].
    apply session_key_not_in_event_keys. }
  unfold SessionManager.getSession, SessionManager.sessionExists, Redis.hGetAll,
    Redis.exists_.
  by rewrite Hh1, Hz1, Hh2, Hz2.
Qed.

(** Two stores with the same event records and the same indexes. *)
Lemma replayEventsAfter_ext (lastEventId : string) r r' :
  (∀ e, Redis.hGetAll (event_key e) r' = Redis.hGetAll (event_key e) r) →
  (∀ sid, Redis.zsets r' !! stream_key sid = Redis.zsets r !! stream_key sid) →
  replayEventsAfter (Message := Message) lastEventId r' = replayEventsAfter lastEventId r.
Proof.
  intros Hh Hz. unfold replayEventsAfter, Redis.zRangeByScore.
  rewrite Hh, Hz. repeat case_match; try done.
  f_equal. apply replay_loop_ext, Forall_forall. intros e _. apply Hh.
Qed.

Lemma hGetAll_event_hSet_session (e sid : string) (fields : gmap string string) r :
  Redis.hGetAll (event_key e) (Redis.hSet (SessionManager.session_key sid) fields r)
  = Redis.hGetAll (event_key e) r.
Proof. apply hGetAll_hSet_ne, not_eq_sym, session_key_not_event. Qed.

Lemma replay_markSessionDisconnected (lastEventId sid : string) (now : Z) r :
  replayEventsAfter (Message := Message) lastEventId
    (SessionManager.markSessionDisconnected sid now r)
  = replayEventsAfter lastEventId r.
Proof.
  apply replayEventsAfter_ext.
  - intros e. unfold SessionManager.markSessionDisconnected.
    repeat case_match; try done. apply hGetAll_event_hSet_session.
  - intros streamId. by rewrite zsets_markSessionDisconnected.
Qed.

(** X7: the registry never touches the event log: [replayEventsAfter]
    answers the same after [registerSession], [updateSessionActivity],
    [markSessionDisconnected], [getOrCreateSSETransport], [removeSession]
    and after the close handler of a transport. *)
Theorem registry_leaves_event_log
    (lastEventId sid : string) (transport : nat) (ty : TransportType)
    (now1 now2 now : Z) (res : option nat) (uuid : string) (m : SessionManager.t) :
  replayEventsAfter (Message := Message) lastEventId
      (SessionManager.redis (SessionManager.registerSession sid transport ty now1 now2 m))
    = replayEventsAfter lastEventId (SessionManager.redis m)
  ∧ replayEventsAfter (Message := Message) lastEventId
      (SessionManager.redis (SessionManager.updateSessionActivity sid now m))
    = replayEventsAfter lastEventId (SessionManager.redis m)
  ∧ replayEventsAfter (Message := Message) lastEventId
      (SessionManager.markSessionDisconnected sid now (SessionManager.redis m))
    = replayEventsAfter lastEventId (SessionManager.redis m)
  ∧ replayEventsAfter (Message := Message) lastEventId
      (SessionManager.redis (SessionManager.getOrCreateSSETransport sid res uuid m).1)
    = replayEventsAfter lastEventId (SessionManager.redis m)
  ∧ replayEventsAfter (Message := Message) lastEventId
      (SessionManager.redis (SessionManager.removeSession sid m))
    = replayEventsAfter lastEventId (SessionManager.redis m)
  ∧ replayEventsAfter (Message := Message) lastEventId
      (SessionManager.redis (SessionManager.fire_onclose transport now m))
    = replayEventsAfter lastEventId (SessionManager.redis m).
Proof.
  repeat split.
  - cbn [SessionManager.registerSession SessionManager.redis].
    apply replayEventsAfter_ext.
    + intros e. by rewrite hGetAll_expire, hGetAll_event_hSet_session.
    + intros streamId. by rewrite zsets_expire.
  - unfold SessionManager.updateSessionActivity. case_bool_decide; [|done].
    cbn [SessionManager.redis]. unfold Redis.hSetField.
    apply replayEventsAfter_ext.
    + intros e. by rewrite hGetAll_expire, hGetAll_event_hSet_session.
    + intros streamId. by rewrite zsets_expire.
  - apply replay_markSessionDisconnected.
  - by rewrite getOrCreateSSETransport_manager.
  - cbn [SessionManager.removeSession SessionManager.redis].
    apply replayEventsAfter_ext.
    + intros e. unfold Redis.hGetAll. rewrite hashes_del.
      by rewrite decide_False by apply not_eq_sym, session_key_not_event.
    + intros streamId. cbn [Redis.del Redis.zsets].
      by rewrite lookup_delete_ne by apply not_eq_sym, session_key_not_stream.
  - unfold SessionManager.fire_onclose. case_match; [|done].
    cbn [SessionManager.onclose_handler SessionManager.redis].
    apply replay_markSessionDisconnected.
Qed.

(** *** Sorted indexes *)

Lemma zinsert_sorted (e : Z * string) (l : Redis.zset) :
  StronglySorted by_score l → StronglySorted by_score (Redis.zinsert e l).
Proof.
  induction 1 as [|x l Hsorted IH Hx]; cbn [Redis.zinsert].
  - repeat constructor.
  - destruct (Redis.entry_le e x) eqn:Hle.
    + assert (Hex : by_score e x).
      { unfold Redis.entry_le in Hle. unfold by_score.
        apply orb_true_iff in Hle as [Hlt | Heq].
        - apply bool_decide_eq_true in Hlt. lia.
        - apply andb_true_iff in Heq as [Heq _]. apply bool_decide_eq_true in Heq. lia. }
      constructor; [by constructor|]. constructor; [done|].
      eapply Forall_impl; [exact Hx|]. unfold by_score in *. intros y Hy. lia.
    + assert (Hxe : by_score x e).
      { unfold Redis.entry_le in Hle. unfold by_score.
        apply orb_false_iff in Hle as [Hlt _].
        apply bool_decide_eq_false in Hlt. lia. }
      constructor; [done|]. apply Forall_forall. intros y Hy.
      apply elem_of_zinsert in Hy as [-> | Hy]; [done|].
      by eapply Forall_forall in Hx.
Qed.

Lemma filter_sorted (P : Z * string → Prop) `{!∀ x, Decision (P x)} (l : Redis.zset) :
  StronglySorted by_score l → StronglySorted by_score (filter P l).
Proof.
  induction 1 as [|x l Hsorted IH Hx]; [constructor|].
  rewrite filter_cons. case_decide; [|done].
  constructor; [done|]. apply Forall_forall. intros y Hy.
  apply list_elem_of_filter in Hy as [_ Hy]. by eapply Forall_forall in Hx.
Qed.

Lemma sublist_sorted (l l' : Redis.zset) :
  l' `sublist_of` l → StronglySorted by_score l → StronglySorted by_score l'.
Proof.
  induction 1 as [|x l1 l2 Hsub IH|x l1 l2 Hsub IH]; intros Hsorted; [done|..].
  - apply StronglySorted_inv in Hsorted as [Hsorted Hx].
    constructor; [by apply IH|]. apply Forall_forall. intros y Hy.
    eapply Forall_forall in Hx; [exact Hx|]. by eapply elem_of_sublist.
  - apply StronglySorted_inv in Hsorted as [Hsorted _]. by apply IH.
Qed.

Lemma indexes_sorted_shrinks r r' :
  (∀ key, Redis.zsets r' !! key = Redis.zsets r !! key ∨ Redis.zsets r' !! key = None) →
  indexes_sorted r → indexes_sorted r'.
Proof.
  intros Hsub Hinv key l Hl.
  destruct (Hsub key) as [Heq | Hnone]; [|congruence].
  rewrite Heq in Hl. by eapply Hinv.
Qed.

Lemma indexes_sorted_zsets r r' :
  Redis.zsets r' = Redis.zsets r → indexes_sorted r → indexes_sorted r'.
Proof. intros Heq. apply indexes_sorted_shrinks. intros key. left. by rewrite Heq. Qed.

Lemma indexes_sorted_zRemRangeByScore (key : string) (lo hi : Redis.bound) r :
  indexes_sorted r → indexes_sorted (Redis.zRemRangeByScore key lo hi r).
Proof.
  intros Hinv. unfold Redis.zRemRangeByScore.
  destruct (Redis.zsets r !! key) as [l|] eqn:Hl; [|done].
  destruct (filter _ l) as [|x l'] eqn:Hfilter.
  - eapply indexes_sorted_shrinks; [|done]. intros key'. cbn.
    destruct (decide (key = key')) as [<-|Hne].
    + right. apply lookup_delete_eq.
    + left. by apply lookup_delete_ne.
  - intros key' l'' Hl''. cbn in Hl''.
    destruct (decide (key = key')) as [<-|Hne].
    + rewrite lookup_insert_eq in Hl''. simplify_eq. rewrite <- Hfilter.
      apply filter_sorted. by eapply Hinv.
    + rewrite lookup_insert_ne in Hl'' by done. by eapply Hinv.
Qed.

Lemma step_indexes_sorted r r' :
  step (Message := Message) r r' → indexes_sorted r → indexes_sorted r'.
Proof.
  intros Hstep Hinv. destruct Hstep as
    [m sid tr ty now1 now2 | m sid now | r sid now | m sid res uuid | m sid
    | m tr now | r streamId message now_id rnd now | r streamId olderThanMs now | r key].
  - cbn [SessionManager.registerSession SessionManager.redis].
    eapply indexes_sorted_zsets; [|done]. by rewrite zsets_expire.
  - unfold SessionManager.updateSessionActivity. case_bool_decide; [|done].
    cbn [SessionManager.redis].
    eapply indexes_sorted_zsets; [|done]. by rewrite zsets_expire.
  - eapply indexes_sorted_zsets; [|done]. apply zsets_markSessionDisconnected.
  - eapply indexes_sorted_zsets; [|done].
    unfold SessionManager.getOrCreateSSETransport. by repeat case_match.
  - eapply indexes_sorted_shrinks; [|done]. intros key. cbn.
    destruct (decide (SessionManager.session_key sid = key)) as [<-|Hne].
    + right. apply lookup_delete_eq.
    + left. by apply lookup_delete_ne.
  - eapply indexes_sorted_zsets; [|done].
    unfold SessionManager.fire_onclose. case_match; [|done].
    cbn. apply zsets_markSessionDisconnected.
  - cbn [storeEvent snd]. intros key l Hl. rewrite !zsets_expire in Hl. cbn in Hl.
    destruct (decide (stream_key streamId = key)) as [<-|Hne].
    + rewrite lookup_insert_eq in Hl. simplify_eq.
      apply zinsert_sorted, filter_sorted.
      destruct (Redis.zsets r !! stream_key streamId) as [l|] eqn:Hold; cbn.
      * by eapply Hinv.
      * constructor.
    + rewrite lookup_insert_ne in Hl by done. by eapply Hinv.
  - unfold cleanupOldEvents. apply indexes_sorted_zRemRangeByScore.
    eapply indexes_sorted_shrinks; [|done]. intros key.
    rewrite zsets_foldl_del. case_bool_decide; eauto.
  - eapply indexes_sorted_shrinks; [|done]. intros key'. cbn.
    destruct (decide (key = key')) as [<-|Hne].
    + right. apply lookup_delete_eq.
    + left. by apply lookup_delete_ne.
Qed.

Lemma reachable_indexes_sorted r :
  reachable (Message := Message) r → indexes_sorted r.
Proof.
  unfold reachable. revert r. apply rtc_ind_r.
  - intros key l Hl. cbn in Hl. by rewrite lookup_empty in Hl.
  - intros r r' _ Hstep Hinv. by eapply step_indexes_sorted.
Qed.

(** The events the loop delivers, as entries of the index. *)
Lemma replay_loop_entries (entries : Redis.zset) r :
  ∃ delivered, delivered `sublist_of` entries
               ∧ (replay_loop (Message := Message) entries.*2 r).*1 = delivered.*2.
Proof.
  induction entries as [|[t e] entries (delivered & Hsub & Heq)].
  - exists []. done.
  - rewrite fmap_cons. cbn [replay_loop snd].
    destruct (Redis.hGetAll (event_key e) r !! "message") as [text|];
      [|exists delivered; split; [by apply sublist_cons | done]].
    destruct (JS.truthy text);
      [|exists delivered; split; [by apply sublist_cons | done]].
    destruct (JSON_parse text) as [message|];
      [|exists delivered; split; [by apply sublist_cons | done]].
    exists ((t, e) :: delivered). split; [by apply sublist_skip|].
    rewrite !fmap_cons. cbn. by rewrite Heq.
Qed.

(** X8: in a store the system has produced, [replayEventsAfter] sends the
    events in ascending order of their score in the index: the identifiers
    it sends are those of a run of index entries, each with a score strictly
    above the stored timestamp of [lastEventId], listed by non-decreasing
    score. *)
Theorem replayEventsAfter_ascending
    (lastEventId : string) r (sid : string) (sent : list (string * Message)) :
  reachable (Message := Message) r →
  replayEventsAfter lastEventId r = (Returned sid, sent) →
  sid ≠ "" →
  ∃ delivered, sent.*1 = delivered.*2
    ∧ delivered `sublist_of` index_of sid r
    ∧ StronglySorted by_score delivered
    ∧ ∃ ts, JS.parseInt_prop (Redis.hGetAll (event_key lastEventId) r !! "timestamp")
            = Some ts
            ∧ Forall (λ e, ts < e.1) delivered.
Proof.
  intros Hreach Hrun Hsid.
  assert (Hsorted : StronglySorted by_score (index_of sid r)).
  { pose proof (reachable_indexes_sorted r Hreach) as Hinv. unfold index_of.
    destruct (Redis.zsets r !! stream_key sid) as [l|] eqn:Hl; cbn.
    - by eapply Hinv.
    - constructor. }
  unfold replayEventsAfter in Hrun.
  destruct (JS.truthy lastEventId); cbn [negb] in Hrun; [|by simplify_eq].
  destruct (JS.truthy (getStreamIdFromEventId lastEventId)); cbn [negb] in Hrun;
    [|by simplify_eq].
  destruct (JS.truthy_prop _); cbn [negb] in Hrun; [|by simplify_eq].
  destruct (JS.parseInt_prop _) as [ts|] eqn:Hts; [|done].
  injection Hrun as <- <-. rewrite zRangeByScore_after.
  destruct (replay_loop_entries
              (filter (λ e, ts < e.1) (index_of (getStreamIdFromEventId lastEventId) r)) r)
    as (delivered & Hsub & Heq).
  exists delivered. split; [done|].
  assert (Hsub' : delivered `sublist_of` index_of (getStreamIdFromEventId lastEventId) r).
  { etrans; [exact Hsub|]. apply sublist_filter. }
  split; [done|]. split; [by eapply sublist_sorted|].
  exists ts. split; [done|]. apply Forall_forall. intros e He.
  eapply elem_of_sublist in He; [|exact Hsub].
  by apply list_elem_of_filter in He as [Hlt _].
Qed.

End Frames.

(** ** More on the stateless registry *)

Section RegistryMore.
Context `{!JSON SessionManager.SSEState} `{!JSONLaws SessionManager.SSEState}.
Import Sdk SessionManager.

Implicit Types (r : Redis.t) (m : t).

(** X9: metadata with a session identifier and a transport kind survives
    [serializeMetadata] followed by [deserializeMetadata], numbers that are
    [NaN] and an absent sub-state included. *)
Theorem deserialize_serialize (md : SessionMetadata) :
  is_Some (sessionId md) → is_Some (transportType md) →
  deserializeMetadata (serializeMetadata md) = md.
Proof.
  intros Hs Hty.
  rewrite <- (right_id_L ∅ (∪) (serializeMetadata md)).
  rewrite deserialize_over_serialize by done.
  destruct md as [s ty c l [st|]]; cbn; [done|].
  unfold deserializeMetadata. cbn. by rewrite lookup_empty.
Qed.

Lemma ttls_registerSession (sid : string) (transport : nat) (ty : TransportType)
    (now1 now2 : Z) m :
  Redis.ttls (redis (registerSession sid transport ty now1 now2 m)) !! session_key sid
  = Some 1800.
Proof.
  cbn [registerSession redis]. unfold Redis.expire.
  rewrite exists_hSet, bool_decide_eq_true_2 by done. cbn. by rewrite lookup_insert_eq.
Qed.

(** X10: what [registerSession] writes reads back.  For a non-empty session
    identifier, [getSession] then returns the identifier, the kind and the
    two clock readings; for the kind [sse] the sub-state is a connected one
    with no last event, for the kind [streamable] it is the sub-state the
    record of that session already had, if any.  [sessionExists] is true,
    [isSSEConnected] is true exactly for the kind [sse], [getLocalTransport]
    returns the transport registered, and the record expires after 30
    minutes. *)
Theorem registerSession_round_trip
    (sid : string) (transport : nat) (ty : TransportType) (now1 now2 : Z) m :
  JS.truthy sid = true →
  getSession sid (redis (registerSession sid transport ty now1 now2 m))
  = Some {| sessionId := Some sid;
            transportType := Some (TransportType_str ty);
            createdAt := Some now1;
            lastActive := Some now2;
            sseState :=
              match ty with
              | sse => Some {| isConnected := true; lastEventId := None |}
              | streamable =>
                  sseState (deserializeMetadata
                              (Redis.hGetAll (session_key sid) (redis m)))
              end |}
  ∧ sessionExists sid (redis (registerSession sid transport ty now1 now2 m)) = true
  ∧ isSSEConnected sid (redis (registerSession sid transport ty now1 now2 m))
    = match ty with sse => true | streamable => false end
  ∧ getLocalTransport sid (registerSession sid transport ty now1 now2 m) = Some transport
  ∧ Redis.ttls (redis (registerSession sid transport ty now1 now2 m)) !! session_key sid
    = Some 1800.
Proof.
  intros Hsid.
  assert (Hget : getSession sid (redis (registerSession sid transport ty now1 now2 m))
    = Some {| sessionId := Some sid;
              transportType := Some (TransportType_str ty);
              createdAt := Some now1;
              lastActive := Some now2;
              sseState :=
                match ty with
                | sse => Some {| isConnected := true; lastEventId := None |}
                | streamable =>
                    sseState (deserializeMetadata
                                (Redis.hGetAll (session_key sid) (redis m)))
                end |}).
  { cbn [registerSession redis]. unfold getSession.
    rewrite hGetAll_expire, hGetAll_hSet_eq.
    rewrite (lookup_union_Some_l _ _ "sessionId" sid)
      by (by rewrite serializeMetadata_sessionId).
    cbn [JS.truthy_prop]. rewrite Hsid. cbn [negb].
    rewrite deserialize_over_serialize by (cbn; eauto). cbn. by destruct ty. }
  split; [exact Hget|]. split.
  { cbn [registerSession redis]. unfold sessionExists.
    by rewrite exists_expire, exists_hSet. }
  split.
  { unfold isSSEConnected. rewrite Hget. destruct ty; cbn.
    - by rewrite bool_decide_eq_false_2 by discriminate.
    - by rewrite bool_decide_eq_true_2 by done. }
  split; [apply lookup_insert_eq | apply ttls_registerSession].
Qed.

Lemma deserialize_lastActive (data : gmap string string) (now : Z) :
  deserializeMetadata ({["lastActive" := JS.toString (Some now)]} ∪ data)
  = {| sessionId := sessionId (deserializeMetadata data);
       transportType := transportType (deserializeMetadata data);
       createdAt := createdAt (deserializeMetadata data);
       lastActive := Some now;
       sseState := sseState (deserializeMetadata data) |}.
Proof.
  assert (Hother : ∀ field, field ≠ "lastActive" →
            ({["lastActive" := JS.toString (Some now)]} ∪ data) !! field = data !! field).
  { intros field Hne. apply lookup_union_r. by apply lookup_singleton_ne. }
  unfold deserializeMetadata.
  rewrite (Hother "sessionId"), (Hother "transportType"), (Hother "createdAt"),
    (Hother "sseState") by done.
  rewrite (lookup_union_Some_l _ _ "lastActive" (JS.toString (Some now)))
    by apply lookup_singleton_eq.
  cbn [JS.parseInt_prop]. by rewrite parseInt_toString.
Qed.

Lemma exists_0_or_1 (key : string) r :
  Redis.exists_ key r = 0 ∨ Redis.exists_ key r = 1.
Proof. unfold Redis.exists_. case_bool_decide; auto. Qed.

Lemma updateSessionActivity_missing (sid : string) (now : Z) m :
  sessionExists sid (redis m) = false → updateSessionActivity sid now m = m.
Proof.
  unfold sessionExists, updateSessionActivity. intros Hmissing.
  apply bool_decide_eq_false in Hmissing.
  destruct (exists_0_or_1 (session_key sid) (redis m)) as [H0 | H1]; [|done].
  by rewrite bool_decide_eq_false_2 by (rewrite H0; tauto).
Qed.

Lemma updateSessionActivity_present (sid : string) (now : Z) m :
  sessionExists sid (redis m) = true →
  updateSessionActivity sid now m
  = mkManager
      (Redis.expire (session_key sid) (30 * 60)
         (Redis.hSet (session_key sid) {["lastActive" := JS.toString (Some now)]} (redis m)))
      (nodeId m) (localTransports m) (heap m).
Proof.
  unfold sessionExists, updateSessionActivity. intros Hex.
  apply bool_decide_eq_true in Hex. by rewrite bool_decide_eq_true_2 by (rewrite Hex; done).
Qed.

Lemma sessionExists_updateSessionActivity (sid : string) (now : Z) m :
  sessionExists sid (redis (updateSessionActivity sid now m)) = sessionExists sid (redis m).
Proof.
  destruct (sessionExists sid (redis m)) eqn:Hex.
  - rewrite updateSessionActivity_present by done. cbn [redis].
    unfold sessionExists. by rewrite exists_expire, exists_hSet.
  - by rewrite updateSessionActivity_missing.
Qed.

Lemma localTransports_updateSessionActivity (sid : string) (now : Z) m :
  localTransports (updateSessionActivity sid now m) = localTransports m
  ∧ heap (updateSessionActivity sid now m) = heap m.
Proof. unfold updateSessionActivity. by case_bool_decide. Qed.

Lemma getSession_sessionExists (sid : string) r (md : SessionMetadata) :
  getSession sid r = Some md → sessionExists sid r = true.
Proof.
  intros Hmd. destruct (getSession_Some sid r md Hmd) as (data & s & Hdata & _).
  unfold sessionExists, Redis.exists_.
  rewrite (bool_decide_eq_true_2 (_ ∨ _)) by (left; by eexists). done.
Qed.

Lemma getSession_updateSessionActivity (sid : string) (now : Z) m :
  getSession sid (redis (updateSessionActivity sid now m))
  = match getSession sid (redis m) with
    | Some md => Some {| sessionId := sessionId md;
                         transportType := transportType md;
                         createdAt := createdAt md;
                         lastActive := Some now;
                         sseState := sseState md |}
    | None => None
    end.
Proof.
  destruct (sessionExists sid (redis m)) eqn:Hex.
  - rewrite updateSessionActivity_present by done. cbn [redis].
    unfold getSession. rewrite hGetAll_expire, hGetAll_hSet_eq.
    rewrite lookup_union_r by (by apply lookup_singleton_ne).
    destruct (JS.truthy_prop (Redis.hGetAll (session_key sid) (redis m) !! "sessionId"));
      cbn [negb]; [|done].
    by rewrite deserialize_lastActive.
  - rewrite updateSessionActivity_missing by done.
    destruct (getSession sid (redis m)) as [md|] eqn:Hmd; [|done].
    apply getSession_sessionExists in Hmd. congruence.
Qed.

(** X11: [updateSessionActivity] never creates and never deletes a record.
    On a session with no key in the store it changes nothing; on a record
    that [getSession] reads it sets [lastActive] to the clock reading,
    leaves the other fields, and renews the 30 minutes; the local cache is
    never touched. *)
Theorem updateSessionActivity_touch (sid : string) (now : Z) m :
  sessionExists sid (redis (updateSessionActivity sid now m)) = sessionExists sid (redis m)
  ∧ localTransports (updateSessionActivity sid now m) = localTransports m
  ∧ (sessionExists sid (redis m) = false → updateSessionActivity sid now m = m)
  ∧ (∀ md, getSession sid (redis m) = Some md →
       getSession sid (redis (updateSessionActivity sid now m))
       = Some {| sessionId := sessionId md;
                 transportType := transportType md;
                 createdAt := createdAt md;
                 lastActive := Some now;
                 sseState := sseState md |}
       ∧ Redis.ttls (redis (updateSessionActivity sid now m)) !! session_key sid
         = Some 1800).
Proof.
  split; [apply sessionExists_updateSessionActivity|].
  split; [apply localTransports_updateSessionActivity|].
  split; [apply updateSessionActivity_missing|].
  intros md Hmd. split; [by rewrite getSession_updateSessionActivity, Hmd|].
  rewrite updateSessionActivity_present by (by eapply getSession_sessionExists).
  cbn [redis]. unfold Redis.expire.
  rewrite exists_hSet, bool_decide_eq_true_2 by done. cbn. by rewrite lookup_insert_eq.
Qed.

(** X12: when the record is missing or not of kind [sse], when the local
    cache already holds an SSE transport for the session, and when no
    response object is given, [getOrCreateSSETransport] leaves the manager
    as it was and returns: the answer is the cached SSE transport if the
    record is of kind [sse] and there is one, [null] otherwise. *)
Theorem getOrCreateSSETransport_unchanged
    (sid : string) (res : option nat) (uuid : string) m :
  getSession sid (redis m) = None
  ∨ (∃ md, getSession sid (redis m) = Some md ∧ transportType md ≠ Some "sse")
  ∨ instanceof_SSE (heap m) (localTransports m !! sid) = true
  ∨ res = None →
  (getOrCreateSSETransport sid res uuid m).1 = m
  ∧ (getOrCreateSSETransport sid res uuid m).2
    = Resolved
        match getSession sid (redis m) with
        | Some md =>
            if bool_decide (transportType md = Some "sse")
               && instanceof_SSE (heap m) (localTransports m !! sid)
            then localTransports m !! sid
            else None
        | None => None
        end.
Proof.
  intros Hcase. unfold getOrCreateSSETransport.
  destruct (getSession sid (redis m)) as [md|] eqn:Hmd; [|done].
  case_bool_decide as Hty; cbn [negb andb]; [|done].
  destruct (instanceof_SSE (heap m) (localTransports m !! sid)) eqn:Hinst; [done|].
  destruct Hcase as [Hnone | [(md' & Hmd' & Hty') | [Htrue | ->]]]; try done.
  by simplify_eq.
Qed.

End RegistryMore.

(** ** Isolation of sessions, and the sweeps *)

Section SweepsMore.
Context {Message : Type} `{!JSON Message}.
Context `{!JSON SessionManager.SSEState} `{!JSONLaws SessionManager.SSEState}.
Import Sdk SessionManager Sweeps.

Implicit Types (r : Redis.t) (m : t).

Lemma same_key_same_session (sid : string) r r' :
  Redis.hashes r' !! session_key sid = Redis.hashes r !! session_key sid →
  Redis.zsets r' !! session_key sid = Redis.zsets r !! session_key sid →
  getSession sid r' = getSession sid r ∧ sessionExists sid r' = sessionExists sid r.
Proof.
  intros Hh Hz. unfold getSession, sessionExists, Redis.hGetAll, Redis.exists_.
  by rewrite Hh, Hz.
Qed.

Lemma hSet_other_session (sid sid' : string) (fields : gmap string string) r :
  sid ≠ sid' →
  getSession sid' (Redis.hSet (session_key sid) fields r) = getSession sid' r
  ∧ sessionExists sid' (Redis.hSet (session_key sid) fields r) = sessionExists sid' r.
Proof.
  intros Hne. apply same_key_same_session; [|done]. cbn.
  apply lookup_insert_ne. intros Heq. by apply session_key_inj in Heq.
Qed.

Lemma expire_same_session (key : string) (seconds : Z) (sid' : string) r :
  getSession sid' (Redis.expire key seconds r) = getSession sid' r
  ∧ sessionExists sid' (Redis.expire key seconds r) = sessionExists sid' r.
Proof. apply same_key_same_session; by rewrite ?hashes_expire, ?zsets_expire. Qed.

Lemma markSessionDisconnected_other (sid sid' : string) (now : Z) r :
  sid ≠ sid' →
  getSession sid' (markSessionDisconnected sid now r) = getSession sid' r
  ∧ sessionExists sid' (markSessionDisconnected sid now r) = sessionExists sid' r.
Proof.
  intros Hne. unfold markSessionDisconnected.
  repeat case_match; try done. by apply hSet_other_session.
Qed.

(** X14: the operations on one session leave every other session alone:
    after [registerSession], [updateSessionActivity],
    [getOrCreateSSETransport], [removeSession] and the close handler for
    [sid], every other session has the record, the presence in the store
    and the local handle it had. *)
Theorem other_sessions_untouched
    (sid sid' : string) (transport : nat) (ty : TransportType) (now1 now2 now : Z)
    (res : option nat) (uuid : string) m :
  sid ≠ sid' →
  untouched sid' m (registerSession sid transport ty now1 now2 m)
  ∧ untouched sid' m (updateSessionActivity sid now m)
  ∧ untouched sid' m (getOrCreateSSETransport sid res uuid m).1
  ∧ untouched sid' m (removeSession sid m)
  ∧ untouched sid' m (onclose_handler sid now m).
Proof.
  intros Hne. unfold untouched, getLocalTransport. repeat split.
  - cbn [registerSession redis].
    rewrite (proj1 (expire_same_session _ _ _ _)). by apply hSet_other_session.
  - cbn [registerSession redis].
    rewrite (proj2 (expire_same_session _ _ _ _)). by apply hSet_other_session.
  - cbn [registerSession localTransports]. by apply lookup_insert_ne.
  - unfold updateSessionActivity. case_bool_decide; [|done]. cbn [redis].
    rewrite (proj1 (expire_same_session _ _ _ _)). by apply hSet_other_session.
  - unfold updateSessionActivity. case_bool_decide; [|done]. cbn [redis].
    rewrite (proj2 (expire_same_session _ _ _ _)). by apply hSet_other_session.
  - unfold updateSessionActivity. by case_bool_decide.
  - by rewrite getOrCreateSSETransport_manager.
  - by rewrite getOrCreateSSETransport_manager.
  - by rewrite getOrCreateSSETransport_manager.
  - cbn [removeSession redis]. apply same_key_same_session; cbn.
    + apply lookup_delete_ne. intros Heq. by apply session_key_inj in Heq.
    + apply lookup_delete_ne. intros Heq. by apply session_key_inj in Heq.
  - cbn [removeSession redis]. apply same_key_same_session; cbn.
    + apply lookup_delete_ne. intros Heq. by apply session_key_inj in Heq.
    + apply lookup_delete_ne. intros Heq. by apply session_key_inj in Heq.
  - cbn [removeSession localTransports]. by apply lookup_delete_ne.
  - cbn [onclose_handler redis]. by apply markSessionDisconnected_other.
  - cbn [onclose_handler redis]. by apply markSessionDisconnected_other.
  - cbn [onclose_handler localTransports]. by apply lookup_delete_ne.
Qed.

(** *** [cleanupExpiredSessions] *)

Lemma cleanup_loop_spec (keys : list string) m :
  redis (cleanup_loop keys m) = redis m
  ∧ nodeId (cleanup_loop keys m) = nodeId m
  ∧ heap (cleanup_loop keys m) = heap m
  ∧ ∀ sid, localTransports (cleanup_loop keys m) !! sid
           = if bool_decide (sid ∈ keys ∧ getSession sid (redis m) = None) then None
             else localTransports m !! sid.
Proof.
  revert m. induction keys as [|k keys IH]; intros m.
  { by repeat split. }
  unfold cleanup_loop. cbn [foldl]. fold (cleanup_loop keys (cleanup_step m k)).
  destruct (IH (cleanup_step m k)) as (Hr & Hn & Hh & Hl).
  assert (Hstep : redis (cleanup_step m k) = redis m ∧ nodeId (cleanup_step m k) = nodeId m
                  ∧ heap (cleanup_step m k) = heap m).
  { unfold cleanup_step. by case_match. }
  destruct Hstep as (Hr' & Hn' & Hh').
  rewrite Hr, Hn, Hh, Hr', Hn', Hh'. repeat split. intros sid. rewrite Hl, Hr'.
  unfold cleanup_step.
  destruct (decide (sid = k)) as [->|Hne].
  - destruct (getSession k (redis m)) as [md|] eqn:Hmd.
    + rewrite !bool_decide_eq_false_2 by (intros [_ ?]; done). done.
    + rewrite (bool_decide_eq_true_2 (k ∈ k :: keys ∧ _))
        by (split; [apply list_elem_of_here | done]).
      case_bool_decide; [done|]. cbn. apply lookup_delete_eq.
  - assert (Hiff : (sid ∈ keys ∧ getSession sid (redis m) = None)
                   ↔ (sid ∈ k :: keys ∧ getSession sid (redis m) = None)).
    { rewrite elem_of_cons.
      split; [intros [Hin Hnone]; split; [by right | done]|].
      intros [[Heq | Hin] Hnone]; [congruence | done]. }
    rewrite (bool_decide_ext _ _ Hiff). case_bool_decide; [done|].
    case_match; [done|]. cbn. by apply lookup_delete_ne.
Qed.

Lemma elem_of_getLocalSessions (sid : string) m :
  sid ∈ getLocalSessions m ↔ is_Some (localTransports m !! sid).
Proof.
  unfold getLocalSessions. rewrite list_elem_of_fmap. split.
  - intros ([k v] & -> & Hin). apply elem_of_map_to_list in Hin. by eexists.
  - intros [v Hv]. exists (sid, v). split; [done|]. by apply elem_of_map_to_list.
Qed.

(** X15: [cleanupExpiredSessions] only reconciles the local cache with the
    store: the store and the transports are left as they are, a handle is
    kept exactly when [getSession] still reads the record of its session,
    and the outcome is the same in whatever order the local sessions are
    visited; a second sweep changes nothing. *)
Theorem cleanupExpiredSessions_reconciles m :
  redis (cleanupExpiredSessions m) = redis m
  ∧ heap (cleanupExpiredSessions m) = heap m
  ∧ (∀ sid, getLocalTransport sid (cleanupExpiredSessions m)
            = match getSession sid (redis m) with
              | Some _ => getLocalTransport sid m
              | None => None
              end)
  ∧ (∀ keys, (∀ sid, sid ∈ keys ↔ is_Some (localTransports m !! sid)) →
             cleanup_loop keys m = cleanupExpiredSessions m)
  ∧ cleanupExpiredSessions (cleanupExpiredSessions m) = cleanupExpiredSessions m.
Proof.
  assert (Hspec : ∀ keys, (∀ sid, sid ∈ keys ↔ is_Some (localTransports m !! sid)) →
            redis (cleanup_loop keys m) = redis m
            ∧ nodeId (cleanup_loop keys m) = nodeId m
            ∧ heap (cleanup_loop keys m) = heap m
            ∧ ∀ sid, localTransports (cleanup_loop keys m) !! sid
                     = match getSession sid (redis m) with
                       | Some _ => localTransports m !! sid
                       | None => None
                       end).
  { intros keys Hkeys. destruct (cleanup_loop_spec keys m) as (Hr & Hn & Hh & Hl).
    repeat split; try done. intros sid. rewrite Hl.
    destruct (getSession sid (redis m)) as [md|] eqn:Hmd.
    - by rewrite bool_decide_eq_false_2 by (intros [_ ?]; done).
    - case_bool_decide as Hin; [done|].
      destruct (localTransports m !! sid) as [tr|] eqn:Htr; [|done].
      exfalso. apply Hin. split; [|done]. apply Hkeys. by eexists. }
  assert (Heq : ∀ m1 m2 : t, redis m1 = redis m2 → nodeId m1 = nodeId m2 →
            heap m1 = heap m2 → (∀ sid, localTransports m1 !! sid = localTransports m2 !! sid) →
            m1 = m2).
  { intros [r1 n1 l1 h1] [r2 n2 l2 h2]. cbn. intros -> -> -> Hl. f_equal. by apply map_eq. }
  destruct (Hspec (getLocalSessions m) (λ sid, elem_of_getLocalSessions sid m))
    as (Hr & Hn & Hh & Hl).
  fold (cleanupExpiredSessions m) in Hr, Hn, Hh, Hl.
  split; [done|]. split; [done|]. split; [exact Hl|]. split.
  - intros keys Hkeys. destruct (Hspec keys Hkeys) as (Hr' & Hn' & Hh' & Hl').
    apply Heq; try congruence. intros sid. by rewrite Hl, Hl'.
  - destruct (cleanup_loop_spec (getLocalSessions (cleanupExpiredSessions m))
                (cleanupExpiredSessions m)) as (Hr' & Hn' & Hh' & Hl').
    fold (cleanupExpiredSessions (cleanupExpiredSessions m)) in Hr', Hn', Hh', Hl'.
    apply Heq; try done. intros sid. rewrite Hl', Hr, Hl.
    case_bool_decide as Hin; [|done]. destruct Hin as [_ Hnone]. by rewrite Hnone.
Qed.

End SweepsMore.

(** ** Graceful shutdown *)

Section Shutdown.
Context {Message : Type} `{!JSON Message}.
Context `{!JSON SessionManager.SSEState} `{!JSONLaws SessionManager.SSEState}.
Import Sdk SessionManager Sweeps.

Implicit Types (r : Redis.t) (m : t).

Lemma exists_markSessionDisconnected (key sid : string) (now : Z) r :
  Redis.exists_ key (markSessionDisconnected sid now r) = Redis.exists_ key r.
Proof.
  unfold markSessionDisconnected.
  destruct (getSession sid r) as [md|] eqn:Hmd; [|done].
  destruct (sseState md) as [st|]; [|done]. case_bool_decide; [|done].
  destruct (getSession_Some sid r md Hmd) as (data & s & Hdata & _).
  unfold Redis.exists_. cbn.
  destruct (decide (session_key sid = key)) as [<-|Hne].
  - rewrite lookup_insert_eq, Hdata.
    rewrite !bool_decide_eq_true_2; [done|left; by eexists|left; by eexists].
  - by rewrite lookup_insert_ne.
Qed.

Lemma reachable_markSessionDisconnected (sid : string) (now : Z) r :
  reachable (Message := Message) r →
  reachable (Message := Message) (markSessionDisconnected sid now r).
Proof. intros Hr. eapply rtc_r; [exact Hr|]. apply step_markSessionDisconnected. Qed.

Lemma isSSEConnected_same (sid : string) r r' :
  getSession sid r' = getSession sid r → isSSEConnected sid r' = isSSEConnected sid r.
Proof. unfold isSSEConnected. by intros ->. Qed.

Lemma markSessionDisconnected_disconnects (sid : string) (now : Z) r (md : SessionMetadata) :
  reachable (Message := Message) r →
  getSession sid r = Some md → transportType md = Some "sse" →
  isSSEConnected sid (markSessionDisconnected sid now r) = false
  ∧ ∃ md', getSession sid (markSessionDisconnected sid now r) = Some md'
           ∧ transportType md' = Some "sse".
Proof.
  intros Hreach Hmd Hty.
  pose proof (reachable_decode r Hreach) as Hinv.
  destruct (getSession_Some sid r md Hmd) as (data & s & Hdata & Hs & Hts & Heq).
  assert (Hty' : data !! "transportType" = Some "sse") by (by subst md).
  destruct (Hinv sid data Hdata Hty') as (blob & st & Hblob & Htb & Hparse).
  assert (Hst : sseState md = Some st).
  { subst md. unfold deserializeMetadata. cbn. by rewrite Hblob, Htb. }
  destruct (markSessionDisconnected_on_sse sid now r md st Hmd Hty Hst)
    as (_ & Hget & _ & Hdisc).
  split; [done|]. eexists. split; [exact Hget | done].
Qed.

Lemma markSessionDisconnected_keeps_disconnected (sid sid' : string) (now : Z) r :
  isSSEConnected sid r = false →
  isSSEConnected sid (markSessionDisconnected sid' now r) = false.
Proof.
  intros Hdisc. destruct (decide (sid' = sid)) as [->|Hne].
  - destruct (getSession sid r) as [md|] eqn:Hmd.
    + destruct (sseState md) as [st|] eqn:Hst.
      * destruct (decide (transportType md = Some "sse")) as [Hty|Hty].
        -- by destruct (markSessionDisconnected_on_sse sid now r md st Hmd Hty Hst)
             as (_ & _ & _ & ?).
        -- unfold markSessionDisconnected.
           by rewrite Hmd, Hst, bool_decide_eq_false_2.
      * unfold markSessionDisconnected. by rewrite Hmd, Hst.
    + unfold markSessionDisconnected. by rewrite Hmd.
  - rewrite (isSSEConnected_same sid r); [done|].
    by apply markSessionDisconnected_other.
Qed.

Lemma streaming_record_mark (sid sid' : string) (now : Z) r :
  streaming_record (Message := Message) sid r → streaming_record (Message := Message) sid (markSessionDisconnected sid' now r).
Proof.
  intros [Hreach (md & Hmd & Hty)].
  split; [by apply reachable_markSessionDisconnected|].
  destruct (decide (sid' = sid)) as [->|Hne].
  - by destruct (markSessionDisconnected_disconnects sid now r md Hreach Hmd Hty) as [_ ?].
  - exists md. split; [|done].
    by rewrite (proj1 (markSessionDisconnected_other sid' sid now r Hne)).
Qed.

(** The store after one turn of the loop: the store before, with at most
    two calls of [markSessionDisconnected] made on it. *)
Lemma shutdown_step_redis (Q : Redis.t → Prop) (clock : string → Z * Z) m (k : string) :
  (∀ sid now r, Q r → Q (markSessionDisconnected sid now r)) →
  Q (redis m) → Q (redis (shutdown_step clock m k)).
Proof.
  intros Hmark HQ. unfold shutdown_step.
  destruct (localTransports m !! k) as [tr|]; [|done].
  unfold fire_onclose. cbn [heap].
  destruct (heap m !! tr ≫= t_onclose) as [h|]; cbn [onclose_handler redis];
    destruct (instanceof_SSE (heap m) (Some tr)); auto.
Qed.

Lemma shutdown_loop_redis (Q : Redis.t → Prop) (clock : string → Z * Z)
    (keys : list string) m :
  (∀ sid now r, Q r → Q (markSessionDisconnected sid now r)) →
  Q (redis m) → Q (redis (shutdown_loop clock keys m)).
Proof.
  intros Hmark. revert m. induction keys as [|k keys IH]; intros m HQ; [done|].
  unfold shutdown_loop. cbn [foldl]. apply IH. by apply shutdown_step_redis.
Qed.

Lemma getSession_del (sid : string) r :
  getSession sid (Redis.del (session_key sid) r) = None.
Proof.
  unfold getSession, Redis.hGetAll. rewrite hashes_del, decide_True by done.
  cbn. by rewrite lookup_empty.
Qed.

(** X13: no method but [registerSession] marks a session connected.  A
    session for which [isSSEConnected] answers false is still answered
    false after [updateSessionActivity], [markSessionDisconnected],
    [getOrCreateSSETransport] and [removeSession] for any session, after
    the close handler of any transport, and after [cleanupExpiredSessions]
    and [shutdown]. *)
Theorem only_registerSession_connects
    (sid sid' : string) (now : Z) (res : option nat) (uuid : string) (transport : nat)
    (clock : string → Z * Z) m :
  isSSEConnected sid (redis m) = false →
  isSSEConnected sid (redis (updateSessionActivity sid' now m)) = false
  ∧ isSSEConnected sid (markSessionDisconnected sid' now (redis m)) = false
  ∧ isSSEConnected sid (redis (getOrCreateSSETransport sid' res uuid m).1) = false
  ∧ isSSEConnected sid (redis (removeSession sid' m)) = false
  ∧ isSSEConnected sid (redis (fire_onclose transport now m)) = false
  ∧ isSSEConnected sid (redis (cleanupExpiredSessions m)) = false
  ∧ isSSEConnected sid (redis (shutdown clock m)) = false.
Proof.
  intros Hdisc. repeat split.
  - destruct (decide (sid' = sid)) as [->|Hne].
    + unfold isSSEConnected in *. rewrite getSession_updateSessionActivity.
      by destruct (getSession sid (redis m)).
    + rewrite <- Hdisc. apply isSSEConnected_same.
      unfold updateSessionActivity. case_bool_decide; [|done]. cbn [redis].
      rewrite (proj1 (expire_same_session _ _ _ _)). by apply hSet_other_session.
  - by apply markSessionDisconnected_keeps_disconnected.
  - by rewrite getOrCreateSSETransport_manager.
  - cbn [removeSession redis]. destruct (decide (sid' = sid)) as [->|Hne].
    + unfold isSSEConnected. by rewrite getSession_del.
    + rewrite <- Hdisc. apply isSSEConnected_same.
      apply same_key_same_session; cbn;
        apply lookup_delete_ne; intros Heq; by apply session_key_inj in Heq.
  - unfold fire_onclose. destruct (heap m !! transport ≫= t_onclose) as [h|]; [|done].
    cbn [onclose_handler redis]. by apply markSessionDisconnected_keeps_disconnected.
  - unfold cleanupExpiredSessions.
    by rewrite (proj1 (cleanup_loop_spec (getLocalSessions m) m)).
  - unfold shutdown. cbn [redis].
    apply (shutdown_loop_redis (λ r, isSSEConnected sid r = false)); [|done].
    intros k t r Hr. by apply markSessionDisconnected_keeps_disconnected.
Qed.

Lemma shutdown_step_heap (clock : string → Z * Z) m (k : string) :
  heap (shutdown_step clock m k) = heap m.
Proof.
  unfold shutdown_step. destruct (localTransports m !! k) as [tr|]; [|done].
  unfold fire_onclose. cbn [heap]. by destruct (heap m !! tr ≫= t_onclose).
Qed.

Lemma shutdown_step_own (clock : string → Z * Z) m (sid : string) (tr : nat) :
  streaming_record (Message := Message) sid (redis m) →
  localTransports m !! sid = Some tr →
  instanceof_SSE (heap m) (Some tr) = true →
  isSSEConnected sid (redis (shutdown_step clock m sid)) = false.
Proof.
  intros [Hreach (md & Hmd & Hty)] Hlocal Hinst.
  unfold shutdown_step. rewrite Hlocal, Hinst.
  destruct (markSessionDisconnected_disconnects sid (clock sid).1 (redis m) md
              Hreach Hmd Hty) as [Hdisc _].
  unfold fire_onclose. cbn [heap].
  destruct (heap m !! tr ≫= t_onclose) as [h|]; cbn [onclose_handler redis]; [|done].
  by apply markSessionDisconnected_keeps_disconnected.
Qed.

Lemma shutdown_step_other (clock : string → Z * Z) m (sid k : string) (tr : nat) :
  k ≠ sid →
  streaming_record (Message := Message) sid (redis m) →
  localTransports m !! sid = Some tr →
  isSSEConnected sid (redis (shutdown_step clock m k)) = false
  ∨ localTransports (shutdown_step clock m k) !! sid = Some tr.
Proof.
  intros Hne Hgood Hlocal. unfold shutdown_step.
  destruct (localTransports m !! k) as [trk|]; [|by right].
  unfold fire_onclose. cbn [heap].
  destruct (heap m !! trk ≫= t_onclose) as [h|];
    cbn [onclose_handler redis localTransports]; [|by right].
  destruct (decide (h = sid)) as [->|Hh].
  - left.
    assert (Hgood' : streaming_record (Message := Message) sid
              (if instanceof_SSE (heap m) (Some trk)
               then markSessionDisconnected k (clock k).1 (redis m) else redis m)).
    { destruct (instanceof_SSE _ _); [by apply streaming_record_mark | done]. }
    destruct Hgood' as [Hreach (md & Hmd & Hty)].
    by destruct (markSessionDisconnected_disconnects sid (clock k).2 _ md Hreach Hmd Hty).
  - right. by rewrite lookup_delete_ne.
Qed.

Lemma shutdown_loop_disconnects (clock : string → Z * Z) (heap0 : gmap nat Transport)
    (sid : string) (tr : nat) (keys : list string) m :
  instanceof_SSE heap0 (Some tr) = true →
  heap m = heap0 →
  streaming_record (Message := Message) sid (redis m) →
  isSSEConnected sid (redis m) = false
    ∨ (localTransports m !! sid = Some tr ∧ sid ∈ keys) →
  isSSEConnected sid (redis (shutdown_loop clock keys m)) = false.
Proof.
  intros Hinst. revert m. induction keys as [|k keys IH]; intros m Hheap Hgood Hcase.
  { destruct Hcase as [Hdisc | [_ Hin]]; [done | by apply elem_of_nil in Hin]. }
  unfold shutdown_loop. cbn [foldl]. fold (shutdown_loop clock keys (shutdown_step clock m k)).
  apply IH.
  - by rewrite shutdown_step_heap.
  - apply (shutdown_step_redis (streaming_record (Message := Message) sid)); [|done].
    intros sid' now r. apply streaming_record_mark.
  - destruct Hcase as [Hdisc | [Hlocal Hin]].
    + left. apply (shutdown_step_redis (λ r, isSSEConnected sid r = false)); [|done].
      intros sid' now r. apply markSessionDisconnected_keeps_disconnected.
    + destruct (decide (k = sid)) as [->|Hne].
      * left. eapply shutdown_step_own; [done|done|by rewrite Hheap].
      * apply elem_of_cons in Hin as [Heq | Hin]; [congruence|].
        destruct (shutdown_step_other clock m sid k tr Hne Hgood Hlocal) as [Hd | Hl];
          [by left | by right].
Qed.

(** X17: [shutdown] empties the local cache and deletes no record: for every
    session [sessionExists] answers as before.  In a store the system has
    produced, every session that the node holds through an SSE transport and
    whose record is of kind [sse] is left not connected. *)
Theorem shutdown_marks_disconnected (clock : string → Z * Z) m :
  localTransports (shutdown clock m) = ∅
  ∧ heap (shutdown clock m) = heap m
  ∧ (∀ sid, sessionExists sid (redis (shutdown clock m)) = sessionExists sid (redis m))
  ∧ (∀ sid tr md,
       reachable (Message := Message) (redis m) →
       localTransports m !! sid = Some tr →
       instanceof_SSE (heap m) (Some tr) = true →
       getSession sid (redis m) = Some md →
       transportType md = Some "sse" →
       isSSEConnected sid (redis (shutdown clock m)) = false).
Proof.
  split; [done|]. split.
  { cbn [shutdown heap]. generalize (getLocalSessions m). intros keys. revert m.
    induction keys as [|k keys IH]; intros m; [done|].
    unfold shutdown_loop. cbn [foldl].
    fold (shutdown_loop clock keys (shutdown_step clock m k)).
    by rewrite IH, shutdown_step_heap. }
  split.
  { intros sid. cbn [shutdown redis]. unfold sessionExists.
    assert (Hsame : Redis.exists_ (session_key sid)
                      (redis (shutdown_loop clock (getLocalSessions m) m))
                    = Redis.exists_ (session_key sid) (redis m)).
    { apply (shutdown_loop_redis
               (λ r, Redis.exists_ (session_key sid) r
                     = Redis.exists_ (session_key sid) (redis m))); [|done].
      intros sid' now r Hr. by rewrite exists_markSessionDisconnected. }
    by rewrite Hsame. }
  intros sid tr md Hreach Hlocal Hinst Hmd Hty. cbn [shutdown redis].
  apply (shutdown_loop_disconnects clock (heap m) sid tr); try done.
  - split; [done|]. by exists md.
  - right. split; [done|]. apply elem_of_getLocalSessions. by eexists.
Qed.

End Shutdown.
(** ** Request dispatch of the stateless server *)

Section Router.
Context `{!JSON SessionManager.SSEState}.
Import Sdk SessionManager Server.

Implicit Types (m : SessionManager.t) (sid : string).

(** X18: [POST /messages].  Without a session identifier the answer is 400
    and nothing is touched; for an identifier with no key in the store it is
    404 and nothing is touched; for a session of the store the activity is
    renewed, and the message goes to the SSE transport of the local cache if
    there is one, the answer being 410 otherwise. *)
Theorem post_messages_outcomes (sessionId : option string) (now : Z) m :
  (given sessionId = None →
     post_messages sessionId now m = (m, Json 400 (-32000) "Missing sessionId parameter"))
  ∧ (∀ sid, given sessionId = Some sid →
       (sessionExists sid (redis m) = false →
          post_messages sessionId now m = (m, Json 404 (-32000) "Session not found"))
       ∧ (sessionExists sid (redis m) = true →
            (∀ tr, localTransports m !! sid = Some tr →
                   instanceof_SSE (heap m) (Some tr) = true →
                   post_messages sessionId now m
                   = (updateSessionActivity sid now m, HandlePostMessage tr))
            ∧ (instanceof_SSE (heap m) (localTransports m !! sid) = false →
                 post_messages sessionId now m
                 = (updateSessionActivity sid now m,
                    Json 410 (-32000)
                      "SSE connection lost. Client should reconnect to /sse endpoint.")))).
Proof.
  split; [intros Hnone; unfold post_messages; by rewrite Hnone|].
  intros sid Hsid. unfold post_messages. rewrite Hsid.
  rewrite sessionExists_updateSessionActivity. unfold getLocalTransport.
  destruct (localTransports_updateSessionActivity sid now m) as [-> ->].
  split.
  - intros Hex. rewrite Hex. by rewrite updateSessionActivity_missing.
  - intros Hex. rewrite Hex. split.
    + intros tr Htr Hinst. by rewrite Htr, Hinst.
    + intros Hinst. destruct (localTransports m !! sid) as [tr|]; [|done].
      by rewrite Hinst.
Qed.

(** X19: [/mcp].  A request that carries a session identifier never opens a
    session: the activity of that session is renewed and the request goes
    to the streamable transport of the local cache if there is one, to a
    transport restored under the same identifier if the record is of kind
    [streamable], and is refused otherwise, with 404 when the store has no
    key for the session and 400 when the record is of another kind.
    Without an identifier, only an initialisation sent by POST opens a
    session, and the store is not touched. *)
Theorem all_mcp_outcomes (sessionId : option string) (method : string)
    (isInitialize : bool) (now : Z) m :
  (given sessionId = None →
     all_mcp sessionId method isInitialize now m
     = (m, if bool_decide (method = "POST") && isInitialize then HandleRequestNew
           else Json 400 (-32000)
                  "Bad Request: No valid session ID provided or invalid initialization request"))
  ∧ (∀ sid, given sessionId = Some sid →
       (all_mcp sessionId method isInitialize now m).1 = updateSessionActivity sid now m
       ∧ (all_mcp sessionId method isInitialize now m).2 ≠ HandleRequestNew
       ∧ (sessionExists sid (redis m) = false →
            all_mcp sessionId method isInitialize now m
            = (m, Json 404 (-32000) "Session not found"))
       ∧ (sessionExists sid (redis m) = true →
            ∀ tr, localTransports m !! sid = Some tr →
                  instanceof_Streamable (heap m) (Some tr) = true →
                  (all_mcp sessionId method isInitialize now m).2 = HandleRequest tr)
       ∧ (instanceof_Streamable (heap m) (localTransports m !! sid) = false →
            ∀ md, getSession sid (redis m) = Some md →
                  (all_mcp sessionId method isInitialize now m).2
                  = if bool_decide (transportType md = Some "streamable")
                    then HandleRequestRestored sid
                    else Json 400 (-32000)
                           "Session exists but uses a different transport protocol")).
Proof.
  split.
  { intros Hnone. unfold all_mcp. rewrite Hnone. by destruct (_ && _). }
  intros sid Hsid. unfold all_mcp. rewrite Hsid.
  rewrite sessionExists_updateSessionActivity, getSession_updateSessionActivity.
  unfold getLocalTransport.
  destruct (localTransports_updateSessionActivity sid now m) as [-> ->].
  split; [|split; [|split; [|split]]].
  - destruct (sessionExists sid (redis m)); [|done].
    destruct (localTransports m !! sid) as [tr|];
      [destruct (instanceof_Streamable (heap m) (Some tr)); [done|]|];
      destruct (getSession sid (redis m)) as [md|]; cbn; try done;
      by case_bool_decide.
  - destruct (sessionExists sid (redis m)); [|done].
    destruct (localTransports m !! sid) as [tr|];
      [destruct (instanceof_Streamable (heap m) (Some tr)); [done|]|];
      destruct (getSession sid (redis m)) as [md|]; cbn; try done;
      by case_bool_decide.
  - intros Hex. rewrite Hex. by rewrite updateSessionActivity_missing.
  - intros Hex tr Htr Hinst. by rewrite Hex, Htr, Hinst.
  - intros Hinst md Hmd.
    rewrite (getSession_sessionExists sid (redis m) md Hmd), Hmd.
    destruct (localTransports m !! sid) as [tr|]; [rewrite Hinst|];
      cbn; by case_bool_decide.
Qed.

End Router.

Section RouterSSE.
Context `{!JSON SessionManager.SSEState} `{!JSONLaws SessionManager.SSEState}.
Import Sdk SessionManager Server.

Implicit Types (m : SessionManager.t) (sid : string).

(** X20: [GET /sse].  With an identifier that has no key in the store the
    answer is 404, with one whose record is not of kind [sse] it is 500, and
    in both cases nothing is touched; a session connected on this node is
    connected again on the transport it has.  Without an identifier a new
    session is registered under the identifier of the new transport: its
    record reads as a connected [sse] session, and the transport is in the
    local cache with its close handler installed. *)
Theorem get_sse_outcomes (sessionId : option string) (res : nat) (uuid : string)
    (now1 now2 : Z) m :
  (∀ sid, given sessionId = Some sid →
     (sessionExists sid (redis m) = false →
        get_sse sessionId res uuid now1 now2 m = (m, Json 404 (-32000) "Session not found"))
     ∧ (sessionExists sid (redis m) = true →
        getSession sid (redis m) = None
        ∨ (∃ md, getSession sid (redis m) = Some md ∧ transportType md ≠ Some "sse") →
        get_sse sessionId res uuid now1 now2 m
        = (m, Json 500 (-32603) "Failed to restore SSE connection"))
     ∧ (∀ md tr, getSession sid (redis m) = Some md → transportType md = Some "sse" →
          localTransports m !! sid = Some tr →
          instanceof_SSE (heap m) (Some tr) = true →
          get_sse sessionId res uuid now1 now2 m = (m, Connect tr)))
  ∧ (given sessionId = None → JS.truthy uuid = true →
       let tr := fresh (dom (heap m)) in
       let m' := (get_sse sessionId res uuid now1 now2 m).1 in
       (get_sse sessionId res uuid now1 now2 m).2 = Connect tr
       ∧ getSession uuid (redis m')
         = Some {| sessionId := Some uuid;
                   transportType := Some "sse";
                   createdAt := Some now1;
                   lastActive := Some now2;
                   sseState := Some {| isConnected := true; lastEventId := None |} |}
       ∧ getLocalTransport uuid m' = Some tr
       ∧ heap m' !! tr
         = Some (set_onclose uuid (new_SSEServerTransport "/messages" res uuid))).
Proof.
  split.
  - intros sid Hsid. unfold get_sse. rewrite Hsid. split; [by intros ->|].
    split.
    + intros -> Hcase. unfold getOrCreateSSETransport.
      destruct Hcase as [-> | (md & -> & Hty)]; [done|].
      by rewrite bool_decide_eq_false_2 by done.
    + intros md tr Hmd Hty Htr Hinst.
      rewrite (getSession_sessionExists sid (redis m) md Hmd).
      unfold getOrCreateSSETransport. rewrite Hmd, Htr, Hinst.
      by rewrite bool_decide_eq_true_2 by done.
  - intros Hnone Huuid. unfold get_sse. rewrite Hnone. cbn zeta. cbn [fst snd].
    split; [done|].
    destruct (getSession_registerSession uuid (fresh (dom (heap m))) sse now1 now2
                (mkManager (redis m) (nodeId m) (localTransports m)
                   (<[fresh (dom (heap m)) := new_SSEServerTransport "/messages" res uuid]>
                      (heap m))) Huuid)
      as (md & Hmd & Hs & Hty & Hc & Hl & Hst).
    split.
    { rewrite Hmd. f_equal. destruct md as [s ty c l st]. cbn in *.
      rewrite (Hst eq_refl). by subst. }
    split.
    { unfold getLocalTransport. cbn. apply lookup_insert_eq. }
    cbn. rewrite lookup_alter_eq, lookup_insert_eq. done.
Qed.

(** X21: a session that lost its connection cannot be brought back.  For a
    record of kind [sse], on a node holding no SSE transport for it (the
    node that served it is gone, or the connection was closed):
    [POST /messages] is answered 410, asking the client to reconnect;
    [GET /sse] with the session identifier then ends in the exception of
    [getOrCreateSSETransport], leaving the manager as it was; and the next
    [POST /messages] is answered 410 again. *)
Theorem reconnect_is_rejected (sid : string) (res : nat) (uuid : string)
    (now now1 now2 now' : Z) m (md : SessionMetadata) :
  JS.truthy sid = true →
  getSession sid (redis m) = Some md →
  transportType md = Some "sse" →
  instanceof_SSE (heap m) (localTransports m !! sid) = false →
  let m1 := (post_messages (Some sid) now m).1 in
  (post_messages (Some sid) now m).2
  = Json 410 (-32000) "SSE connection lost. Client should reconnect to /sse endpoint."
  ∧ get_sse (Some sid) res uuid now1 now2 m1 = (m1, Throws)
  ∧ (post_messages (Some sid) now' m1).2
    = Json 410 (-32000) "SSE connection lost. Client should reconnect to /sse endpoint.".
Proof.
  intros Hsid Hmd Hty Hinst m1.
  assert (Hgiven : given (Some sid) = Some sid) by (cbn; by rewrite Hsid).
  assert (Hpost : ∀ t m0 md0,
            getSession sid (redis m0) = Some md0 →
            instanceof_SSE (heap m0) (localTransports m0 !! sid) = false →
            post_messages (Some sid) t m0
            = (updateSessionActivity sid t m0,
               Json 410 (-32000)
                 "SSE connection lost. Client should reconnect to /sse endpoint.")).
  { intros t m0 md0 Hmd0 Hinst0. unfold post_messages. rewrite Hgiven.
    rewrite sessionExists_updateSessionActivity.
    rewrite (getSession_sessionExists sid (redis m0) md0 Hmd0).
    unfold getLocalTransport.
    destruct (localTransports_updateSessionActivity sid t m0) as [-> ->].
    destruct (localTransports m0 !! sid) as [t0|]; [by rewrite Hinst0|done]. }
  subst m1. rewrite (Hpost now m md Hmd Hinst). cbn [fst snd]. split; [done|].
  destruct (localTransports_updateSessionActivity sid now m) as [Hloc Hheap].
  assert (Hmd1 : getSession sid (redis (updateSessionActivity sid now m))
                 = Some {| sessionId := sessionId md;
                           transportType := transportType md;
                           createdAt := createdAt md;
                           lastActive := Some now;
                           sseState := sseState md |})
    by (by rewrite getSession_updateSessionActivity, Hmd).
  split.
  - unfold get_sse. rewrite Hgiven, sessionExists_updateSessionActivity.
    rewrite (getSession_sessionExists sid (redis m) md Hmd).
    unfold getOrCreateSSETransport. rewrite Hmd1. cbn [transportType].
    rewrite bool_decide_eq_true_2 by done. cbn [negb].
    by rewrite Hloc, Hheap, Hinst.
  - erewrite Hpost; [done | exact Hmd1 | by rewrite Hloc, Hheap].
Qed.

End RouterSSE.
(** ** The server recording the owner node: registry, dispatch, forwarding *)

Section Dist.
Import Sdk DistSessionManager DistManager DistServer.

Implicit Types (m : DistSessionManager.t) (sid : string).

Lemma dist_getSession_registerSession sid (tr : nat) (ty : TransportType)
    (now1 now2 : Z) m :
  JS.truthy sid = true →
  getSession sid (redis (registerSession sid tr ty now1 now2 m))
  = Some {| sessionId := Some sid;
            transportType := Some (TransportType_str ty);
            ownerNodeId := Some (nodeId m);
            createdAt := Some now1;
            lastActive := Some now2 |}.
Proof.
  intros Hsid. cbn [registerSession redis]. unfold getSession.
  rewrite hGetAll_expire, hGetAll_hSet_eq.
  set (fields := <["sessionId" := sid]> _).
  assert (Hl : ∀ k v, fields !! k = Some v →
                      (fields ∪ Redis.hGetAll (session_key sid) (redis m)) !! k = Some v)
    by (intros k v Hk; by apply lookup_union_Some_l).
  rewrite (Hl "sessionId" sid), (Hl "transportType" (TransportType_str ty)),
    (Hl "nodeId" (nodeId m)), (Hl "createdAt" (JS.toString (Some now1))),
    (Hl "lastActive" (JS.toString (Some now2))) by (subst fields; by simplify_map_eq).
  cbn [JS.truthy_prop JS.parseInt_prop]. rewrite Hsid, !parseInt_toString. done.
Qed.

Lemma dist_updateSessionActivity_local sid (now : Z) m :
  localTransports (updateSessionActivity sid now m) = localTransports m
  ∧ heap (updateSessionActivity sid now m) = heap m
  ∧ nodeId (updateSessionActivity sid now m) = nodeId m.
Proof. unfold updateSessionActivity. by case_bool_decide. Qed.

Lemma dist_getSession_sessionExists sid r (md : SessionMetadata) :
  getSession sid r = Some md → Redis.exists_ (session_key sid) r = 1.
Proof.
  unfold getSession, Redis.hGetAll, Redis.exists_. intros Hmd.
  destruct (Redis.hashes r !! session_key sid) as [data|] eqn:Hdata.
  - rewrite bool_decide_eq_true_2; [done|]. left. by eexists.
  - cbn in Hmd. by rewrite lookup_empty in Hmd.
Qed.

Lemma dist_getSession_updateSessionActivity sid (now : Z) m :
  getSession sid (redis (updateSessionActivity sid now m))
  = match getSession sid (redis m) with
    | Some md => Some {| sessionId := sessionId md;
                         transportType := transportType md;
                         ownerNodeId := ownerNodeId md;
                         createdAt := createdAt md;
                         lastActive := Some now |}
    | None => None
    end.
Proof.
  unfold updateSessionActivity. case_bool_decide as Hex.
  - cbn [redis]. unfold getSession, Redis.hSetField.
    rewrite hGetAll_expire, hGetAll_hSet_eq.
    rewrite !lookup_union_r by (by apply lookup_singleton_ne).
    destruct (JS.truthy_prop (Redis.hGetAll (session_key sid) (redis m) !! "sessionId"));
      cbn [negb]; [|done].
    rewrite (lookup_union_Some_l _ _ "lastActive" (JS.toString (Some now)))
      by apply lookup_singleton_eq.
    cbn [JS.parseInt_prop]. by rewrite parseInt_toString.
  - destruct (getSession sid (redis m)) as [md|] eqn:Hmd; [|done].
    apply dist_getSession_sessionExists in Hmd. rewrite Hmd in Hex. lia.
Qed.

Lemma dist_isSessionLocal_updateSessionActivity sid (now : Z) m :
  isSessionLocal sid (updateSessionActivity sid now m) = isSessionLocal sid m.
Proof.
  unfold isSessionLocal. rewrite dist_getSession_updateSessionActivity.
  destruct (dist_updateSessionActivity_local sid now m) as (-> & _ & ->).
  by destruct (getSession sid (redis m)).
Qed.

(** X22: the node that registers a session owns it.  After
    [registerSession] the record reads back with the identifier of the
    registering node as owner, and the session is local on that node; on a
    node attached to the same store whose local cache does not hold the
    session, it is not local, whatever the identifier of that node. *)
Theorem registerSession_owner sid (tr : nat) (ty : TransportType) (now1 now2 : Z) m :
  JS.truthy sid = true →
  getSession sid (redis (registerSession sid tr ty now1 now2 m))
  = Some {| sessionId := Some sid;
            transportType := Some (TransportType_str ty);
            ownerNodeId := Some (nodeId m);
            createdAt := Some now1;
            lastActive := Some now2 |}
  ∧ isSessionLocal sid (registerSession sid tr ty now1 now2 m) = true
  ∧ ∀ id, isSessionLocal sid (other_node id (registerSession sid tr ty now1 now2 m)) = false.
Proof.
  intros Hsid. split; [by apply dist_getSession_registerSession|]. split.
  - unfold isSessionLocal. rewrite dist_getSession_registerSession by done.
    cbn. rewrite lookup_insert_eq.
    rewrite bool_decide_eq_true_2 by done. by rewrite bool_decide_eq_true_2 by eauto.
  - intros id. unfold isSessionLocal, other_node. cbn [redis localTransports nodeId].
    rewrite dist_getSession_registerSession by done. cbn [ownerNodeId].
    rewrite lookup_empty. rewrite (bool_decide_eq_false_2 (is_Some None)) by (by intros [? ?]).
    apply andb_false_r.
Qed.

(** X23: a request for a session that is not local but has a record is
    forwarded to the node the record names as owner: [/mcp] forwards with
    the URL of the request as path, [POST /messages] with its path.  The
    owner is read from the record alone, so a node whose identifier is the
    owner's but whose local cache has lost the session forwards to its own
    address. *)
Theorem forwards_to_owner (sessionId : option string) sid (method url path : string)
    (isInitialize : bool) (now : Z) m (md : SessionMetadata) :
  Server.given sessionId = Some sid →
  getSession sid (redis m) = Some md →
  isSessionLocal sid m = false →
  (all_mcp sessionId method url isInitialize now m).2 = Proxy (ownerNodeId md) url
  ∧ (post_messages sessionId path now m).2 = Proxy (ownerNodeId md) path.
Proof.
  intros Hsid Hmd Hlocal. unfold all_mcp, post_messages. rewrite Hsid.
  rewrite dist_isSessionLocal_updateSessionActivity, Hlocal.
  by rewrite dist_getSession_updateSessionActivity, Hmd.
Qed.

Lemma includes_app_sep (sep : ascii) (s rest : string) :
  JS.includes sep (s +:+ String sep rest) = true.
Proof.
  induction s as [|c s IH].
  - change (EmptyString +:+ String sep rest) with (String sep rest).
    cbn [JS.includes]. by rewrite bool_decide_eq_true_2.
  - change (String c s +:+ String sep rest) with (String c (s +:+ String sep rest)).
    cbn [JS.includes]. rewrite IH. apply orb_true_r.
Qed.

Lemma split_no_sep (sep : ascii) (s : string) :
  JS.includes sep s = false → JS.split sep s = [s].
Proof.
  induction s as [|c s IH]; [done|]. cbn [JS.includes JS.split]. intros Hs.
  apply orb_false_iff in Hs as [Hc Hs]. apply bool_decide_eq_false in Hc.
  rewrite decide_False by done. by rewrite IH.
Qed.

Lemma proxy_url_query (targetUrl path p q : string) :
  JS.includes question p = false → JS.includes question q = false →
  proxy_url targetUrl path (p +:+ String question q)
  = targetUrl +:+ path +:+ String question q.
Proof.
  intros Hp Hq. unfold proxy_url.
  rewrite includes_app_sep, split_before_sep, split_no_sep by done. done.
Qed.

Lemma app_assoc_string (a b c : string) : (a +:+ b) +:+ c = a +:+ (b +:+ c).
Proof.
  induction a as [|x a IH]; [done|].
  change ((String x a +:+ b) +:+ c) with (String x ((a +:+ b) +:+ c)). by rewrite IH.
Qed.

Lemma app_empty_r_string (a : string) : a +:+ EmptyString = a.
Proof.
  induction a as [|x a IH]; [done|].
  change (String x a +:+ EmptyString) with (String x (a +:+ EmptyString)). by rewrite IH.
Qed.

Section Forwarding.
Context {Body : Type} `{!JSON Body}.

(** X24: the address a request is forwarded to.  For a request whose URL is
    its path followed by [?] and a query without a further [?]:
    forwarded with its path, as [POST /messages] does, it goes to the
    address of the node followed by the path and the query; forwarded with
    its URL as path, as [/mcp] does, the query is appended to a path that
    already ends in it; and a query is cut at a second [?].  A URL without
    [?] forwards to the address followed by the path. *)
Theorem proxyRequest_url (targetUrl : string) (req : Request Body)
    (targetNodeId : option string) (q : string) :
  JS.truthy targetUrl = true →
  JS.includes question (req_path req) = false →
  JS.includes question q = false →
  (req_url req = req_path req +:+ String question q →
     (∃ f, proxyRequest (Some targetUrl) req targetNodeId (req_path req) = inr f
           ∧ f_url f = targetUrl +:+ req_path req +:+ String question q)
     ∧ (∃ f, proxyRequest (Some targetUrl) req targetNodeId (req_url req) = inr f
             ∧ f_url f = targetUrl +:+ req_path req +:+ String question q
                         +:+ String question q))
  ∧ (∀ rest, req_url req = req_path req +:+ String question (q +:+ String question rest) →
       ∃ f, proxyRequest (Some targetUrl) req targetNodeId (req_path req) = inr f
            ∧ f_url f = targetUrl +:+ req_path req +:+ String question q)
  ∧ (req_url req = req_path req →
       ∃ f, proxyRequest (Some targetUrl) req targetNodeId (req_path req) = inr f
            ∧ f_url f = targetUrl +:+ req_path req).
Proof.
  intros Hurl Hp Hq. unfold proxyRequest. cbn [Server.given]. rewrite Hurl.
  split; [|split].
  - intros Hreq. split; eexists; (split; [reflexivity|]); cbn [f_url]; rewrite Hreq.
    + by apply proxy_url_query.
    + rewrite proxy_url_query by done. by rewrite app_assoc_string.
  - intros rest Hreq. eexists. split; [reflexivity|]. cbn [f_url]. rewrite Hreq.
    unfold proxy_url. rewrite includes_app_sep, split_before_sep by done.
    by rewrite split_before_sep by done.
  - intros Hreq. eexists. split; [reflexivity|]. cbn [f_url]. rewrite Hreq.
    unfold proxy_url. rewrite Hp. by rewrite app_empty_r_string.
Qed.

(** X25: what is forwarded besides the address.  The method is the
    request's; the headers are the string-valued headers of the request
    except [host] in any letter case, in their order; a body goes along only
    for a method other than GET and HEAD. *)
Theorem proxyRequest_fetch (targetUrl : option string) (req : Request Body)
    (targetNodeId : option string) (path : string) (f : Fetch) :
  proxyRequest targetUrl req targetNodeId path = inr f →
  f_method f = req_method req
  ∧ (∀ key value, (key, value) ∈ f_headers f
       ↔ (key, HString value) ∈ req_headers req ∧ toLowerCase key ≠ "host")
  ∧ f_headers f `sublist_of` omap (λ kv, match kv.2 with
                                         | HString value => Some (kv.1, value)
                                         | HArray _ => None
                                         end) (req_headers req)
  ∧ (req_method req = "GET" ∨ req_method req = "HEAD" → f_body f = None).
Proof.
  unfold proxyRequest. destruct (Server.given targetUrl) as [u|]; [|done].
  intros [= <-]. cbn [f_method f_headers f_body]. split; [done|]. split; [|split].
  - intros key value. unfold proxy_headers. rewrite list_elem_of_omap. split.
    + intros ([k [v|l]] & Hin & Heq); cbn in Heq; [|done].
      case_bool_decide; [|done]. by simplify_eq.
    + intros [Hin Hhost]. exists (key, HString value). split; [done|]. cbn.
      by rewrite bool_decide_eq_true_2.
  - unfold proxy_headers. induction (req_headers req) as [|[k [v|l]] hs IH]; [done| |].
    + cbn. case_bool_decide; [by apply sublist_skip|by apply sublist_cons].
    + cbn. done.
  - intros [-> | ->]; [done|]. by rewrite andb_false_r.
Qed.

End Forwarding.
End Dist.
(** ** The further statements on concrete runs *)

Section MoreRuns.
Import Sdk Codec Run Scenario.

Lemma reachable_log3 : reachable (Message := Z) log3.
Proof.
  unfold reachable.
  apply (rtc_r _ log2); [apply (rtc_r _ log1); [apply rtc_once|]|].
  - unfold log1. apply step_storeEvent.
  - unfold log2. apply step_storeEvent.
  - unfold log3. apply step_storeEvent.
Qed.

Lemma reachable_registered : reachable (Message := Z) (SessionManager.redis registered).
Proof.
  unfold reachable. apply rtc_once.
  change (step (Message := Z) (SessionManager.redis (node1 SSEServerTransport))
            (SessionManager.redis
               (SessionManager.registerSession "abc" 0 sse 1000 1000
                  (node1 SSEServerTransport)))).
  apply step_registerSession.
Qed.

Lemma storeEvent_round_trip_witness :
  (RedisEventStore.storeEvent "s1" 1 100 "aa" 100 Redis.empty).1
    = RedisEventStore.generateEventId "s1" 100 "aa"
  ∧ Redis.hGetAll (RedisEventStore.event_key (RedisEventStore.generateEventId "s1" 100 "aa"))
      log1 !! "message" ≫= JSON_parse = Some 1
  ∧ (100, RedisEventStore.generateEventId "s1" 100 "aa") ∈ index_of "s1" log1
  ∧ Redis.ttls log1 !! RedisEventStore.stream_key "s1" = Some 86400.
Proof.
  destruct (storeEvent_round_trip (Message := Z) "s1" 1 100 "aa" 100 Redis.empty)
    as (Hid & _ & Hmessage & _ & Hindex & _ & Httl).
  split; [exact Hid|]. split; [exact Hmessage|]. split; [exact Hindex | exact Httl].
Defined.

Lemma replayEventsAfter_sound_witness :
  "s1" = RedisEventStore.getStreamIdFromEventId "s1_100_aa"
  ∧ ∃ ts, JS.parseInt_prop
            (Redis.hGetAll (RedisEventStore.event_key "s1_100_aa") log3 !! "timestamp")
          = Some ts
      ∧ [("s1_150_bb", 2); ("s1_200_cc", 3)].*1
          `sublist_of` (filter (λ e, ts < e.1) (index_of "s1" log3)).*2
      ∧ Forall (λ d, ∃ text,
                  Redis.hGetAll (RedisEventStore.event_key d.1) log3 !! "message" = Some text
                  ∧ JSON_parse text = Some d.2)
          [("s1_150_bb", 2); ("s1_200_cc", 3)].
Proof.
  apply (replayEventsAfter_sound (Message := Z) "s1_100_aa" log3 "s1"
           [("s1_150_bb", 2); ("s1_200_cc", 3)]).
  - vm_compute. reflexivity.
  - discriminate.
Defined.

Lemma replayEventsAfter_after_cleanupOldEvents_witness :
  RedisEventStore.replayEventsAfter (Message := Z) "s1_200_cc"
    (RedisEventStore.cleanupOldEvents "s1" 120 270 log3)
  = RedisEventStore.replayEventsAfter "s1_200_cc" log3.
Proof.
  apply (replayEventsAfter_after_cleanupOldEvents (Message := Z)
           "s1" 120 270 log3 "s1_200_cc" 200).
  - apply reachable_log3.
  - vm_compute. reflexivity.
  - intros t Ht.
    assert (Hindex : index_of "s1" log3
                     = [(100, "s1_100_aa"); (150, "s1_150_bb"); (200, "s1_200_cc")])
      by (vm_compute; reflexivity).
    rewrite Hindex, !elem_of_cons, elem_of_nil in Ht.
    destruct Ht as [Ht | [Ht | [Ht | []]]]; [discriminate Ht | discriminate Ht |].
    injection Ht as ->. lia.
  - vm_compute. reflexivity.
  - lia.
Defined.

Lemma replayEventsAfter_ascending_witness :
  ∃ delivered, [("s1_150_bb", 2); ("s1_200_cc", 3)].*1 = delivered.*2
    ∧ delivered `sublist_of` index_of "s1" log3
    ∧ StronglySorted by_score delivered
    ∧ ∃ ts, JS.parseInt_prop
              (Redis.hGetAll (RedisEventStore.event_key "s1_100_aa") log3 !! "timestamp")
            = Some ts
            ∧ Forall (λ e, ts < e.1) delivered.
Proof.
  apply (replayEventsAfter_ascending (Message := Z) "s1_100_aa" log3 "s1"
           [("s1_150_bb", 2); ("s1_200_cc", 3)]).
  - apply reachable_log3.
  - vm_compute. reflexivity.
  - discriminate.
Defined.

Lemma deserialize_serialize_witness :
  SessionManager.deserializeMetadata (SessionManager.serializeMetadata metadata_abc)
  = metadata_abc.
Proof.
  apply (deserialize_serialize metadata_abc).
  - exists "abc". reflexivity.
  - exists "sse". reflexivity.
Defined.

Lemma registerSession_round_trip_witness :
  SessionManager.getSession "abc" (SessionManager.redis registered) = Some metadata_abc
  ∧ SessionManager.sessionExists "abc" (SessionManager.redis registered) = true
  ∧ SessionManager.isSSEConnected "abc" (SessionManager.redis registered) = true
  ∧ SessionManager.getLocalTransport "abc" registered = Some 0%nat
  ∧ Redis.ttls (SessionManager.redis registered) !! SessionManager.session_key "abc"
    = Some 1800.
Proof.
  unfold registered, metadata_abc.
  apply (registerSession_round_trip "abc" 0 sse 1000 1000 (node1 SSEServerTransport)).
  reflexivity.
Defined.

Lemma updateSessionActivity_touch_witness :
  SessionManager.updateSessionActivity "xyz" 3000 registered = registered
  ∧ SessionManager.getSession "abc"
      (SessionManager.redis (SessionManager.updateSessionActivity "abc" 3000 registered))
    = Some {| SessionManager.sessionId := SessionManager.sessionId metadata_abc;
              SessionManager.transportType := SessionManager.transportType metadata_abc;
              SessionManager.createdAt := SessionManager.createdAt metadata_abc;
              SessionManager.lastActive := Some 3000;
              SessionManager.sseState := SessionManager.sseState metadata_abc |}.
Proof.
  split.
  - destruct (updateSessionActivity_touch "xyz" 3000 registered) as (_ & _ & Hmissing & _).
    apply Hmissing. vm_compute. reflexivity.
  - destruct (updateSessionActivity_touch "abc" 3000 registered) as (_ & _ & _ & Hread).
    destruct (Hread metadata_abc) as [Hget _]; [vm_compute; reflexivity | exact Hget].
Defined.

Lemma getOrCreateSSETransport_unchanged_witness :
  (SessionManager.getOrCreateSSETransport "abc" None "5f0c" node2).1 = node2
  ∧ (SessionManager.getOrCreateSSETransport "abc" None "5f0c" node2).2
    = SessionManager.Resolved
        match SessionManager.getSession "abc" (SessionManager.redis node2) with
        | Some md =>
            if bool_decide (SessionManager.transportType md = Some "sse")
               && instanceof_SSE (SessionManager.heap node2)
                    (SessionManager.localTransports node2 !! "abc")
            then SessionManager.localTransports node2 !! "abc"
            else None
        | None => None
        end.
Proof.
  apply (getOrCreateSSETransport_unchanged "abc" None "5f0c" node2).
  right. right. right. reflexivity.
Defined.

Lemma other_sessions_untouched_witness :
  untouched "xyz" registered
    (SessionManager.registerSession "abc" 0 sse 1000 1000 registered)
  ∧ untouched "xyz" registered (SessionManager.updateSessionActivity "abc" 2000 registered)
  ∧ untouched "xyz" registered
      (SessionManager.getOrCreateSSETransport "abc" (Some 9%nat) "5f0c" registered).1
  ∧ untouched "xyz" registered (SessionManager.removeSession "abc" registered)
  ∧ untouched "xyz" registered (SessionManager.onclose_handler "abc" 2000 registered).
Proof.
  apply (other_sessions_untouched "abc" "xyz" 0 sse 1000 1000 2000 (Some 9%nat) "5f0c"
           registered).
  discriminate.
Defined.

Lemma cleanupExpiredSessions_reconciles_witness :
  Sweeps.cleanup_loop ["abc"] registered = Sweeps.cleanupExpiredSessions registered
  ∧ SessionManager.getLocalTransport "abc"
      (Sweeps.cleanupExpiredSessions
         (SessionManager.mkManager Redis.empty "node-1"
            (SessionManager.localTransports registered) (SessionManager.heap registered)))
    = None.
Proof.
  split.
  - destruct (cleanupExpiredSessions_reconciles registered) as (_ & _ & _ & Horder & _).
    apply Horder. intros sid.
    change (SessionManager.localTransports registered)
      with (<["abc" := 0%nat]> (∅ : gmap string nat)).
    rewrite list_elem_of_singleton. split.
    + intros ->. exists 0%nat. apply lookup_insert_eq.
    + intros [tr Htr]. destruct (decide (sid = "abc")) as [Heq | Hne]; [exact Heq|].
      rewrite lookup_insert_ne, lookup_empty in Htr by congruence. discriminate Htr.
  - destruct (cleanupExpiredSessions_reconciles
                (SessionManager.mkManager Redis.empty "node-1"
                   (SessionManager.localTransports registered)
                   (SessionManager.heap registered))) as (_ & _ & Hkept & _).
    rewrite (Hkept "abc"). vm_compute. reflexivity.
Defined.

Lemma shutdown_marks_disconnected_witness :
  SessionManager.localTransports (Sweeps.shutdown clock registered) = ∅
  ∧ SessionManager.sessionExists "abc"
      (SessionManager.redis (Sweeps.shutdown clock registered)) = true
  ∧ SessionManager.isSSEConnected "abc"
      (SessionManager.redis (Sweeps.shutdown clock registered)) = false.
Proof.
  destruct (shutdown_marks_disconnected (Message := Z) clock registered)
    as (Hcache & _ & Hexists & Hmarked).
  split; [exact Hcache|]. split.
  - rewrite (Hexists "abc"). vm_compute. reflexivity.
  - apply (Hmarked "abc" 0%nat metadata_abc).
    + apply reachable_registered.
    + vm_compute. reflexivity.
    + vm_compute. reflexivity.
    + vm_compute. reflexivity.
    + reflexivity.
Defined.

Lemma post_messages_outcomes_witness :
  Server.post_messages (Some "") 3000 registered
    = (registered, Server.Json 400 (-32000) "Missing sessionId parameter")
  ∧ Server.post_messages (Some "xyz") 3000 registered
    = (registered, Server.Json 404 (-32000) "Session not found")
  ∧ Server.post_messages (Some "abc") 3000 registered
    = (SessionManager.updateSessionActivity "abc" 3000 registered,
       Server.HandlePostMessage 0)
  ∧ Server.post_messages (Some "abc") 3000 node2
    = (SessionManager.updateSessionActivity "abc" 3000 node2,
       Server.Json 410 (-32000)
         "SSE connection lost. Client should reconnect to /sse endpoint.").
Proof.
  split; [|split; [|split]].
  - destruct (post_messages_outcomes (Some "") 3000 registered) as [Hnone _].
    apply Hnone. reflexivity.
  - destruct (post_messages_outcomes (Some "xyz") 3000 registered) as [_ Hsome].
    destruct (Hsome "xyz") as [Hmissing _]; [reflexivity|].
    apply Hmissing. vm_compute. reflexivity.
  - destruct (post_messages_outcomes (Some "abc") 3000 registered) as [_ Hsome].
    destruct (Hsome "abc") as [_ Hpresent]; [reflexivity|].
    destruct Hpresent as [Hlocal _]; [vm_compute; reflexivity|].
    apply Hlocal; vm_compute; reflexivity.
  - destruct (post_messages_outcomes (Some "abc") 3000 node2) as [_ Hsome].
    destruct (Hsome "abc") as [_ Hpresent]; [reflexivity|].
    destruct Hpresent as [_ Hlost]; [vm_compute; reflexivity|].
    apply Hlost. vm_compute. reflexivity.
Defined.

Lemma all_mcp_outcomes_witness :
  (Server.all_mcp (Some "abc") "POST" true 3000 node2).2
    = Server.Json 400 (-32000) "Session exists but uses a different transport protocol"
  ∧ (Server.all_mcp (Some "abc") "POST" true 3000
       (SessionManager.other_node "node-2"
          (SessionManager.registerSession "abc" 0 streamable 1000 1000
             (node1 StreamableHTTPServerTransport)))).2
    = Server.HandleRequestRestored "abc"
  ∧ Server.all_mcp (Some "xyz") "POST" true 3000 node2
    = (node2, Server.Json 404 (-32000) "Session not found").
Proof.
  split; [|split].
  - destruct (all_mcp_outcomes (Some "abc") "POST" true 3000 node2) as [_ Hsome].
    destruct (Hsome "abc") as (_ & _ & _ & _ & Hremote); [reflexivity|].
    rewrite (Hremote eq_refl metadata_abc) by (vm_compute; reflexivity).
    reflexivity.
  - destruct (all_mcp_outcomes (Some "abc") "POST" true 3000
                (SessionManager.other_node "node-2"
                   (SessionManager.registerSession "abc" 0 streamable 1000 1000
                      (node1 StreamableHTTPServerTransport)))) as [_ Hsome].
    destruct (Hsome "abc") as (_ & _ & _ & _ & Hremote); [reflexivity|].
    rewrite (Hremote eq_refl
               {| SessionManager.sessionId := Some "abc";
                  SessionManager.transportType := Some "streamable";
                  SessionManager.createdAt := Some 1000;
                  SessionManager.lastActive := Some 1000;
                  SessionManager.sseState := None |}) by (vm_compute; reflexivity).
    reflexivity.
  - destruct (all_mcp_outcomes (Some "xyz") "POST" true 3000 node2) as [_ Hsome].
    destruct (Hsome "xyz") as (_ & _ & Hmissing & _); [reflexivity|].
    apply Hmissing. vm_compute. reflexivity.
Defined.

Lemma get_sse_outcomes_witness :
  (Server.get_sse None 9 "5f0c" 1000 1000 (node1 SSEServerTransport)).2 = Server.Connect 1
  ∧ SessionManager.getSession "5f0c"
      (SessionManager.redis
         (Server.get_sse None 9 "5f0c" 1000 1000 (node1 SSEServerTransport)).1)
    = Some {| SessionManager.sessionId := Some "5f0c";
              SessionManager.transportType := Some "sse";
              SessionManager.createdAt := Some 1000;
              SessionManager.lastActive := Some 1000;
              SessionManager.sseState :=
                Some {| SessionManager.isConnected := true;
                        SessionManager.lastEventId := None |} |}
  ∧ Server.get_sse (Some "xyz") 9 "5f0c" 1000 1000 node2
    = (node2, Server.Json 404 (-32000) "Session not found").
Proof.
  destruct (get_sse_outcomes None 9 "5f0c" 1000 1000 (node1 SSEServerTransport))
    as [_ Hnew].
  destruct Hnew as (Hconnect & Hrecord & _); [reflexivity | reflexivity |].
  split; [exact Hconnect|]. split; [exact Hrecord|].
  destruct (get_sse_outcomes (Some "xyz") 9 "5f0c" 1000 1000 node2) as [Hsome _].
  destruct (Hsome "xyz") as [Hmissing _]; [reflexivity|].
  apply Hmissing. vm_compute. reflexivity.
Defined.

Lemma only_registerSession_connects_witness :
  SessionManager.isSSEConnected "abc"
    (SessionManager.redis
       (SessionManager.updateSessionActivity "abc" 3000 node2_after_close)) = false
  ∧ SessionManager.isSSEConnected "abc"
      (SessionManager.redis
         (SessionManager.getOrCreateSSETransport "abc" (Some 9%nat) "5f0c"
            node2_after_close).1) = false.
Proof.
  destruct (only_registerSession_connects "abc" "abc" 3000 (Some 9%nat)
              "5f0c" 0 clock node2_after_close) as (Htouch & _ & Hrestore & _).
  - vm_compute. reflexivity.
  - split; [exact Htouch | exact Hrestore].
Defined.

Lemma reconnect_is_rejected_witness :
  (Server.post_messages (Some "abc") 3000 node2_after_close).2
  = Server.Json 410 (-32000) "SSE connection lost. Client should reconnect to /sse endpoint."
  ∧ Server.get_sse (Some "abc") 9 "5f0c" 4000 4000
      (Server.post_messages (Some "abc") 3000 node2_after_close).1
    = ((Server.post_messages (Some "abc") 3000 node2_after_close).1, Server.Throws)
  ∧ (Server.post_messages (Some "abc") 5000
       (Server.post_messages (Some "abc") 3000 node2_after_close).1).2
    = Server.Json 410 (-32000)
        "SSE connection lost. Client should reconnect to /sse endpoint.".
Proof.
  apply (reconnect_is_rejected "abc" 9 "5f0c" 3000 4000 4000 5000 node2_after_close
           metadata_closed).
  - reflexivity.
  - vm_compute. reflexivity.
  - reflexivity.
  - reflexivity.
Defined.

Lemma registerSession_owner_witness :
  DistSessionManager.getSession "abc" (DistSessionManager.redis dist_registered)
  = Some {| DistSessionManager.sessionId := Some "abc";
            DistSessionManager.transportType := Some (TransportType_str sse);
            DistSessionManager.ownerNodeId :=
              Some (DistSessionManager.nodeId (dist_node1 SSEServerTransport));
            DistSessionManager.createdAt := Some 1000;
            DistSessionManager.lastActive := Some 1000 |}
  ∧ DistSessionManager.isSessionLocal "abc" dist_registered = true
  ∧ ∀ id, DistSessionManager.isSessionLocal "abc"
            (DistManager.other_node id dist_registered) = false.
Proof.
  apply (registerSession_owner "abc" 0 sse 1000 1000 (dist_node1 SSEServerTransport)).
  reflexivity.
Defined.

Lemma forwards_to_owner_witness :
  (DistServer.all_mcp (Some "abc") "POST" "/mcp" false 3000 dist_node2).2
    = DistServer.Proxy (DistSessionManager.ownerNodeId dist_metadata_abc) "/mcp"
  ∧ (DistServer.post_messages (Some "abc") "/messages" 3000 dist_node2).2
    = DistServer.Proxy (DistSessionManager.ownerNodeId dist_metadata_abc) "/messages".
Proof.
  apply (forwards_to_owner (Some "abc") "abc" "POST" "/mcp" "/messages" false 3000
           dist_node2 dist_metadata_abc).
  - reflexivity.
  - vm_compute. reflexivity.
  - vm_compute. reflexivity.
Defined.

Lemma proxyRequest_url_witness :
  (∃ f, DistServer.proxyRequest (Some "http://mcp-server-1:3000") request_messages
          (Some "server-1") (DistServer.req_path request_messages) = inr f
        ∧ DistServer.f_url f = "http://mcp-server-1:3000/messages?sessionId=abc")
  ∧ (∃ f, DistServer.proxyRequest (Some "http://mcp-server-1:3000") request_messages
            (Some "server-1") (DistServer.req_url request_messages) = inr f
          ∧ DistServer.f_url f
            = "http://mcp-server-1:3000/messages?sessionId=abc?sessionId=abc").
Proof.
  destruct (proxyRequest_url "http://mcp-server-1:3000" request_messages (Some "server-1")
              "sessionId=abc") as [Hquery _].
  - reflexivity.
  - reflexivity.
  - reflexivity.
  - apply Hquery. reflexivity.
Defined.

Lemma proxyRequest_fetch_witness :
  DistServer.f_method forwarded = DistServer.req_method request_messages
  ∧ ("content-type", "application/json") ∈ DistServer.f_headers forwarded
  ∧ ∀ value, ("host", value) ∉ DistServer.f_headers forwarded.
Proof.
  destruct (proxyRequest_fetch (Some "http://mcp-server-1:3000") request_messages
              (Some "server-1") "/messages" forwarded) as (Hmethod & Hheaders & _).
  - vm_compute. reflexivity.
  - split; [exact Hmethod|]. split.
    + apply Hheaders. split; [|vm_compute; discriminate].
      unfold request_messages. cbn [DistServer.req_headers].
      rewrite !elem_of_cons. right. left. reflexivity.
    + intros value Hin. apply Hheaders in Hin as [_ Hhost]. apply Hhost.
      vm_compute. reflexivity.
Defined.

End MoreRuns.
